(** * Impetus: inertial drag engine (src/impetus.js)

    A shallow embedding of the physics/state engine of [Impetus] and the
    properties its specification states about it.

    Numbers.  Every numeric value of the program is a JavaScript number.
    They are modelled by [num]: an exact rational, or one of the three
    special values [+Infinity], [-Infinity] and [NaN], with the arithmetic
    and the comparisons of JavaScript on them.  Rounding, overflow of
    finite results and the sign of zero are not modelled: a finite result
    is the exact rational, and a zero divisor counts as [+0].  So a
    statement over [num] is one of exact arithmetic; where the program's
    binary64 numbers give [-0] (a release in the millisecond of the move
    under a negative multiplier) the infinite velocity has the other
    sign.  The drag resistance, a function of one number, is embedded a
    second time on binary64 numbers, in [Binary64], where its rounding
    shows.

    Environment.  [requestAnimationFrame], [cancelAnimationFrame],
    [Date.now], the DOM listeners and the user's callbacks are the
    engine's collaborators.  They are part of the state [Engine]: a queue
    of pending frames, three listener flags and the trace of the
    callbacks invoked.  [Date.now()] is an argument of the handlers that
    read it. *)

From Stdlib Require Import ZArith QArith Qabs Lqa Lia List Bool PArith.
From Stdlib Require PrimFloat.
Import ListNotations.

Set Implicit Arguments.

(* ================================================================= *)
(** ** JavaScript numbers *)

Module JS.

Inductive num : Type :=
| Fin (q : Q)
| PInf
| NInf
| NaN.

Definition Qltb (a b : Q) : bool := negb (Qle_bool b a).
Definition Qzero (a : Q) : bool := Qeq_bool a 0.

Definition of_sign (positive : bool) : num := if positive then PInf else NInf.

Definition neg (a : num) : num :=
  match a with
  | Fin q => Fin (- q)
  | PInf => NInf
  | NInf => PInf
  | NaN => NaN
  end.

Definition add (a b : num) : num :=
  match a, b with
  | NaN, _ | _, NaN => NaN
  | Fin p, Fin q => Fin (p + q)
  | PInf, NInf | NInf, PInf => NaN
  | PInf, _ | _, PInf => PInf
  | NInf, _ | _, NInf => NInf
  end.

Definition sub (a b : num) : num := add a (neg b).

(** [Infinity * q] for a rational [q]. *)
Definition scale_inf (positive : bool) (q : Q) : num :=
  if Qzero q then NaN
  else of_sign (if Qltb 0 q then positive else negb positive).

Definition mul (a b : num) : num :=
  match a, b with
  | NaN, _ | _, NaN => NaN
  | Fin p, Fin q => Fin (p * q)
  | PInf, Fin q | Fin q, PInf => scale_inf true q
  | NInf, Fin q | Fin q, NInf => scale_inf false q
  | PInf, PInf | NInf, NInf => PInf
  | PInf, NInf | NInf, PInf => NInf
  end.

Definition div (a b : num) : num :=
  match a, b with
  | NaN, _ | _, NaN => NaN
  | Fin p, Fin q =>
      if Qzero q
      then (if Qzero p then NaN else of_sign (Qltb 0 p))
      else Fin (p / q)
  | Fin _, (PInf | NInf) => Fin 0
  | PInf, Fin q => of_sign (negb (Qltb q 0))
  | NInf, Fin q => of_sign (Qltb q 0)
  | (PInf | NInf), (PInf | NInf) => NaN
  end.

(** [a ** n] for a literal exponent. *)
Fixpoint pow (a : num) (n : nat) : num :=
  match n with
  | O => Fin 1
  | S O => a
  | S m => mul a (pow a m)
  end.

(** [Math.abs]. *)
Definition abs (a : num) : num :=
  match a with
  | Fin q => Fin (Qabs q)
  | PInf | NInf => PInf
  | NaN => NaN
  end.

(** [a < b]; every comparison with [NaN] is false. *)
Definition lt (a b : num) : bool :=
  match a, b with
  | NaN, _ | _, NaN => false
  | Fin p, Fin q => Qltb p q
  | NInf, (Fin _ | PInf) => true
  | Fin _, PInf => true
  | _, _ => false
  end.

(** [a <= b]. *)
Definition le (a b : num) : bool :=
  match a, b with
  | NaN, _ | _, NaN => false
  | Fin p, Fin q => Qle_bool p q
  | NInf, _ => true
  | _, PInf => true
  | _, _ => false
  end.

(** [a > b]. *)
Definition gt (a b : num) : bool := lt b a.

(** [a === b] on numbers. *)
Definition seq (a b : num) : bool :=
  match a, b with
  | Fin p, Fin q => Qeq_bool p q
  | PInf, PInf | NInf, NInf => true
  | _, _ => false
  end.

(** [a !== b]. *)
Definition sne (a b : num) : bool := negb (seq a b).

(** A number is falsy when it is zero or [NaN]. *)
Definition truthy (a : num) : bool :=
  match a with
  | Fin q => negb (Qzero q)
  | PInf | NInf => true
  | NaN => false
  end.

(** [a || b]. *)
Definition or_else (a b : num) : num := if truthy a then a else b.

Definition is_finite (a : num) : Prop :=
  match a with Fin _ => True | _ => False end.

(** The same number: rationals up to [Qeq]. *)
Definition same (a b : num) : Prop :=
  match a, b with
  | Fin p, Fin q => p == q
  | PInf, PInf | NInf, NInf | NaN, NaN => True
  | _, _ => False
  end.

End JS.

Import JS.

Declare Scope js_scope.
Delimit Scope js_scope with js.
Bind Scope js_scope with num.
Notation "a + b" := (add a b) : js_scope.
Notation "a - b" := (sub a b) : js_scope.
Notation "a * b" := (mul a b) : js_scope.
Notation "a / b" := (div a b) : js_scope.
Notation "a <? b" := (lt a b) : js_scope.
Notation "a <=? b" := (le a b) : js_scope.
Notation "a >? b" := (gt a b) (at level 70) : js_scope.
Notation "a === b" := (seq a b) (at level 70) : js_scope.
Notation "a !== b" := (sne a b) (at level 70) : js_scope.
Notation "a ||| b" := (or_else a b) (at level 50, left associativity) : js_scope.
Coercion Fin : Q >-> num.

Open Scope js_scope.

(** Numeric literals of the source. *)
Definition STOP_THRESHOLD_DEFAULT : num := Fin 0.3.
Definition BOUNCE_DECELERATION : num := Fin 0.04.
Definition BOUNCE_ACCELERATION : num := Fin 0.11.

(** [ToNumber(undefined)]: what arithmetic reads in a missing property. *)
Definition undefined : num := NaN.

(** A bound copied into a number field.  A [null] bound would be read as
    0 by every later arithmetic use; [checkBounds] never copies one
    (lemmas [overflow_pos_min] and [overflow_neg_max]). *)
Definition value_of (b : option num) : num :=
  match b with
  | Some v => v
  | None => Fin 0
  end.

(* ================================================================= *)
(** ** Data model *)

(** An entry of [trackingPoints]: [{ x, y, time }]. *)
Module Point.
Record t : Type := mk { x : num; y : num; time : num }.
End Point.

(** The result of [checkBounds]: [{ x, y, inBounds }]. *)
Module Diff.
Record t : Type := mk { x : num; y : num; inBounds : bool }.
End Diff.

(** DOM events.  [Raw] keeps what the handlers read of a mouse or touch
    event: for a touch event the coordinates and identifier are those of
    [changedTouches[0]]; [deltaX] is present on wheel-like events only.
    [Norm] is the object [normalizeEvent] returns. *)
Module Ev.
Record Raw : Type := mkRaw {
  isTouch : bool;
  clientX : num;
  clientY : num;
  identifier : Z;
  deltaX : option num
}.
Record Norm : Type := mkNorm { x : num; y : num; id : option Z }.
End Ev.

(** [this.options].  [onDownHook] and [onUpHook] record whether the
    options [onDown] and [onUp] were supplied.  The pointer coordinates and the velocities start as [null],
    which arithmetic reads as 0; bounds are [None] when [null] or
    [undefined]; [pointerId] is [None] for the mouse ([null]). *)
Record Options : Type := mkOptions {
  bounce : bool;
  friction : num;
  multiplier : num;
  onDownHook : bool;
  onUpHook : bool;
  stopThreshold : num;
  targetX : num;
  targetY : num;
  paused : bool;
  ticking : bool;
  decelerating : bool;
  pointerActive : bool;
  trackingPoints : list Point.t;
  pointerCurrentX : num;
  pointerCurrentY : num;
  pointerLastX : num;
  pointerLastY : num;
  boundXmin : option num;
  boundXmax : option num;
  boundYmin : option num;
  boundYmax : option num;
  pointerId : option Z;
  decVelX : num;
  decVelY : num
}.

Definition set_multiplier (v : num) (o : Options) : Options :=
  mkOptions (o.(bounce)) (o.(friction)) v (o.(onDownHook)) (o.(onUpHook))
    (o.(stopThreshold)) (o.(targetX)) (o.(targetY)) (o.(paused))
    (o.(ticking)) (o.(decelerating)) (o.(pointerActive))
    (o.(trackingPoints)) (o.(pointerCurrentX)) (o.(pointerCurrentY))
    (o.(pointerLastX)) (o.(pointerLastY)) (o.(boundXmin)) (o.(boundXmax))
    (o.(boundYmin)) (o.(boundYmax)) (o.(pointerId)) (o.(decVelX))
    (o.(decVelY)).

Definition set_stopThreshold (v : num) (o : Options) : Options :=
  mkOptions (o.(bounce)) (o.(friction)) (o.(multiplier)) (o.(onDownHook))
    (o.(onUpHook)) v (o.(targetX)) (o.(targetY)) (o.(paused)) (o.(ticking))
    (o.(decelerating)) (o.(pointerActive)) (o.(trackingPoints))
    (o.(pointerCurrentX)) (o.(pointerCurrentY)) (o.(pointerLastX))
    (o.(pointerLastY)) (o.(boundXmin)) (o.(boundXmax)) (o.(boundYmin))
    (o.(boundYmax)) (o.(pointerId)) (o.(decVelX)) (o.(decVelY)).

Definition set_targetX (v : num) (o : Options) : Options :=
  mkOptions (o.(bounce)) (o.(friction)) (o.(multiplier)) (o.(onDownHook))
    (o.(onUpHook)) (o.(stopThreshold)) v (o.(targetY)) (o.(paused))
    (o.(ticking)) (o.(decelerating)) (o.(pointerActive))
    (o.(trackingPoints)) (o.(pointerCurrentX)) (o.(pointerCurrentY))
    (o.(pointerLastX)) (o.(pointerLastY)) (o.(boundXmin)) (o.(boundXmax))
    (o.(boundYmin)) (o.(boundYmax)) (o.(pointerId)) (o.(decVelX))
    (o.(decVelY)).

Definition set_targetY (v : num) (o : Options) : Options :=
  mkOptions (o.(bounce)) (o.(friction)) (o.(multiplier)) (o.(onDownHook))
    (o.(onUpHook)) (o.(stopThreshold)) (o.(targetX)) v (o.(paused))
    (o.(ticking)) (o.(decelerating)) (o.(pointerActive))
    (o.(trackingPoints)) (o.(pointerCurrentX)) (o.(pointerCurrentY))
    (o.(pointerLastX)) (o.(pointerLastY)) (o.(boundXmin)) (o.(boundXmax))
    (o.(boundYmin)) (o.(boundYmax)) (o.(pointerId)) (o.(decVelX))
    (o.(decVelY)).

Definition set_paused (v : bool) (o : Options) : Options :=
  mkOptions (o.(bounce)) (o.(friction)) (o.(multiplier)) (o.(onDownHook))
    (o.(onUpHook)) (o.(stopThreshold)) (o.(targetX)) (o.(targetY)) v
    (o.(ticking)) (o.(decelerating)) (o.(pointerActive))
    (o.(trackingPoints)) (o.(pointerCurrentX)) (o.(pointerCurrentY))
    (o.(pointerLastX)) (o.(pointerLastY)) (o.(boundXmin)) (o.(boundXmax))
    (o.(boundYmin)) (o.(boundYmax)) (o.(pointerId)) (o.(decVelX))
    (o.(decVelY)).

Definition set_ticking (v : bool) (o : Options) : Options :=
  mkOptions (o.(bounce)) (o.(friction)) (o.(multiplier)) (o.(onDownHook))
    (o.(onUpHook)) (o.(stopThreshold)) (o.(targetX)) (o.(targetY)) (o.(paused))
    v (o.(decelerating)) (o.(pointerActive)) (o.(trackingPoints))
    (o.(pointerCurrentX)) (o.(pointerCurrentY)) (o.(pointerLastX))
    (o.(pointerLastY)) (o.(boundXmin)) (o.(boundXmax)) (o.(boundYmin))
    (o.(boundYmax)) (o.(pointerId)) (o.(decVelX)) (o.(decVelY)).

Definition set_decelerating (v : bool) (o : Options) : Options :=
  mkOptions (o.(bounce)) (o.(friction)) (o.(multiplier)) (o.(onDownHook))
    (o.(onUpHook)) (o.(stopThreshold)) (o.(targetX)) (o.(targetY)) (o.(paused))
    (o.(ticking)) v (o.(pointerActive)) (o.(trackingPoints))
    (o.(pointerCurrentX)) (o.(pointerCurrentY)) (o.(pointerLastX))
    (o.(pointerLastY)) (o.(boundXmin)) (o.(boundXmax)) (o.(boundYmin))
    (o.(boundYmax)) (o.(pointerId)) (o.(decVelX)) (o.(decVelY)).

Definition set_pointerActive (v : bool) (o : Options) : Options :=
  mkOptions (o.(bounce)) (o.(friction)) (o.(multiplier)) (o.(onDownHook))
    (o.(onUpHook)) (o.(stopThreshold)) (o.(targetX)) (o.(targetY)) (o.(paused))
    (o.(ticking)) (o.(decelerating)) v (o.(trackingPoints))
    (o.(pointerCurrentX)) (o.(pointerCurrentY)) (o.(pointerLastX))
    (o.(pointerLastY)) (o.(boundXmin)) (o.(boundXmax)) (o.(boundYmin))
    (o.(boundYmax)) (o.(pointerId)) (o.(decVelX)) (o.(decVelY)).

Definition set_trackingPoints (v : list Point.t) (o : Options) : Options :=
  mkOptions (o.(bounce)) (o.(friction)) (o.(multiplier)) (o.(onDownHook))
    (o.(onUpHook)) (o.(stopThreshold)) (o.(targetX)) (o.(targetY)) (o.(paused))
    (o.(ticking)) (o.(decelerating)) (o.(pointerActive)) v
    (o.(pointerCurrentX)) (o.(pointerCurrentY)) (o.(pointerLastX))
    (o.(pointerLastY)) (o.(boundXmin)) (o.(boundXmax)) (o.(boundYmin))
    (o.(boundYmax)) (o.(pointerId)) (o.(decVelX)) (o.(decVelY)).

Definition set_pointerCurrentX (v : num) (o : Options) : Options :=
  mkOptions (o.(bounce)) (o.(friction)) (o.(multiplier)) (o.(onDownHook))
    (o.(onUpHook)) (o.(stopThreshold)) (o.(targetX)) (o.(targetY)) (o.(paused))
    (o.(ticking)) (o.(decelerating)) (o.(pointerActive))
    (o.(trackingPoints)) v (o.(pointerCurrentY)) (o.(pointerLastX))
    (o.(pointerLastY)) (o.(boundXmin)) (o.(boundXmax)) (o.(boundYmin))
    (o.(boundYmax)) (o.(pointerId)) (o.(decVelX)) (o.(decVelY)).

Definition set_pointerCurrentY (v : num) (o : Options) : Options :=
  mkOptions (o.(bounce)) (o.(friction)) (o.(multiplier)) (o.(onDownHook))
    (o.(onUpHook)) (o.(stopThreshold)) (o.(targetX)) (o.(targetY)) (o.(paused))
    (o.(ticking)) (o.(decelerating)) (o.(pointerActive))
    (o.(trackingPoints)) (o.(pointerCurrentX)) v (o.(pointerLastX))
    (o.(pointerLastY)) (o.(boundXmin)) (o.(boundXmax)) (o.(boundYmin))
    (o.(boundYmax)) (o.(pointerId)) (o.(decVelX)) (o.(decVelY)).

Definition set_pointerLastX (v : num) (o : Options) : Options :=
  mkOptions (o.(bounce)) (o.(friction)) (o.(multiplier)) (o.(onDownHook))
    (o.(onUpHook)) (o.(stopThreshold)) (o.(targetX)) (o.(targetY)) (o.(paused))
    (o.(ticking)) (o.(decelerating)) (o.(pointerActive))
    (o.(trackingPoints)) (o.(pointerCurrentX)) (o.(pointerCurrentY)) v
    (o.(pointerLastY)) (o.(boundXmin)) (o.(boundXmax)) (o.(boundYmin))
    (o.(boundYmax)) (o.(pointerId)) (o.(decVelX)) (o.(decVelY)).

Definition set_pointerLastY (v : num) (o : Options) : Options :=
  mkOptions (o.(bounce)) (o.(friction)) (o.(multiplier)) (o.(onDownHook))
    (o.(onUpHook)) (o.(stopThreshold)) (o.(targetX)) (o.(targetY)) (o.(paused))
    (o.(ticking)) (o.(decelerating)) (o.(pointerActive))
    (o.(trackingPoints)) (o.(pointerCurrentX)) (o.(pointerCurrentY))
    (o.(pointerLastX)) v (o.(boundXmin)) (o.(boundXmax)) (o.(boundYmin))
    (o.(boundYmax)) (o.(pointerId)) (o.(decVelX)) (o.(decVelY)).

Definition set_boundXmin (v : option num) (o : Options) : Options :=
  mkOptions (o.(bounce)) (o.(friction)) (o.(multiplier)) (o.(onDownHook))
    (o.(onUpHook)) (o.(stopThreshold)) (o.(targetX)) (o.(targetY)) (o.(paused))
    (o.(ticking)) (o.(decelerating)) (o.(pointerActive))
    (o.(trackingPoints)) (o.(pointerCurrentX)) (o.(pointerCurrentY))
    (o.(pointerLastX)) (o.(pointerLastY)) v (o.(boundXmax)) (o.(boundYmin))
    (o.(boundYmax)) (o.(pointerId)) (o.(decVelX)) (o.(decVelY)).

Definition set_boundXmax (v : option num) (o : Options) : Options :=
  mkOptions (o.(bounce)) (o.(friction)) (o.(multiplier)) (o.(onDownHook))
    (o.(onUpHook)) (o.(stopThreshold)) (o.(targetX)) (o.(targetY)) (o.(paused))
    (o.(ticking)) (o.(decelerating)) (o.(pointerActive))
    (o.(trackingPoints)) (o.(pointerCurrentX)) (o.(pointerCurrentY))
    (o.(pointerLastX)) (o.(pointerLastY)) (o.(boundXmin)) v (o.(boundYmin))
    (o.(boundYmax)) (o.(pointerId)) (o.(decVelX)) (o.(decVelY)).

Definition set_boundYmin (v : option num) (o : Options) : Options :=
  mkOptions (o.(bounce)) (o.(friction)) (o.(multiplier)) (o.(onDownHook))
    (o.(onUpHook)) (o.(stopThreshold)) (o.(targetX)) (o.(targetY)) (o.(paused))
    (o.(ticking)) (o.(decelerating)) (o.(pointerActive))
    (o.(trackingPoints)) (o.(pointerCurrentX)) (o.(pointerCurrentY))
    (o.(pointerLastX)) (o.(pointerLastY)) (o.(boundXmin)) (o.(boundXmax)) v
    (o.(boundYmax)) (o.(pointerId)) (o.(decVelX)) (o.(decVelY)).

Definition set_boundYmax (v : option num) (o : Options) : Options :=
  mkOptions (o.(bounce)) (o.(friction)) (o.(multiplier)) (o.(onDownHook))
    (o.(onUpHook)) (o.(stopThreshold)) (o.(targetX)) (o.(targetY)) (o.(paused))
    (o.(ticking)) (o.(decelerating)) (o.(pointerActive))
    (o.(trackingPoints)) (o.(pointerCurrentX)) (o.(pointerCurrentY))
    (o.(pointerLastX)) (o.(pointerLastY)) (o.(boundXmin)) (o.(boundXmax))
    (o.(boundYmin)) v (o.(pointerId)) (o.(decVelX)) (o.(decVelY)).

Definition set_pointerId (v : option Z) (o : Options) : Options :=
  mkOptions (o.(bounce)) (o.(friction)) (o.(multiplier)) (o.(onDownHook))
    (o.(onUpHook)) (o.(stopThreshold)) (o.(targetX)) (o.(targetY)) (o.(paused))
    (o.(ticking)) (o.(decelerating)) (o.(pointerActive))
    (o.(trackingPoints)) (o.(pointerCurrentX)) (o.(pointerCurrentY))
    (o.(pointerLastX)) (o.(pointerLastY)) (o.(boundXmin)) (o.(boundXmax))
    (o.(boundYmin)) (o.(boundYmax)) v (o.(decVelX)) (o.(decVelY)).

Definition set_decVelX (v : num) (o : Options) : Options :=
  mkOptions (o.(bounce)) (o.(friction)) (o.(multiplier)) (o.(onDownHook))
    (o.(onUpHook)) (o.(stopThreshold)) (o.(targetX)) (o.(targetY)) (o.(paused))
    (o.(ticking)) (o.(decelerating)) (o.(pointerActive))
    (o.(trackingPoints)) (o.(pointerCurrentX)) (o.(pointerCurrentY))
    (o.(pointerLastX)) (o.(pointerLastY)) (o.(boundXmin)) (o.(boundXmax))
    (o.(boundYmin)) (o.(boundYmax)) (o.(pointerId)) v (o.(decVelY)).

Definition set_decVelY (v : num) (o : Options) : Options :=
  mkOptions (o.(bounce)) (o.(friction)) (o.(multiplier)) (o.(onDownHook))
    (o.(onUpHook)) (o.(stopThreshold)) (o.(targetX)) (o.(targetY)) (o.(paused))
    (o.(ticking)) (o.(decelerating)) (o.(pointerActive))
    (o.(trackingPoints)) (o.(pointerCurrentX)) (o.(pointerCurrentY))
    (o.(pointerLastX)) (o.(pointerLastY)) (o.(boundXmin)) (o.(boundXmax))
    (o.(boundYmin)) (o.(boundYmax)) (o.(pointerId)) (o.(decVelX)) v.

(** The functions the engine hands to [requestAnimationFrame]. *)
Inductive Callback : Type :=
| UpdateAndRender
| StepDecelAnim.

(** A request id of [requestAnimationFrame]: a non-zero integer, so a
    stored handle is always truthy. *)
Definition handle : Type := positive.

(** An invocation of one of the user's callbacks; [Update] carries the
    options object as it is when [updateCallback] receives it. *)
Inductive Call : Type :=
| Update (snapshot : Options)
| DownHook
| UpHook.

(** An instance together with its environment: the fields of [this]
    ([options], [stepDecelRaf], [tickRaf], [sourceEl], which is [false]
    once it is [null]), the animation frames requested and not yet run or
    cancelled (oldest first), the listeners attached (on the source
    element, on [window] for the wheel, on [document] for move, up and
    cancel) and the callbacks invoked so far (newest first). *)
Record Engine : Type := mkEngine {
  options : Options;
  stepDecelRaf : option handle;
  tickRaf : option handle;
  sourceEl : bool;
  frames : list (handle * Callback);
  nextHandle : handle;
  sourceListening : bool;
  wheelListening : bool;
  documentListening : bool;
  calls : list Call
}.

Definition set_options (v : Options) (e : Engine) : Engine :=
  mkEngine v (e.(stepDecelRaf)) (e.(tickRaf)) (e.(sourceEl)) (e.(frames))
    (e.(nextHandle)) (e.(sourceListening)) (e.(wheelListening))
    (e.(documentListening)) (e.(calls)).

Definition set_stepDecelRaf (v : option handle) (e : Engine) : Engine :=
  mkEngine (e.(options)) v (e.(tickRaf)) (e.(sourceEl)) (e.(frames))
    (e.(nextHandle)) (e.(sourceListening)) (e.(wheelListening))
    (e.(documentListening)) (e.(calls)).

Definition set_tickRaf (v : option handle) (e : Engine) : Engine :=
  mkEngine (e.(options)) (e.(stepDecelRaf)) v (e.(sourceEl)) (e.(frames))
    (e.(nextHandle)) (e.(sourceListening)) (e.(wheelListening))
    (e.(documentListening)) (e.(calls)).

Definition set_sourceEl (v : bool) (e : Engine) : Engine :=
  mkEngine (e.(options)) (e.(stepDecelRaf)) (e.(tickRaf)) v (e.(frames))
    (e.(nextHandle)) (e.(sourceListening)) (e.(wheelListening))
    (e.(documentListening)) (e.(calls)).

Definition set_frames (v : list (handle * Callback)) (e : Engine) : Engine :=
  mkEngine (e.(options)) (e.(stepDecelRaf)) (e.(tickRaf)) (e.(sourceEl)) v
    (e.(nextHandle)) (e.(sourceListening)) (e.(wheelListening))
    (e.(documentListening)) (e.(calls)).

Definition set_nextHandle (v : handle) (e : Engine) : Engine :=
  mkEngine (e.(options)) (e.(stepDecelRaf)) (e.(tickRaf)) (e.(sourceEl))
    (e.(frames)) v (e.(sourceListening)) (e.(wheelListening))
    (e.(documentListening)) (e.(calls)).

Definition set_sourceListening (v : bool) (e : Engine) : Engine :=
  mkEngine (e.(options)) (e.(stepDecelRaf)) (e.(tickRaf)) (e.(sourceEl))
    (e.(frames)) (e.(nextHandle)) v (e.(wheelListening))
    (e.(documentListening)) (e.(calls)).

Definition set_wheelListening (v : bool) (e : Engine) : Engine :=
  mkEngine (e.(options)) (e.(stepDecelRaf)) (e.(tickRaf)) (e.(sourceEl))
    (e.(frames)) (e.(nextHandle)) (e.(sourceListening)) v
    (e.(documentListening)) (e.(calls)).

Definition set_documentListening (v : bool) (e : Engine) : Engine :=
  mkEngine (e.(options)) (e.(stepDecelRaf)) (e.(tickRaf)) (e.(sourceEl))
    (e.(frames)) (e.(nextHandle)) (e.(sourceListening)) (e.(wheelListening))
    v (e.(calls)).

Definition set_calls (v : list Call) (e : Engine) : Engine :=
  mkEngine (e.(options)) (e.(stepDecelRaf)) (e.(tickRaf)) (e.(sourceEl))
    (e.(frames)) (e.(nextHandle)) (e.(sourceListening)) (e.(wheelListening))
    (e.(documentListening)) v.

(* ================================================================= *)
(** ** The environment: animation frames and callbacks *)

Definition with_options (f : Options -> Options) (e : Engine) : Engine :=
  set_options (f (e.(options))) e.

(** [requestAnimationFrame(cb)]: queues [cb] and returns a fresh id. *)
Definition requestAnimationFrame (cb : Callback) (e : Engine)
  : handle * Engine :=
  let h := e.(nextHandle) in
  (h, mkEngine (e.(options)) (e.(stepDecelRaf)) (e.(tickRaf)) (e.(sourceEl))
        (e.(frames) ++ [(h, cb)]) (Pos.succ h) (e.(sourceListening))
        (e.(wheelListening)) (e.(documentListening)) (e.(calls))).

(** [cancelAnimationFrame(h)]. *)
Definition cancelAnimationFrame (h : handle) (e : Engine) : Engine :=
  set_frames (filter (fun f => negb (Pos.eqb (fst f) h)) (e.(frames))) e.

(** [callUpdateCallback]: [this.updateCallback(this.options)]. *)
Definition callUpdateCallback (e : Engine) : Engine :=
  set_calls (Update (e.(options)) :: e.(calls)) e.

Definition callHook (present : bool) (c : Call) (e : Engine) : Engine :=
  if present then set_calls (c :: e.(calls)) e else e.

(* ================================================================= *)
(** ** The engine *)

Definition normalizeEvent (ev : Ev.Raw) : Ev.Norm :=
  if ev.(Ev.isTouch)
  then Ev.mkNorm (ev.(Ev.clientX)) (ev.(Ev.clientY)) (Some (ev.(Ev.identifier)))
  else Ev.mkNorm (ev.(Ev.clientX)) (ev.(Ev.clientY)) None.

Definition dragOutOfBoundsMultiplier (val : num) : num :=
  (Fin 0.000005 * pow val 2) + (Fin 0.0001 * val) + Fin 0.55.

(** [b != null]. *)
Definition notNull (b : option num) : bool :=
  match b with
  | Some _ => true
  | None => false
  end.

(** The overflow of one axis, as [checkBounds] computes [xDiff] and
    [yDiff] from the bounds and the target of the axis. *)
Definition axisDiff (min max : option num) (target : num) : num :=
  if notNull min && (target <? value_of min) then value_of min - target
  else if notNull max && (target >? value_of max) then value_of max - target
  else Fin 0.

Definition checkBounds (restrict : bool) (e : Engine) : Diff.t * Engine :=
  let o := e.(options) in
  let xDiff := axisDiff (o.(boundXmin)) (o.(boundXmax)) (o.(targetX)) in
  let yDiff := axisDiff (o.(boundYmin)) (o.(boundYmax)) (o.(targetY)) in
  let e :=
    if restrict then
      let e :=
        if xDiff !== Fin 0
        then with_options
               (set_targetX (value_of (if xDiff >? Fin 0 then o.(boundXmin)
                                       else o.(boundXmax)))) e
        else e in
      if yDiff !== Fin 0
      then with_options
             (set_targetY (value_of (if yDiff >? Fin 0 then o.(boundYmin)
                                     else o.(boundYmax)))) e
      else e
    else e in
  (Diff.mk xDiff yDiff ((xDiff === Fin 0) && (yDiff === Fin 0)), e).

(** The [while] loop of [addTrackingPoint]: shifts the points older than
    100 ms off the front. *)
Fixpoint dropExpired (time : num) (points : list Point.t) : list Point.t :=
  match points with
  | [] => []
  | p :: rest =>
      if (time - p.(Point.time)) <=? Fin 100 then points
      else dropExpired time rest
  end.

(** [addTrackingPoint(x, y)], with [now] the value of [Date.now()]. *)
Definition addTrackingPoint (now x y : num) (e : Engine) : Engine :=
  with_options
    (fun o => set_trackingPoints
                (dropExpired now (o.(trackingPoints)) ++ [Point.mk x y now]) o)
    e.

Definition requestTick (e : Engine) : Engine :=
  let e :=
    if negb (e.(options).(ticking))
    then let (h, e) := requestAnimationFrame UpdateAndRender e in
         set_tickRaf (Some h) e
    else e in
  with_options (set_ticking true) e.

(** The bounce adjustment of one axis in [stepDecelAnim]. *)
Definition bounceVel (diff vel : num) : num :=
  let reboundAdjust := Fin 2.5 in
  if diff !== Fin 0 then
    if (diff * vel) <=? Fin 0 then vel + diff * BOUNCE_DECELERATION
    else
      let adjust := if diff >? Fin 0 then reboundAdjust else neg reboundAdjust in
      (diff + adjust) * BOUNCE_ACCELERATION
  else vel.

Definition stepDecelAnim (e : Engine) : Engine :=
  let e := set_stepDecelRaf None e in
  let o := e.(options) in
  let bounce := o.(bounce) in
  let friction := o.(friction) in
  let stopThreshold := o.(stopThreshold) in
  if negb (o.(decelerating)) then e
  else
    let e := with_options (fun o => set_decVelX (o.(decVelX) * friction) o) e in
    let e := with_options (fun o => set_decVelY (o.(decVelY) * friction) o) e in
    let e := with_options (fun o => set_targetX (o.(targetX) + o.(decVelX)) o) e in
    let e := with_options (fun o => set_targetY (o.(targetY) + o.(decVelY)) o) e in
    let (diff, e) := checkBounds false e in
    if (abs (e.(options).(decVelX)) <=? stopThreshold)
       && (abs (e.(options).(decVelY)) <=? stopThreshold)
       && diff.(Diff.inBounds)
    then with_options (set_decelerating false) e
    else
      let e :=
        if bounce then
          let e := with_options
                     (fun o => set_decVelX
                                 (bounceVel (diff.(Diff.x)) (o.(decVelX))) o) e in
          with_options
            (fun o => set_decVelY (bounceVel (diff.(Diff.y)) (o.(decVelY))) o) e
        else
          let e :=
            if diff.(Diff.x) !== Fin 0 then
              let e :=
                if diff.(Diff.x) >? Fin 0
                then with_options
                       (fun o => set_targetX (value_of (o.(boundXmin))) o) e
                else with_options
                       (fun o => set_targetX (value_of (o.(boundXmax))) o) e in
              with_options (set_decVelX (Fin 0)) e
            else e in
          if diff.(Diff.y) !== Fin 0 then
            let e :=
              if diff.(Diff.y) >? Fin 0
              then with_options
                     (fun o => set_targetY (value_of (o.(boundYmin))) o) e
              else with_options
                     (fun o => set_targetY (value_of (o.(boundYmax))) o) e in
            with_options (set_decVelY (Fin 0)) e
          else e in
      let e := callUpdateCallback e in
      let (h, e) := requestAnimationFrame StepDecelAnim e in
      set_stepDecelRaf (Some h) e.

Definition startDecelAnim (e : Engine) : Engine :=
  let o := e.(options) in
  let multiplier := o.(multiplier) in
  match o.(trackingPoints) with
  | [] => e (* never the case: [stopTracking] pushes a point first *)
  | firstPoint :: _ =>
      let lastPoint := last (o.(trackingPoints)) firstPoint in
      let xOffset := lastPoint.(Point.x) - firstPoint.(Point.x) in
      let yOffset := lastPoint.(Point.y) - firstPoint.(Point.y) in
      let timeOffset := lastPoint.(Point.time) - firstPoint.(Point.time) in
      let D := (timeOffset / Fin 15) / multiplier in
      let e := with_options (set_decVelX ((xOffset / D) ||| Fin 0)) e in
      let e := with_options (set_decVelY ((yOffset / D) ||| Fin 0)) e in
      let (diff, e) := checkBounds false e in
      if (abs (e.(options).(decVelX)) >? Fin 1)
         || (abs (e.(options).(decVelY)) >? Fin 1)
         || negb (diff.(Diff.inBounds))
      then
        let e := with_options (set_decelerating true) e in
        let (h, e) := requestAnimationFrame StepDecelAnim e in
        set_stepDecelRaf (Some h) e
      else e
  end.

Definition updateAndRender (e : Engine) : Engine :=
  let e := set_tickRaf None e in
  let o := e.(options) in
  let bounce := o.(bounce) in
  let multiplier := o.(multiplier) in
  let pointerCurrentX := o.(pointerCurrentX) in
  let pointerCurrentY := o.(pointerCurrentY) in
  let pointerChangeX := pointerCurrentX - o.(pointerLastX) in
  let pointerChangeY := pointerCurrentY - o.(pointerLastY) in
  let e := with_options
             (fun o => set_targetX (o.(targetX) + pointerChangeX * multiplier) o)
             e in
  let e := with_options
             (fun o => set_targetY (o.(targetY) + pointerChangeY * multiplier) o)
             e in
  let e :=
    if bounce then
      let (diff, e) := checkBounds false e in
      let e :=
        if diff.(Diff.x) !== Fin 0
        then with_options
               (fun o => set_targetX
                           (o.(targetX)
                            - pointerChangeX
                              * dragOutOfBoundsMultiplier (diff.(Diff.x))
                              * multiplier) o) e
        else e in
      if diff.(Diff.y) !== Fin 0
      then with_options
             (fun o => set_targetY
                         (o.(targetY)
                          - pointerChangeY
                            * dragOutOfBoundsMultiplier (diff.(Diff.y))
                            * multiplier) o) e
      else e
    else snd (checkBounds true e) in
  let e := callUpdateCallback e in
  let e := with_options (set_pointerLastX pointerCurrentX) e in
  let e := with_options (set_pointerLastY pointerCurrentY) e in
  with_options (set_ticking false) e.

Definition onWheel (deltaX deltaY : num) (e : Engine) : Engine :=
  let e := with_options (fun o => set_targetX (o.(targetX) - deltaX / Fin 3) o) e in
  let e := with_options (fun o => set_targetY (o.(targetY) - deltaY / Fin 3) o) e in
  let e := with_options (set_decelerating true) e in
  let e := callUpdateCallback e in
  with_options (set_decelerating false) e.

(** [event.id === this.options.pointerId]. *)
Definition sameId (a b : option Z) : bool :=
  match a, b with
  | Some i, Some j => Z.eqb i j
  | None, None => true
  | _, _ => false
  end.

(** [onMove].  The normalized event has no [deltaX] or [deltaY], so the
    first branch adds [undefined] to the coordinates. *)
Definition onMove (now : num) (ev : Ev.Raw) (e : Engine) : Engine :=
  let event := normalizeEvent ev in
  if e.(options).(pointerActive)
     && sameId (event.(Ev.id)) (e.(options).(pointerId))
  then
    let e :=
      if notNull (ev.(Ev.deltaX)) then
        let e := with_options
                   (set_pointerCurrentX (event.(Ev.x) + undefined)) e in
        with_options (set_pointerCurrentY (event.(Ev.y) + undefined)) e
      else
        let e := with_options (set_pointerCurrentX (event.(Ev.x))) e in
        with_options (set_pointerCurrentY (event.(Ev.y))) e in
    let e := addTrackingPoint now (e.(options).(pointerLastX))
               (e.(options).(pointerLastY)) e in
    requestTick e
  else e.

Definition onDown (now : num) (ev : Ev.Raw) (e : Engine) : Engine :=
  let event := normalizeEvent ev in
  if negb (e.(options).(pointerActive)) && negb (e.(options).(paused))
  then
    let e := callHook (e.(options).(onDownHook)) DownHook e in
    let e := with_options (set_pointerActive true) e in
    let e := with_options (set_decelerating false) e in
    let e := with_options (set_pointerId (event.(Ev.id))) e in
    let e := with_options (set_pointerCurrentX (event.(Ev.x))) e in
    let e := with_options (set_pointerCurrentY (event.(Ev.y))) e in
    let e := with_options (set_pointerLastX (event.(Ev.x))) e in
    let e := with_options (set_pointerLastY (event.(Ev.y))) e in
    let e := with_options (set_trackingPoints []) e in
    let e := addTrackingPoint now (e.(options).(pointerLastX))
               (e.(options).(pointerLastY)) e in
    set_documentListening true e
  else e.

Definition removeEventListeners (e : Engine) : Engine :=
  set_documentListening false e.

Definition stopTracking (now : num) (e : Engine) : Engine :=
  let e := with_options (set_pointerActive false) e in
  let e := addTrackingPoint now (e.(options).(pointerLastX))
             (e.(options).(pointerLastY)) e in
  let e := startDecelAnim e in
  removeEventListeners e.

Definition onUp (now : num) (ev : Ev.Raw) (e : Engine) : Engine :=
  let event := normalizeEvent ev in
  if e.(options).(pointerActive)
     && sameId (event.(Ev.id)) (e.(options).(pointerId))
  then
    let e := callHook (e.(options).(onUpHook)) UpHook e in
    stopTracking now e
  else e.

(** [destroy].  A second call finds [sourceEl] null and throws after the
    wheel listener is removed. *)
Definition destroy (e : Engine) : Engine :=
  let e := set_wheelListening false e in
  if e.(sourceEl)
  then set_sourceEl false (set_sourceListening false e)
  else e.

Definition pause (e : Engine) : Engine :=
  let e := with_options (set_pointerActive false) e in
  with_options (set_paused true) e.

Definition resume (e : Engine) : Engine :=
  with_options (set_paused false) e.

(** [setValue(x, y)]; an argument is [Some v] when [typeof] it is
    ['number']. *)
Definition setValue (x y : option num) (e : Engine) : Engine :=
  let e := match x with
           | Some v => with_options (set_targetX v) e
           | None => e
           end in
  match y with
  | Some v => with_options (set_targetY v) e
  | None => e
  end.

Definition setMultiplier (val : num) (e : Engine) : Engine :=
  let e := with_options (set_multiplier val) e in
  with_options
    (fun o => set_stopThreshold (STOP_THRESHOLD_DEFAULT * o.(multiplier)) o) e.

Definition setBoundX (boundXmin boundXmax : option num) (e : Engine) : Engine :=
  let e := with_options (set_boundXmin boundXmin) e in
  with_options (set_boundXmax boundXmax) e.

Definition setBoundY (boundYmin boundYmax : option num) (e : Engine) : Engine :=
  let e := with_options (set_boundYmin boundYmin) e in
  with_options (set_boundYmax boundYmax) e.

Definition cancel (e : Engine) : Engine :=
  let e := with_options (set_decelerating false) e in
  let e := with_options (set_pointerActive false) e in
  let e := with_options (set_ticking false) e in
  let e := with_options (set_decVelX (Fin 0)) e in
  let e := with_options (set_decVelY (Fin 0)) e in
  let e := removeEventListeners e in
  let e := match e.(stepDecelRaf) with
           | Some h => set_stepDecelRaf None (cancelAnimationFrame h e)
           | None => e
           end in
  match e.(tickRaf) with
  | Some h => set_tickRaf None (cancelAnimationFrame h e)
  | None => e
  end.

(* ================================================================= *)
(** ** Construction *)

(** The argument of the constructor.  [source] tells whether the source
    element resolves, [update], [onDown] and [onUp] whether the callback
    is supplied; an omitted option is [None]. *)
Module Config.
Record t : Type := mk {
  source : bool;
  update : bool;
  multiplier : option num;
  friction : option num;
  bounce : option bool;
  boundX : option (option num * option num);
  boundY : option (option num * option num);
  initialValues : option (option num * option num);
  onDown : bool;
  onUp : bool
}.
End Config.

Definition default {A : Type} (d : A) (v : option A) : A :=
  match v with
  | Some a => a
  | None => d
  end.

(** [if (v)] on an element of [initialValues]. *)
Definition truthyArg (v : option num) : bool :=
  match v with
  | Some a => truthy a
  | None => false
  end.

(** [new Impetus(cfg)]: [None] when the constructor throws. *)
Definition construct (cfg : Config.t) : option Engine :=
  let multiplier := default (Fin 1) (cfg.(Config.multiplier)) in
  let friction := default (Fin 0.92) (cfg.(Config.friction)) in
  let bounce := default true (cfg.(Config.bounce)) in
  let o := mkOptions bounce friction multiplier (cfg.(Config.onDown))
             (cfg.(Config.onUp)) (STOP_THRESHOLD_DEFAULT * multiplier)
             (Fin 0) (Fin 0) false false false false []
             (Fin 0) (Fin 0) (Fin 0) (Fin 0) None None None None None
             (Fin 0) (Fin 0) in
  let e := mkEngine o None None (cfg.(Config.source)) [] 1%positive
             false false false [] in
  if negb (cfg.(Config.source)) then None
  else if negb (cfg.(Config.update)) then None
  else
    let e :=
      match cfg.(Config.initialValues) with
      | Some (targetX, targetY) =>
          let e := if truthyArg targetX
                   then with_options (set_targetX (value_of targetX)) e
                   else e in
          let e := if truthyArg targetY
                   then with_options (set_targetY (value_of targetY)) e
                   else e in
          callUpdateCallback e
      | None => e
      end in
    let e :=
      match cfg.(Config.boundX) with
      | Some (boundXmin, boundXmax) => setBoundX boundXmin boundXmax e
      | None => e
      end in
    let e :=
      match cfg.(Config.boundY) with
      | Some (boundYmin, boundYmax) => setBoundY boundYmin boundYmax e
      | None => e
      end in
    Some (set_wheelListening true (set_sourceListening true e)).

(* ================================================================= *)
(** ** Running the engine *)

(** What can happen to an instance: a DOM event (delivered only while its
    listener is attached), the browser running the oldest pending
    animation frame, or a call of the public interface.  [now] is the
    clock at that moment. *)
Inductive Input : Type :=
| Down (now : num) (ev : Ev.Raw)
| Move (now : num) (ev : Ev.Raw)
| Up (now : num) (ev : Ev.Raw)
| TouchCancel (now : num)
| Wheel (deltaX deltaY : num)
| Frame
| Pause
| Resume
| Cancel
| Destroy
| SetValue (x y : option num)
| SetMultiplier (val : num)
| SetBoundX (min max : option num)
| SetBoundY (min max : option num).

(** The browser takes the oldest pending frame off the queue and calls
    it. *)
Definition runFrame (e : Engine) : Engine :=
  match e.(frames) with
  | [] => e
  | (_, cb) :: rest =>
      let e := set_frames rest e in
      match cb with
      | UpdateAndRender => updateAndRender e
      | StepDecelAnim => stepDecelAnim e
      end
  end.

Definition step (i : Input) (e : Engine) : Engine :=
  match i with
  | Down now ev => if e.(sourceListening) then onDown now ev e else e
  | Move now ev => if e.(documentListening) then onMove now ev e else e
  | Up now ev => if e.(documentListening) then onUp now ev e else e
  | TouchCancel now => if e.(documentListening) then stopTracking now e else e
  | Wheel deltaX deltaY => if e.(wheelListening) then onWheel deltaX deltaY e else e
  | Frame => runFrame e
  | Pause => pause e
  | Resume => resume e
  | Cancel => cancel e
  | Destroy => destroy e
  | SetValue x y => setValue x y e
  | SetMultiplier val => setMultiplier val e
  | SetBoundX min max => setBoundX min max e
  | SetBoundY min max => setBoundY min max e
  end.

Definition run (inputs : list Input) (e : Engine) : Engine :=
  fold_left (fun e i => step i e) inputs e.

(** [n] animation frames in a row. *)
Fixpoint runFrames (n : nat) (e : Engine) : Engine :=
  match n with
  | O => e
  | S m => runFrames m (runFrame e)
  end.

(* ================================================================= *)
(** ** The bounds evaluation in the words of the specification *)

(** Overflow of an axis: [min - target] if [min] is set and
    [target < min], else [max - target] if [max] is set and
    [target > max], else 0. *)
Definition specOverflow (min max : option num) (target : num) : num :=
  match min, max with
  | Some lo, Some hi =>
      if target <? lo then lo - target
      else if target >? hi then hi - target else Fin 0
  | Some lo, None => if target <? lo then lo - target else Fin 0
  | None, Some hi => if target >? hi then hi - target else Fin 0
  | None, None => Fin 0
  end.

(** The target of an axis after the evaluation: rewritten only when
    restricting, to [min] for a positive overflow and to [max] for a
    negative one. *)
Inductive specTarget (restrict : bool) (min max : option num)
  (overflow target : num) : num -> Prop :=
| specTarget_min lo :
    restrict = true -> (overflow >? Fin 0) = true -> min = Some lo ->
    specTarget restrict min max overflow target lo
| specTarget_max hi :
    restrict = true -> (overflow <? Fin 0) = true -> max = Some hi ->
    specTarget restrict min max overflow target hi
| specTarget_in :
    restrict = true -> (overflow === Fin 0) = true ->
    specTarget restrict min max overflow target target
| specTarget_keep :
    restrict = false ->
    specTarget restrict min max overflow target target.

(* ================================================================= *)
(** ** Predicates of the claims *)

(** The target of an axis lies within [[min, max]] when both are set. *)
Definition within (min max : option num) (target : num) : bool :=
  match min, max with
  | Some lo, Some hi => (lo <=? target) && (target <=? hi)
  | _, _ => true
  end.

(** The bounds of an axis form an interval when both are set. *)
Definition ordered (min max : option num) : bool :=
  match min, max with
  | Some lo, Some hi => lo <=? hi
  | _, _ => true
  end.

Definition targetWithin (e : Engine) : bool :=
  let o := e.(options) in
  within (o.(boundXmin)) (o.(boundXmax)) (o.(targetX))
  && within (o.(boundYmin)) (o.(boundYmax)) (o.(targetY)).

(** [decelerating] and [pointerActive] are not both set. *)
Definition flagsExclusive (e : Engine) : bool :=
  negb (e.(options).(decelerating) && e.(options).(pointerActive)).

(** The velocity after [n] applications of [v *= friction]. *)
Fixpoint decay (friction v : num) (n : nat) : num :=
  match n with
  | O => v
  | S m => decay friction (v * friction) m
  end.

(** The state [stepDecelAnim] evaluates the bounds on: friction applied
    to the velocities, then the velocities added to the target. *)
Definition integrate (o : Options) : Options :=
  let o := set_decVelX (o.(decVelX) * o.(friction)) o in
  let o := set_decVelY (o.(decVelY) * o.(friction)) o in
  let o := set_targetX (o.(targetX) + o.(decVelX)) o in
  set_targetY (o.(targetY) + o.(decVelY)) o.

Definition overflowX (o : Options) : num :=
  axisDiff (o.(boundXmin)) (o.(boundXmax)) (o.(targetX)).

Definition overflowY (o : Options) : num :=
  axisDiff (o.(boundYmin)) (o.(boundYmax)) (o.(targetY)).

(** The stop condition of the step that starts from [o]. *)
Definition stopCondition (o : Options) : bool :=
  let o' := integrate o in
  (abs (o'.(decVelX)) <=? o.(stopThreshold))
  && (abs (o'.(decVelY)) <=? o.(stopThreshold))
  && ((overflowX o' === Fin 0) && (overflowY o' === Fin 0)).

(** The target is in bounds when the next step evaluates them. *)
Definition inBoundsNext (e : Engine) : bool :=
  let o' := integrate (e.(options)) in
  (overflowX o' === Fin 0) && (overflowY o' === Fin 0).

(** Every pending frame is held by the slot of its callback. *)
Definition slotHolds (e : Engine) (f : handle * Callback) : bool :=
  match snd f with
  | StepDecelAnim =>
      match e.(stepDecelRaf) with
      | Some h => Pos.eqb (fst f) h
      | None => false
      end
  | UpdateAndRender =>
      match e.(tickRaf) with
      | Some h => Pos.eqb (fst f) h
      | None => false
      end
  end.

Definition framesTracked (e : Engine) : bool :=
  forallb (slotHolds e) (e.(frames)).

(** The options after a step that does not stop: the velocities
    corrected by the bounce, or the axes that overflow put on their bound
    with no velocity. *)
Definition adjust (o : Options) : Options :=
  let dx := overflowX o in
  let dy := overflowY o in
  if o.(bounce) then
    set_decVelY (bounceVel dy (o.(decVelY)))
      (set_decVelX (bounceVel dx (o.(decVelX))) o)
  else
    let o :=
      if dx !== Fin 0
      then set_decVelX (Fin 0)
             (set_targetX (value_of (if dx >? Fin 0 then o.(boundXmin)
                                     else o.(boundXmax))) o)
      else o in
    if dy !== Fin 0
    then set_decVelY (Fin 0)
           (set_targetY (value_of (if dy >? Fin 0 then o.(boundYmin)
                                   else o.(boundYmax))) o)
    else o.

(** The numbers a drag update or a deceleration step computes with are
    finite. *)
Definition finiteState (o : Options) : Prop :=
  is_finite (o.(targetX)) /\ is_finite (o.(targetY))
  /\ is_finite (o.(decVelX)) /\ is_finite (o.(decVelY))
  /\ is_finite (o.(friction)) /\ is_finite (o.(multiplier))
  /\ is_finite (o.(pointerCurrentX)) /\ is_finite (o.(pointerCurrentY))
  /\ is_finite (o.(pointerLastX)) /\ is_finite (o.(pointerLastY)).

(** The target of an axis after a hard clamp on the overflow [d]. *)
Definition clamped (min max : option num) (d target : num) : num :=
  if d !== Fin 0 then value_of (if d >? Fin 0 then min else max) else target.

(** [decay] on rationals. *)
Fixpoint Qdecay (f v : Q) (n : nat) : Q :=
  match n with
  | O => v
  | S m => Qdecay f (v * f)%Q m
  end.

(** No bound is configured. *)
Definition unbounded (o : Options) : Prop :=
  o.(boundXmin) = None /\ o.(boundXmax) = None
  /\ o.(boundYmin) = None /\ o.(boundYmax) = None.

(** The deceleration loop is running: the phase is on and its next step
    is the one pending frame. *)
Definition looping (e : Engine) : Prop :=
  e.(options).(decelerating) = true
  /\ exists h, e.(frames) = [(h, StepDecelAnim)].

(** An infinite velocity with no bounds around. *)
Definition infiniteVelocity (o : Options) : Prop :=
  o.(decVelX) = PInf
  /\ (exists f, o.(friction) = Fin f /\ (0 < f)%Q)
  /\ is_finite (o.(stopThreshold))
  /\ unbounded o.

(** A negative stop threshold with no bounds around. *)
Definition negativeThreshold (o : Options) : Prop :=
  (exists thr, o.(stopThreshold) = Fin thr /\ (thr < 0)%Q)
  /\ unbounded o.

(** The times of the points do not decrease along the list. *)
Fixpoint sortedTimes (points : list Point.t) : bool :=
  match points with
  | [] => true
  | p :: rest =>
      forallb (fun q => p.(Point.time) <=? q.(Point.time)) rest
      && sortedTimes rest
  end.

(** No point is later than [now]. *)
Definition upTo (now : num) (points : list Point.t) : bool :=
  forallb (fun p => p.(Point.time) <=? now) points.

(** Every point is at most 100 ms older than [now]. *)
Definition recent (now : num) (points : list Point.t) : bool :=
  forallb (fun p => (now - p.(Point.time)) <=? Fin 100) points.

(** The frame is a drag update. *)
Definition isTick (f : handle * Callback) : bool :=
  match snd f with
  | UpdateAndRender => true
  | StepDecelAnim => false
  end.

(** The drag-update slot tells the truth: a pending [updateAndRender]
    frame is the one [tickRaf] holds, with [ticking] set; the handles of
    the pending frames are distinct and were all given out already. *)
Definition tickTracked (e : Engine) : Prop :=
  (forall h, In (h, UpdateAndRender) (e.(frames)) ->
             e.(tickRaf) = Some h /\ e.(options).(ticking) = true)
  /\ (forall f, In f (e.(frames)) -> (fst f < e.(nextHandle))%positive)
  /\ NoDup (map fst (e.(frames))).

(** Nothing is left to run but steps of a deceleration that is off. *)
Definition quiet (e : Engine) : Prop :=
  e.(options).(decelerating) = false
  /\ forallb (fun f => negb (isTick f)) (e.(frames)) = true.

(** What the functions do to the queue, the next handle, [tickRaf] and
    [ticking]. *)
Definition sameSchedule (e e' : Engine) : Prop :=
  e'.(frames) = e.(frames) /\ e'.(nextHandle) = e.(nextHandle)
  /\ e'.(tickRaf) = e.(tickRaf)
  /\ e'.(options).(ticking) = e.(options).(ticking).

Definition pushedDecel (e e' : Engine) : Prop :=
  e'.(frames) = e.(frames) ++ [(e.(nextHandle), StepDecelAnim)]
  /\ e'.(nextHandle) = Pos.succ (e.(nextHandle))
  /\ e'.(tickRaf) = e.(tickRaf)
  /\ e'.(options).(ticking) = e.(options).(ticking).

Definition pushedTick (e e' : Engine) : Prop :=
  e.(options).(ticking) = false
  /\ e'.(frames) = e.(frames) ++ [(e.(nextHandle), UpdateAndRender)]
  /\ e'.(nextHandle) = Pos.succ (e.(nextHandle))
  /\ e'.(tickRaf) = Some (e.(nextHandle))
  /\ e'.(options).(ticking) = true.

(** What the constructor fixes: [bounce], [friction] and the two hooks;
    and the pair of [multiplier] and [stopThreshold]. *)
Definition fixedOf (o : Options) : bool * num * bool * bool :=
  (o.(bounce), o.(friction), o.(onDownHook), o.(onUpHook)).

Definition scaleOf (o : Options) : num * num :=
  (o.(multiplier), o.(stopThreshold)).

(** An axis has come to rest inside its bounds: no velocity and no
    overflow. *)
Definition settled (min max : option num) (target vel : num) : Prop :=
  (exists q, vel = Fin q /\ (q == 0)%Q) /\ axisDiff min max target = Fin 0.

(** A deceleration loop in clamp mode whose velocities are the rationals
    [vx] and [vy]. *)
Definition clampLoop (f thr vx vy : Q) (e : Engine) : Prop :=
  looping e
  /\ e.(options).(bounce) = false
  /\ e.(options).(friction) = Fin f
  /\ e.(options).(stopThreshold) = Fin thr
  /\ e.(options).(decVelX) = Fin vx
  /\ e.(options).(decVelY) = Fin vy
  /\ ordered (e.(options).(boundXmin)) (e.(options).(boundXmax)) = true
  /\ ordered (e.(options).(boundYmin)) (e.(options).(boundYmax)) = true.

Definition settledX (o : Options) : Prop :=
  settled (o.(boundXmin)) (o.(boundXmax)) (o.(targetX)) (o.(decVelX)).

Definition settledY (o : Options) : Prop :=
  settled (o.(boundYmin)) (o.(boundYmax)) (o.(targetY)) (o.(decVelY)).

(** [a] is a finite number. *)
Definition isFin (a : num) : bool :=
  match a with
  | Fin _ => true
  | _ => false
  end.

(** An input of a drag in progress: a pointer move at finite coordinates
    with no [deltaX], or an animation frame. *)
Definition dragInput (i : Input) : bool :=
  match i with
  | Move _ ev =>
      isFin (ev.(Ev.clientX)) && isFin (ev.(Ev.clientY))
      && negb (notNull (ev.(Ev.deltaX)))
  | Frame => true
  | _ => false
  end.

(** A state in which only drag updates are pending and no bound is set,
    with a finite multiplier [m], finite target and pointer positions,
    and [target - pointerLast * m] equal to [kx] and [ky] on the axes. *)
Definition dragState (m kx ky : Q) (e : Engine) : Prop :=
  forallb isTick (e.(frames)) = true
  /\ unbounded (e.(options))
  /\ e.(options).(multiplier) = Fin m
  /\ isFin (e.(options).(pointerCurrentX)) = true
  /\ isFin (e.(options).(pointerCurrentY)) = true
  /\ (exists tx lx, e.(options).(targetX) = Fin tx
                    /\ e.(options).(pointerLastX) = Fin lx
                    /\ (tx - lx * m == kx)%Q)
  /\ (exists ty ly, e.(options).(targetY) = Fin ty
                    /\ e.(options).(pointerLastY) = Fin ly
                    /\ (ty - ly * m == ky)%Q).

(* ================================================================= *)
(** ** The drag resistance on binary64 numbers *)

(** [dragOutOfBoundsMultiplier] is a pure function of one number.  Here
    it is on the binary64 numbers of the kernel, with the rounding of
    every operation: the decimal literals are the nearest binary64
    numbers, as in JavaScript, and [Math.pow(val, 2)] is the rounded
    square. *)
Module Binary64.

Import PrimFloat.
#[local] Set Warnings "-inexact-float".
#[local] Open Scope float_scope.

(** [a ** n] for a literal exponent. *)
Fixpoint pow (a : float) (n : nat) : float :=
  match n with
  | O => 1
  | S O => a
  | S m => a * pow a m
  end.

Definition dragOutOfBoundsMultiplier (val : float) : float :=
  (0.000005 * pow val 2) + (0.0001 * val) + 0.55.

End Binary64.

(* ================================================================= *)
(** ** Sample configurations and runs *)

(** A mouse event at [(x, y)]. *)
Definition mouseAt (x y : Q) : Ev.Raw :=
  Ev.mkRaw false (Fin x) (Fin y) 0 None.

(** [new Impetus({ update })]. *)
Definition defaults : Config.t :=
  Config.mk true true None None None None None None false false.

(** [new Impetus({ update, bounce: false, boundX: [0, 100] })]. *)
Definition clampConfig : Config.t :=
  Config.mk true true None None (Some false)
    (Some (Some (Fin 0), Some (Fin 100))) None None false false.

(** [new Impetus({ update, bounce: false, boundX: [10, 0] })]. *)
Definition reversedConfig : Config.t :=
  Config.mk true true None None (Some false)
    (Some (Some (Fin 10), Some (Fin 0))) None None false false.

(** [new Impetus({ update, multiplier: -1 })]. *)
Definition invertedConfig : Config.t :=
  Config.mk true true (Some (Fin (-1))) None None None None None false false.

(** [new Impetus({ update, boundX: [0, 100] })]. *)
Definition bounceConfig : Config.t :=
  Config.mk true true None None None
    (Some (Some (Fin 0), Some (Fin 100))) None None false false.

(** The instance of a configuration the constructor accepts. *)
Definition blank : Engine :=
  mkEngine
    (mkOptions true (Fin 0) (Fin 0) false false (Fin 0) (Fin 0) (Fin 0) false
       false false false [] (Fin 0) (Fin 0) (Fin 0) (Fin 0) None None None
       None None (Fin 0) (Fin 0))
    None None false [] 1%positive false false false [].

Definition instance (cfg : Config.t) : Engine :=
  default blank (construct cfg).

(** Press at the origin, drag to [(x, 0)], let the frame render, release
    at time [t]. *)
Definition flick (x t : Q) : list Input :=
  [Down (Fin 0) (mouseAt 0 0); Move (Fin 0) (mouseAt x 0); Frame;
   Up (Fin t) (mouseAt x 0)].

(* ================================================================= *)
(** ** Facts about numbers *)

Lemma Qltb_iff (a b : Q) : Qltb a b = true <-> (a < b)%Q.
Proof.
  unfold Qltb. rewrite negb_true_iff.
  split; intro H.
  - apply Qnot_le_lt. intro L. apply Qle_bool_iff in L. congruence.
  - destruct (Qle_bool b a) eqn:E; [|reflexivity].
    apply Qle_bool_iff in E. exfalso. apply (Qlt_not_le _ _ H E).
Qed.

Lemma Qltb_false (a b : Q) : Qltb a b = false <-> (b <= a)%Q.
Proof.
  unfold Qltb. rewrite negb_false_iff. apply Qle_bool_iff.
Qed.

Lemma Qle_bool_false (a b : Q) : Qle_bool a b = false <-> (b < a)%Q.
Proof.
  rewrite <- Qltb_iff. unfold Qltb.
  destruct (Qle_bool a b); simpl; intuition congruence.
Qed.

Lemma Qzero_iff (a : Q) : Qzero a = true <-> (a == 0)%Q.
Proof. unfold Qzero. apply Qeq_bool_iff. Qed.

Lemma Qzero_false (a : Q) : Qzero a = false <-> ~ (a == 0)%Q.
Proof.
  unfold Qzero. split; intro H.
  - apply Qeq_bool_neq; assumption.
  - destruct (Qeq_bool a 0) eqn:E; [|reflexivity].
    apply Qeq_bool_iff in E. contradiction.
Qed.

(** Boolean tests on rationals turned into propositions. *)
Ltac qprop :=
  repeat match goal with
  | H : Qltb _ _ = true |- _ => apply Qltb_iff in H
  | H : Qltb _ _ = false |- _ => apply Qltb_false in H
  | H : Qle_bool _ _ = true |- _ => apply Qle_bool_iff in H
  | H : Qle_bool _ _ = false |- _ => apply Qle_bool_false in H
  | H : Qeq_bool _ _ = true |- _ => apply Qeq_bool_iff in H
  | H : Qeq_bool _ _ = false |- _ => apply Qeq_bool_neq in H
  | H : Qzero _ = true |- _ => apply Qzero_iff in H
  | H : Qzero _ = false |- _ => apply Qzero_false in H
  | |- Qltb _ _ = true => apply Qltb_iff
  | |- Qltb _ _ = false => apply Qltb_false
  | |- Qle_bool _ _ = true => apply Qle_bool_iff
  | |- Qle_bool _ _ = false => apply Qle_bool_false
  | |- Qeq_bool _ _ = true => apply Qeq_bool_iff
  | |- Qzero _ = true => apply Qzero_iff
  | |- Qzero _ = false => apply Qzero_false
  end.

Lemma dragOutOfBoundsMultiplier_fin (q : Q) :
  dragOutOfBoundsMultiplier (Fin q)
  = Fin (0.000005 * (q * q) + 0.0001 * q + 0.55)%Q.
Proof. reflexivity. Qed.



Section Rounding.

Import PrimFloat.
#[local] Set Warnings "-inexact-float".


End Rounding.

Lemma lt_sub_pos (a b : num) :
  (a <? b) = true -> (b - a >? Fin 0) = true.
Proof.
  destruct a as [p| | |], b as [q| | |]; simpl; try discriminate;
    try reflexivity.
  unfold gt. simpl. intro H. qprop. lra.
Qed.

Lemma lt_sub_neg (a b : num) :
  (a <? b) = true -> (a - b <? Fin 0) = true.
Proof.
  destruct a as [p| | |], b as [q| | |]; simpl; try discriminate;
    try reflexivity.
  intro H. qprop. lra.
Qed.

Lemma gt_not_zero (a : num) : (a >? Fin 0) = true -> (a === Fin 0) = false.
Proof.
  destruct a as [p| | |]; unfold gt; simpl; try discriminate; try reflexivity.
  intro H. destruct (Qeq_bool p 0) eqn:E; [|reflexivity]. qprop. lra.
Qed.

Lemma lt_not_zero (a : num) : (a <? Fin 0) = true -> (a === Fin 0) = false.
Proof.
  destruct a as [p| | |]; simpl; try discriminate; try reflexivity.
  intro H. destruct (Qeq_bool p 0) eqn:E; [|reflexivity]. qprop. lra.
Qed.

Lemma gt_not_lt (a : num) : (a >? Fin 0) = true -> (a <? Fin 0) = false.
Proof.
  destruct a as [p| | |]; unfold gt; simpl; try discriminate; try reflexivity.
  intro H. qprop. lra.
Qed.

Lemma lt_not_gt (a : num) : (a <? Fin 0) = true -> (a >? Fin 0) = false.
Proof.
  destruct a as [p| | |]; unfold gt; simpl; try discriminate; try reflexivity.
  intro H. qprop. lra.
Qed.

Lemma zero_seq : (Fin 0 === Fin 0) = true.
Proof. reflexivity. Qed.

(** [checkBounds] computes the overflow the specification describes. *)
Lemma axisDiff_spec (min max : option num) (target : num) :
  axisDiff min max target = specOverflow min max target.
Proof.
  unfold axisDiff, specOverflow.
  destruct min as [lo|], max as [hi|]; simpl;
    repeat match goal with
           | |- context [if ?c then _ else _] => destruct c
           end; reflexivity.
Qed.

(** The three cases of an overflow: it is never [NaN]. *)
Lemma axisDiff_cases (min max : option num) (target : num) :
  (exists lo, min = Some lo /\ (target <? lo) = true
              /\ axisDiff min max target = lo - target
              /\ (axisDiff min max target >? Fin 0) = true)
  \/ (exists hi, max = Some hi /\ (target >? hi) = true
                 /\ axisDiff min max target = hi - target
                 /\ (axisDiff min max target <? Fin 0) = true)
  \/ axisDiff min max target = Fin 0.
Proof.
  unfold axisDiff.
  destruct min as [lo|]; cbn [notNull value_of andb].
  - destruct (target <? lo) eqn:L.
    + left. exists lo. repeat split; auto using lt_sub_pos.
    + destruct max as [hi|]; cbn [notNull value_of andb]; [|auto].
      destruct (target >? hi) eqn:G; [|auto].
      right; left. exists hi. repeat split; auto using lt_sub_neg.
  - destruct max as [hi|]; cbn [notNull value_of andb]; [|auto].
    destruct (target >? hi) eqn:G; [|auto].
    right; left. exists hi. repeat split; auto using lt_sub_neg.
Qed.

Lemma overflow_pos_min (min max : option num) (target : num) :
  (axisDiff min max target >? Fin 0) = true ->
  exists lo, min = Some lo /\ (target <? lo) = true.
Proof.
  intro H.
  destruct (axisDiff_cases min max target)
    as [(lo & E & L & _) | [(hi & E & G & _ & N) | Z]].
  - eauto.
  - apply lt_not_gt in N. congruence.
  - rewrite Z in H. discriminate.
Qed.

Lemma overflow_neg_max (min max : option num) (target : num) :
  (axisDiff min max target <? Fin 0) = true ->
  exists hi, max = Some hi /\ (target >? hi) = true.
Proof.
  intro H.
  destruct (axisDiff_cases min max target)
    as [(lo & E & L & _ & P) | [(hi & E & G & _) | Z]].
  - apply gt_not_lt in P. congruence.
  - eauto.
  - rewrite Z in H. discriminate.
Qed.

(** The value [checkBounds] writes to the target of an axis. *)
Lemma restrict_target (restrict : bool) (min max : option num) (target : num) :
  let d := axisDiff min max target in
  specTarget restrict min max d target
    (if restrict && (d !== Fin 0)
     then value_of (if d >? Fin 0 then min else max)
     else target).
Proof.
  intro d. destruct restrict; cbn [andb]; [|now apply specTarget_keep].
  subst d.
  destruct (axisDiff_cases min max target)
    as [(lo & E & L & _ & P) | [(hi & E & G & _ & N) | Z]].
  - unfold sne. rewrite (gt_not_zero _ P), P. subst min.
    cbn [negb value_of]. now apply specTarget_min.
  - unfold sne. rewrite (lt_not_zero _ N), (lt_not_gt _ N). subst max.
    cbn [negb value_of]. now apply specTarget_max.
  - rewrite Z. cbn. now apply specTarget_in.
Qed.

Lemma checkBounds_result (restrict : bool) (e : Engine) :
  let o := e.(options) in
  let dx := axisDiff (o.(boundXmin)) (o.(boundXmax)) (o.(targetX)) in
  let dy := axisDiff (o.(boundYmin)) (o.(boundYmax)) (o.(targetY)) in
  checkBounds restrict e
  = (Diff.mk dx dy ((dx === Fin 0) && (dy === Fin 0)),
     with_options
       (fun o =>
          set_targetY
            (if restrict && (dy !== Fin 0)
             then value_of (if dy >? Fin 0 then o.(boundYmin) else o.(boundYmax))
             else o.(targetY))
            (set_targetX
               (if restrict && (dx !== Fin 0)
                then value_of (if dx >? Fin 0 then o.(boundXmin)
                               else o.(boundXmax))
                else o.(targetX)) o)) e).
Proof.
  destruct e as [o s t src fr nh sl wl dl cs]. destruct o. simpl.
  unfold checkBounds. simpl.
  destruct restrict; simpl; [|reflexivity].
  repeat match goal with
         | |- context [if ?c then _ else _] => destruct c
         end; reflexivity.
Qed.

(** C4. [checkBounds(restrict)] returns on each axis the overflow
    [min - target] if [min] is set and [target < min], else [max - target]
    if [max] is set and [target > max], else 0; [inBounds] holds exactly
    when both overflows are 0; when restricting, the target of an axis
    with a non-zero overflow becomes [min] for a positive overflow and
    [max] for a negative one, and nothing else of the state changes. *)
Theorem checkBounds_evaluate (restrict : bool) (e : Engine) :
  let o := e.(options) in
  let d := fst (checkBounds restrict e) in
  let o' := (snd (checkBounds restrict e)).(options) in
  d.(Diff.x) = specOverflow (o.(boundXmin)) (o.(boundXmax)) (o.(targetX))
  /\ d.(Diff.y) = specOverflow (o.(boundYmin)) (o.(boundYmax)) (o.(targetY))
  /\ (d.(Diff.inBounds) = true
      <-> (d.(Diff.x) === Fin 0) = true /\ (d.(Diff.y) === Fin 0) = true)
  /\ specTarget restrict (o.(boundXmin)) (o.(boundXmax)) (d.(Diff.x))
       (o.(targetX)) (o'.(targetX))
  /\ specTarget restrict (o.(boundYmin)) (o.(boundYmax)) (d.(Diff.y))
       (o.(targetY)) (o'.(targetY))
  /\ snd (checkBounds restrict e)
     = set_options (set_targetY (o'.(targetY)) (set_targetX (o'.(targetX)) o)) e.
Proof.
  intros o d o'. subst d o'. rewrite checkBounds_result. simpl.
  rewrite <- !axisDiff_spec.
  refine (conj eq_refl (conj eq_refl (conj _ (conj _ (conj _ _))))).
  - apply andb_true_iff.
  - destruct e as [[] ]; simpl. apply restrict_target.
  - destruct e as [[] ]; simpl. apply restrict_target.
  - destruct e as [[] ]; reflexivity.
Qed.

(* ================================================================= *)
(** ** The deceleration step *)

(** A step taken while decelerating, in closed form. *)
Lemma stepDecelAnim_eq (e : Engine) :
  e.(options).(decelerating) = true ->
  stepDecelAnim e
  = if stopCondition (e.(options))
    then set_options (set_decelerating false (integrate (e.(options))))
           (set_stepDecelRaf None e)
    else mkEngine (adjust (integrate (e.(options)))) (Some (e.(nextHandle)))
           (e.(tickRaf)) (e.(sourceEl))
           (e.(frames) ++ [(e.(nextHandle), StepDecelAnim)])
           (Pos.succ (e.(nextHandle))) (e.(sourceListening))
           (e.(wheelListening)) (e.(documentListening))
           (Update (adjust (integrate (e.(options)))) :: e.(calls)).
Proof.
  destruct e as [o s t src fr nh sl wl dl cs]. destruct o. simpl.
  intros ->.
  unfold stepDecelAnim, stopCondition, adjust, integrate, overflowX, overflowY,
    checkBounds. simpl.
  repeat match goal with
         | |- context [if ?c then _ else _] => destruct c; simpl
         end; reflexivity.
Qed.

(** A step taken when not decelerating only clears its slot. *)
Lemma stepDecelAnim_idle (e : Engine) :
  e.(options).(decelerating) = false ->
  stepDecelAnim e = set_stepDecelRaf None e.
Proof.
  destruct e as [o s t src fr nh sl wl dl cs]. destruct o. simpl.
  intros ->. reflexivity.
Qed.

Lemma adjust_decelerating (o : Options) :
  (adjust o).(decelerating) = o.(decelerating).
Proof.
  unfold adjust.
  repeat match goal with
         | |- context [if ?c then _ else _] => destruct c
         end; reflexivity.
Qed.

Lemma checkBounds_false (e : Engine) :
  checkBounds false e
  = (Diff.mk (overflowX (e.(options))) (overflowY (e.(options)))
       ((overflowX (e.(options)) === Fin 0)
        && (overflowY (e.(options)) === Fin 0)), e).
Proof.
  destruct e as [[] ]. reflexivity.
Qed.

(** In bounds, a step that goes on changes nothing but the integration. *)
Lemma adjust_in_bounds (o : Options) :
  (overflowX o === Fin 0) = true -> (overflowY o === Fin 0) = true ->
  adjust o = o.
Proof.
  unfold adjust, bounceVel, sne. intros -> ->. simpl.
  destruct o as [b]. destruct b; reflexivity.
Qed.

(** An axis with no overflow keeps its velocity and its target through
    the adjustment of a step that goes on. *)
Lemma adjust_axisX (o : Options) :
  (overflowX o === Fin 0) = true ->
  (adjust o).(decVelX) = o.(decVelX) /\ (adjust o).(targetX) = o.(targetX).
Proof.
  unfold adjust, bounceVel, sne. intros ->. cbn [negb].
  destruct o as [b]. cbn [bounce]. destruct b; [split; reflexivity|].
  match goal with |- context [if ?c then _ else _] => destruct c end;
    split; reflexivity.
Qed.

Lemma adjust_axisY (o : Options) :
  (overflowY o === Fin 0) = true ->
  (adjust o).(decVelY) = o.(decVelY) /\ (adjust o).(targetY) = o.(targetY).
Proof.
  unfold adjust, bounceVel, sne. intros ->. cbn [negb].
  destruct o as [b]. cbn [bounce]. destruct b; [split; reflexivity|].
  match goal with |- context [if ?c then _ else _] => destruct c end;
    split; reflexivity.
Qed.

(** The bounce corrects the velocities and leaves the target where the
    integration put it. *)
Lemma adjust_bounce_target (o : Options) :
  o.(bounce) = true ->
  (adjust o).(targetX) = o.(targetX) /\ (adjust o).(targetY) = o.(targetY).
Proof.
  unfold adjust. intros ->. destruct o; split; reflexivity.
Qed.

(** C5. A deceleration step taken while decelerating multiplies each
    velocity by the friction, adds the new velocity to the target of its
    axis and evaluates the bounds on the result without restricting.  It
    ends the phase exactly when both velocities are within the stop
    threshold in absolute value and the target is in bounds: the options
    are then the integrated ones with [decelerating] false, the slot is
    empty, no frame is requested and no callback is called.  Otherwise
    the step goes on from the integrated options: it applies the bounce
    or the clamp to the axes that overflow, calls the update callback
    with the result and requests the next step; an axis with no overflow
    keeps the integrated velocity and target, and so does every axis
    target under bounce.  Nothing else of the state changes. *)
Theorem stepDecelAnim_phase (e : Engine) :
  e.(options).(decelerating) = true ->
  let o := e.(options) in
  let vx := o.(decVelX) * o.(friction) in
  let vy := o.(decVelY) * o.(friction) in
  let tx := o.(targetX) + vx in
  let ty := o.(targetY) + vy in
  let o1 := set_targetY ty (set_targetX tx (set_decVelY vy (set_decVelX vx o))) in
  let d := fst (checkBounds false (set_options o1 e)) in
  let stop := (abs vx <=? o.(stopThreshold)) && (abs vy <=? o.(stopThreshold))
              && d.(Diff.inBounds) in
  let e' := stepDecelAnim e in
  snd (checkBounds false (set_options o1 e)) = set_options o1 e
  /\ (stop = true ->
      e' = set_options (set_decelerating false o1) (set_stepDecelRaf None e)
      /\ e'.(options) = set_decelerating false o1
      /\ e'.(stepDecelRaf) = None
      /\ e'.(frames) = e.(frames)
      /\ e'.(calls) = e.(calls))
  /\ (stop = false ->
      e' = mkEngine (adjust o1) (Some (e.(nextHandle))) (e.(tickRaf))
             (e.(sourceEl)) (e.(frames) ++ [(e.(nextHandle), StepDecelAnim)])
             (Pos.succ (e.(nextHandle))) (e.(sourceListening))
             (e.(wheelListening)) (e.(documentListening))
             (Update (adjust o1) :: e.(calls))
      /\ e'.(options) = adjust o1
      /\ e'.(calls) = Update (e'.(options)) :: e.(calls)
      /\ e'.(options).(decelerating) = true
      /\ e'.(stepDecelRaf) = Some (e.(nextHandle))
      /\ e'.(frames) = e.(frames) ++ [(e.(nextHandle), StepDecelAnim)]
      /\ (d.(Diff.inBounds) = true -> e'.(options) = o1)
      /\ ((d.(Diff.x) === Fin 0) = true ->
          e'.(options).(decVelX) = vx /\ e'.(options).(targetX) = tx)
      /\ ((d.(Diff.y) === Fin 0) = true ->
          e'.(options).(decVelY) = vy /\ e'.(options).(targetY) = ty)
      /\ (o.(bounce) = true ->
          e'.(options).(targetX) = tx /\ e'.(options).(targetY) = ty))
  /\ (e'.(options).(decelerating) = false <-> stop = true).
Proof.
  intros Hd o vx vy tx ty o1 d stop e'.
  assert (Ho : o1 = integrate o) by reflexivity.
  assert (Hs : stop = stopCondition o).
  { subst stop d. rewrite checkBounds_false. reflexivity. }
  assert (Hx : d.(Diff.x) = overflowX o1)
    by (subst d; rewrite checkBounds_false; reflexivity).
  assert (Hy : d.(Diff.y) = overflowY o1)
    by (subst d; rewrite checkBounds_false; reflexivity).
  assert (Hi : d.(Diff.inBounds)
               = (overflowX o1 === Fin 0) && (overflowY o1 === Fin 0))
    by (subst d; rewrite checkBounds_false; reflexivity).
  assert (Hk : o1.(decelerating) = true) by (rewrite Ho; exact Hd).
  assert (Hvx : o1.(decVelX) = vx /\ o1.(targetX) = tx)
    by (subst o1; destruct o; split; reflexivity).
  assert (Hvy : o1.(decVelY) = vy /\ o1.(targetY) = ty)
    by (subst o1; destruct o; split; reflexivity).
  assert (Hb : o1.(bounce) = o.(bounce))
    by (subst o1; destruct o; reflexivity).
  split; [rewrite checkBounds_false; reflexivity|].
  rewrite Hx, Hy, Hi. clear Hx Hy Hi.
  subst e'. rewrite (stepDecelAnim_eq e Hd). fold o. rewrite <- Hs, <- Ho.
  destruct stop; cbn [options stepDecelRaf frames calls set_options
                       set_stepDecelRaf].
  - split; [intros _|split; [discriminate|]].
    + split; [reflexivity|]. destruct e; repeat split.
    + destruct o1; split; reflexivity.
  - split; [discriminate|split; [intros _|]].
    + refine (conj eq_refl (conj eq_refl (conj eq_refl (conj _ (conj eq_refl
               (conj eq_refl (conj _ (conj _ (conj _ _))))))))).
      * rewrite adjust_decelerating. exact Hk.
      * intro B. apply andb_true_iff in B. destruct B as [Bx By].
        exact (adjust_in_bounds o1 Bx By).
      * intro Bx. destruct (adjust_axisX o1 Bx) as [V T].
        rewrite V, T. exact Hvx.
      * intro By. destruct (adjust_axisY o1 By) as [V T].
        rewrite V, T. exact Hvy.
      * intro B. rewrite <- Hb in B.
        destruct (adjust_bounce_target o1 B) as [X Y].
        rewrite X, Y. exact (conj (proj2 Hvx) (proj2 Hvy)).
    + rewrite adjust_decelerating, Hk. split; discriminate.
Qed.

(** C6. In a step that does not stop, with bounce enabled, an axis with
    a non-zero overflow [o] gets the velocity [vel + o * 0.04] if
    [o * vel <= 0], and otherwise [(o + 2.5) * 0.11] for a positive [o]
    and [(o - 2.5) * 0.11] for a negative one, where [vel] is the
    velocity after friction. *)
Theorem stepDecelAnim_bounce (e : Engine) :
  e.(options).(decelerating) = true ->
  e.(options).(bounce) = true ->
  stopCondition (e.(options)) = false ->
  let o1 := integrate (e.(options)) in
  let d := fst (checkBounds false (set_options o1 e)) in
  let o' := (stepDecelAnim e).(options) in
  (forall o vel,
      o = d.(Diff.x) -> vel = o1.(decVelX) -> (o !== Fin 0) = true ->
      ((o * vel <=? Fin 0) = true -> o'.(decVelX) = vel + o * Fin 0.04)
      /\ ((o * vel <=? Fin 0) = false ->
          ((o >? Fin 0) = true -> o'.(decVelX) = (o + Fin 2.5) * Fin 0.11)
          /\ ((o <? Fin 0) = true -> o'.(decVelX) = (o - Fin 2.5) * Fin 0.11)))
  /\ (forall o vel,
         o = d.(Diff.y) -> vel = o1.(decVelY) -> (o !== Fin 0) = true ->
         ((o * vel <=? Fin 0) = true -> o'.(decVelY) = vel + o * Fin 0.04)
         /\ ((o * vel <=? Fin 0) = false ->
             ((o >? Fin 0) = true -> o'.(decVelY) = (o + Fin 2.5) * Fin 0.11)
             /\ ((o <? Fin 0) = true ->
                 o'.(decVelY) = (o - Fin 2.5) * Fin 0.11))).
Proof.
  intros Hd Hb Hs o1 d o'. subst o' d.
  rewrite (stepDecelAnim_eq e Hd), Hs, checkBounds_false.
  cbn [options fst Diff.x Diff.y set_options].
  assert (Hb1 : o1.(bounce) = true) by exact Hb.
  unfold adjust. fold o1. rewrite Hb1.
  split; intros o vel -> -> Hne; unfold bounceVel.
  - change (decVelX (set_decVelY _ (set_decVelX ?v _))) with v.
    rewrite Hne. split; [intros ->; reflexivity|].
    intros ->. split; intro H.
    + rewrite H. reflexivity.
    + rewrite (lt_not_gt _ H). reflexivity.
  - change (decVelY (set_decVelY ?v _)) with v.
    rewrite Hne. split; [intros ->; reflexivity|].
    intros ->. split; intro H.
    + rewrite H. reflexivity.
    + rewrite (lt_not_gt _ H). reflexivity.
Qed.

(* ================================================================= *)
(** ** The hard clamp *)

Lemma add_finite (a b : num) : is_finite a -> is_finite b -> is_finite (a + b).
Proof. destruct a, b; simpl; tauto. Qed.

Lemma sub_finite (a b : num) : is_finite a -> is_finite b -> is_finite (a - b).
Proof. destruct a, b; simpl; tauto. Qed.

Lemma mul_finite (a b : num) : is_finite a -> is_finite b -> is_finite (a * b).
Proof. destruct a, b; simpl; tauto. Qed.

Lemma le_refl_of_le (a b : num) :
  (a <=? b) = true -> (a <=? a) = true /\ (b <=? b) = true.
Proof.
  destruct a as [p| | |], b as [q| | |]; simpl; try discriminate;
    intros _; split; try reflexivity; qprop; lra.
Qed.

Lemma lt_false_le (a b : num) :
  (a <? b) = false -> is_finite a -> (b <=? b) = true -> (b <=? a) = true.
Proof.
  destruct a as [p| | |], b as [q| | |]; simpl; try discriminate; try tauto.
  intros H _ _. qprop. lra.
Qed.

(** After a hard clamp the target of an axis with ordered bounds lies
    between them. *)
Lemma clamped_within (min max : option num) (target : num) :
  ordered min max = true -> is_finite target ->
  within min max (clamped min max (axisDiff min max target) target) = true.
Proof.
  unfold within, ordered, clamped.
  destruct min as [lo|]; [|reflexivity]. destruct max as [hi|]; [|reflexivity].
  intros Ho Hf. destruct (le_refl_of_le _ _ Ho) as [Hlo Hhi].
  unfold axisDiff. cbn [notNull value_of andb].
  destruct (target <? lo) eqn:L.
  - pose proof (lt_sub_pos _ _ L) as P. unfold sne.
    rewrite (gt_not_zero _ P), P. cbn [negb value_of]. now rewrite Hlo, Ho.
  - destruct (target >? hi) eqn:G.
    + pose proof (lt_sub_neg _ _ G) as N. unfold sne.
      rewrite (lt_not_zero _ N), (lt_not_gt _ N). cbn [negb value_of].
      now rewrite Hhi, Ho.
    + unfold sne. rewrite zero_seq. cbn [negb].
      rewrite (lt_false_le _ _ L Hf Hlo).
      unfold gt in G. destruct target as [t| | |]; try contradiction.
      destruct hi as [h| | |]; simpl in *; try discriminate; try reflexivity.
      qprop. lra.
Qed.

Lemma zero_overflow_within (min max : option num) (target : num) :
  ordered min max = true -> is_finite target ->
  (axisDiff min max target === Fin 0) = true ->
  within min max target = true.
Proof.
  intros Ho Hf Hz. pose proof (clamped_within min max target Ho Hf) as H.
  unfold clamped, sne in H. now rewrite Hz in H.
Qed.

(** The options after a drag update in clamp mode. *)
Lemma updateAndRender_clamp (e : Engine) :
  e.(options).(bounce) = false ->
  let o := e.(options) in
  let tx := o.(targetX)
            + (o.(pointerCurrentX) - o.(pointerLastX)) * o.(multiplier) in
  let ty := o.(targetY)
            + (o.(pointerCurrentY) - o.(pointerLastY)) * o.(multiplier) in
  let o' := (updateAndRender e).(options) in
  o'.(targetX)
  = clamped (o.(boundXmin)) (o.(boundXmax))
      (axisDiff (o.(boundXmin)) (o.(boundXmax)) tx) tx
  /\ o'.(targetY)
     = clamped (o.(boundYmin)) (o.(boundYmax))
         (axisDiff (o.(boundYmin)) (o.(boundYmax)) ty) ty
  /\ o'.(boundXmin) = o.(boundXmin) /\ o'.(boundXmax) = o.(boundXmax)
  /\ o'.(boundYmin) = o.(boundYmin) /\ o'.(boundYmax) = o.(boundYmax).
Proof.
  destruct e as [o s t src fr nh sl wl dl cs]. destruct o. simpl.
  intros ->. unfold updateAndRender, checkBounds, clamped. simpl.
  repeat match goal with
         | |- context [if ?c then _ else _] => destruct c; simpl
         end; repeat split; reflexivity.
Qed.

(** C1, as stated, fails: [setValue] stores its argument without looking
    at the bounds, so with bounce disabled and [boundX = [0, 100]] the
    call [setValue(150)] leaves the target at 150; with the reversed
    bounds [boundX = [10, 0]] a drag update puts the target on a bound,
    outside the empty interval; and after [setValue(NaN)] a drag update
    leaves the target [NaN], which no comparison puts in bounds. *)
Lemma setValue_escapes_bounds :
  (let e := setValue (Some (Fin 150)) None (instance clampConfig) in
   e.(options).(bounce) = false
   /\ e.(options).(boundXmin) = Some (Fin 0)
   /\ e.(options).(boundXmax) = Some (Fin 100)
   /\ e.(options).(targetX) = Fin 150
   /\ targetWithin e = false)
  /\ (let e := run [Down (Fin 0) (mouseAt 0 0); Move (Fin 10) (mouseAt 5 0);
                    Frame] (instance reversedConfig) in
      e.(options).(bounce) = false
      /\ e.(options).(boundXmin) = Some (Fin 10)
      /\ e.(options).(boundXmax) = Some (Fin 0)
      /\ e.(options).(targetX) = Fin 10
      /\ targetWithin e = false)
  /\ (let e := run [SetValue (Some NaN) None; Down (Fin 0) (mouseAt 0 0);
                    Move (Fin 10) (mouseAt 5 0); Frame]
                 (instance clampConfig) in
      e.(options).(bounce) = false
      /\ e.(options).(targetX) = NaN
      /\ targetWithin e = false).
Proof. vm_compute. repeat split; reflexivity. Qed.

(** C1, amended. With bounce disabled, bounds that form an interval
    ([min <= max] on an axis that has both) and finite numbers, the target
    lies within [[min, max]] on every axis that has both bounds after a
    drag update and after a deceleration step taken while decelerating.
    [setValue] stores the numbers it is given as they are. *)
Theorem clamp_invariant (e : Engine) :
  e.(options).(bounce) = false ->
  ordered (e.(options).(boundXmin)) (e.(options).(boundXmax)) = true ->
  ordered (e.(options).(boundYmin)) (e.(options).(boundYmax)) = true ->
  finiteState (e.(options)) ->
  targetWithin (updateAndRender e) = true
  /\ (e.(options).(decelerating) = true ->
      targetWithin (stepDecelAnim e) = true)
  /\ (forall x y,
         (setValue (Some x) (Some y) e).(options).(targetX) = x
         /\ (setValue (Some x) (Some y) e).(options).(targetY) = y).
Proof.
  intros Hb Hx Hy (Ftx & Fty & Fvx & Fvy & Ff & Fm & Fcx & Fcy & Flx & Fly).
  split; [|split].
  - destruct (updateAndRender_clamp e Hb) as (Tx & Ty & Bx1 & Bx2 & By1 & By2).
    unfold targetWithin. rewrite Tx, Ty, Bx1, Bx2, By1, By2.
    rewrite !clamped_within; auto using add_finite, sub_finite, mul_finite.
  - intro Hd. rewrite (stepDecelAnim_eq e Hd).
    assert (Fx : is_finite ((integrate (e.(options))).(targetX))).
    { destruct e as [[] ]; simpl in *. auto using add_finite, mul_finite. }
    assert (Fy : is_finite ((integrate (e.(options))).(targetY))).
    { destruct e as [[] ]; simpl in *. auto using add_finite, mul_finite. }
    assert (Bx : ordered ((integrate (e.(options))).(boundXmin))
                   ((integrate (e.(options))).(boundXmax)) = true)
      by (destruct e as [[] ]; exact Hx).
    assert (By : ordered ((integrate (e.(options))).(boundYmin))
                   ((integrate (e.(options))).(boundYmax)) = true)
      by (destruct e as [[] ]; exact Hy).
    assert (Bb : (integrate (e.(options))).(bounce) = false)
      by (destruct e as [[] ]; exact Hb).
    destruct (stopCondition (e.(options))) eqn:Hs.
    + unfold stopCondition in Hs.
      apply andb_true_iff in Hs. destruct Hs as [_ Hs].
      apply andb_true_iff in Hs. destruct Hs as [Zx Zy].
      generalize dependent (integrate (e.(options))). intros o1 Fx Fy Bx By _ Zx Zy.
      unfold targetWithin. destruct o1; simpl in *.
      rewrite (zero_overflow_within _ _ _ Bx Fx Zx).
      now rewrite (zero_overflow_within _ _ _ By Fy Zy).
    + clear Hs. generalize dependent (integrate (e.(options))).
      intros o1 Fx Fy Bx By Bb.
      pose proof (clamped_within _ _ _ Bx Fx) as Wx.
      pose proof (clamped_within _ _ _ By Fy) as Wy.
      unfold targetWithin, adjust, overflowX, overflowY.
      cbn [options]. rewrite Bb.
      unfold clamped in Wx, Wy.
      destruct o1; simpl in *.
      repeat match goal with
             | |- context [if ?c then _ else _] => destruct c; simpl in *
             end; now rewrite ?Wx, ?Wy.
  - intros x y. destruct e as [[] ]. split; reflexivity.
Qed.

(** [clamp_invariant] at a release that overshoots the upper bound: the
    next deceleration step puts the target on the bound. *)
Lemma clamp_invariant_witness :
  let e := run (flick 10 1) (instance clampConfig) in
  e.(options).(bounce) = false
  /\ ordered (e.(options).(boundXmin)) (e.(options).(boundXmax)) = true
  /\ ordered (e.(options).(boundYmin)) (e.(options).(boundYmax)) = true
  /\ finiteState (e.(options))
  /\ e.(options).(decelerating) = true
  /\ (stepDecelAnim e).(options).(targetX) = Fin 100
  /\ targetWithin (updateAndRender e) = true
  /\ targetWithin (stepDecelAnim e) = true.
Proof.
  intro e.
  assert (Hb : e.(options).(bounce) = false) by reflexivity.
  assert (Hx : ordered (e.(options).(boundXmin)) (e.(options).(boundXmax)) = true)
    by reflexivity.
  assert (Hy : ordered (e.(options).(boundYmin)) (e.(options).(boundYmax)) = true)
    by reflexivity.
  assert (Hf : finiteState (e.(options))) by (vm_compute; tauto).
  assert (Hd : e.(options).(decelerating) = true) by reflexivity.
  destruct (clamp_invariant e Hb Hx Hy Hf) as (Hu & Hs & _).
  exact (conj Hb (conj Hx (conj Hy (conj Hf (conj Hd
           (conj eq_refl (conj Hu (Hs Hd)))))))).
Defined.

(* ================================================================= *)
(** ** The phase flags *)

(** What each function does to [decelerating] and [pointerActive]. *)
Ltac flags e :=
  destruct e as [[] ]; simpl in *;
  repeat match goal with
         | |- context [if ?c then _ else _] => destruct c; simpl in *
         | |- context [match ?l with [] => _ | _ :: _ => _ end] =>
             destruct l; simpl in *
         end;
  try reflexivity; try assumption; try discriminate.

Lemma startDecelAnim_pointerActive (e : Engine) :
  (startDecelAnim e).(options).(pointerActive) = e.(options).(pointerActive).
Proof.
  destruct e as [o s t src fr nh sl wl dl cs]. destruct o.
  unfold startDecelAnim, checkBounds. simpl.
  destruct trackingPoints0 as [|p l]; [reflexivity|]. cbv zeta.
  match goal with
  | |- context [if ?c then _ else _] => destruct c
  end; reflexivity.
Qed.

Lemma stopTracking_pointerActive (now : num) (e : Engine) :
  (stopTracking now e).(options).(pointerActive) = false.
Proof.
  unfold stopTracking, removeEventListeners.
  change (options (set_documentListening false ?x)) with (options x).
  rewrite startDecelAnim_pointerActive.
  destruct e as [[] ]. reflexivity.
Qed.

Lemma stepDecelAnim_flags (e : Engine) :
  flagsExclusive e = true -> flagsExclusive (stepDecelAnim e) = true.
Proof.
  intro H. destruct (e.(options).(decelerating)) eqn:Hd.
  - rewrite (stepDecelAnim_eq e Hd).
    destruct (stopCondition (e.(options))).
    + unfold flagsExclusive. destruct e as [[] ]. simpl. reflexivity.
    + unfold flagsExclusive in *. cbn [options].
      rewrite adjust_decelerating.
      assert (Hp : (adjust (integrate (e.(options)))).(pointerActive)
                   = e.(options).(pointerActive)).
      { unfold adjust. destruct e as [[] ]; simpl.
        repeat match goal with
               | |- context [if ?c then _ else _] => destruct c; simpl
               end; reflexivity. }
      rewrite Hp. destruct e as [[] ]; simpl in *. exact H.
  - rewrite (stepDecelAnim_idle e Hd). destruct e as [[] ]; simpl in *. exact H.
Qed.

Lemma updateAndRender_flags (e : Engine) :
  flagsExclusive (updateAndRender e) = flagsExclusive e.
Proof.
  unfold flagsExclusive, updateAndRender, checkBounds. flags e.
Qed.

Lemma onWheel_flags (deltaX deltaY : num) (e : Engine) :
  flagsExclusive (onWheel deltaX deltaY e) = true.
Proof. destruct e as [[] ]. reflexivity. Qed.

Lemma onMove_flags (now : num) (ev : Ev.Raw) (e : Engine) :
  flagsExclusive (onMove now ev e) = flagsExclusive e.
Proof.
  unfold flagsExclusive, onMove, requestTick, addTrackingPoint. flags e.
Qed.

Lemma onDown_flags (now : num) (ev : Ev.Raw) (e : Engine) :
  flagsExclusive e = true -> flagsExclusive (onDown now ev e) = true.
Proof.
  unfold flagsExclusive, onDown, callHook, addTrackingPoint. intro H. flags e.
Qed.

Lemma stopTracking_flags (now : num) (e : Engine) :
  flagsExclusive (stopTracking now e) = true.
Proof.
  unfold flagsExclusive. rewrite stopTracking_pointerActive.
  now rewrite andb_false_r.
Qed.

Lemma onUp_flags (now : num) (ev : Ev.Raw) (e : Engine) :
  flagsExclusive e = true -> flagsExclusive (onUp now ev e) = true.
Proof.
  intro H. unfold onUp.
  destruct (_ && _); [apply stopTracking_flags | exact H].
Qed.

Lemma cancel_flags (e : Engine) : flagsExclusive (cancel e) = true.
Proof.
  unfold flagsExclusive, cancel, removeEventListeners, cancelAnimationFrame.
  destruct e as [o s t src fr nh sl wl dl cs]. destruct o. simpl.
  destruct s, t; reflexivity.
Qed.

Lemma pause_flags (e : Engine) : flagsExclusive (pause e) = true.
Proof.
  destruct e as [[] ]. unfold flagsExclusive. simpl. apply negb_true_iff, andb_false_r.
Qed.

Lemma setValue_flags (x y : option num) (e : Engine) :
  flagsExclusive (setValue x y e) = flagsExclusive e.
Proof. destruct e as [[] ], x, y; reflexivity. Qed.

Lemma runFrame_flags (e : Engine) :
  flagsExclusive e = true -> flagsExclusive (runFrame e) = true.
Proof.
  intro H. unfold runFrame.
  destruct (e.(frames)) as [|[h cb] rest] eqn:E; [exact H|].
  assert (H' : flagsExclusive (set_frames rest e) = true)
    by (destruct e as [[] ]; exact H).
  destruct cb.
  - now rewrite updateAndRender_flags.
  - now apply stepDecelAnim_flags.
Qed.

(** Every input keeps the two flags exclusive. *)
Lemma step_flags (i : Input) (e : Engine) :
  flagsExclusive e = true -> flagsExclusive (step i e) = true.
Proof.
  intro H. destruct i; simpl.
  - destruct (e.(sourceListening)); auto using onDown_flags.
  - destruct (e.(documentListening)); [rewrite onMove_flags|]; exact H.
  - destruct (e.(documentListening)); auto using onUp_flags.
  - destruct (e.(documentListening)); auto using stopTracking_flags.
  - destruct (e.(wheelListening)); auto using onWheel_flags.
  - now apply runFrame_flags.
  - apply pause_flags.
  - destruct e as [[] ]; exact H.
  - apply cancel_flags.
  - unfold destroy. destruct e as [[] ]; simpl in *.
    destruct sourceEl0; exact H.
  - now rewrite setValue_flags.
  - destruct e as [[] ]; exact H.
  - destruct e as [[] ]; exact H.
  - destruct e as [[] ]; exact H.
Qed.

Lemma run_flags (inputs : list Input) (e : Engine) :
  flagsExclusive e = true -> flagsExclusive (run inputs e) = true.
Proof.
  revert e. induction inputs as [|i inputs IH]; intros e H; [exact H|].
  simpl. apply IH, step_flags, H.
Qed.

Lemma construct_flags (cfg : Config.t) (e : Engine) :
  construct cfg = Some e -> flagsExclusive e = true.
Proof.
  unfold construct. destruct cfg as [src upd m f b bx by_ iv od ou]. simpl.
  destruct src; [|discriminate]. destruct upd; [|discriminate]. simpl.
  intro H. injection H as <-.
  destruct iv as [[tx ty]|], bx as [[? ?]|], by_ as [[? ?]|]; simpl;
    repeat match goal with
           | |- context [if ?c then _ else _] => destruct c; simpl
           end; reflexivity.
Qed.

(** C9. From construction on, after every event handler and every public
    operation (down, move, up, touch cancel, wheel, animation frame,
    pause, resume, cancel, destroy, setValue, setMultiplier, setBoundX,
    setBoundY) the flags [decelerating] and [pointerActive] are not both
    true. *)
Theorem flags_never_both (cfg : Config.t) (e : Engine) (inputs : list Input) :
  construct cfg = Some e ->
  (run inputs e).(options).(decelerating)
  && (run inputs e).(options).(pointerActive) = false.
Proof.
  intro H. apply negb_true_iff.
  apply (run_flags inputs e), (construct_flags cfg), H.
Qed.

Lemma flags_never_both_witness :
  construct bounceConfig = Some (instance bounceConfig)
  /\ (let e := run (flick 10 50 ++ [Down (Fin 60) (mouseAt 3 4)])
                 (instance bounceConfig) in
      e.(options).(pointerActive) = true
      /\ e.(options).(decelerating) && e.(options).(pointerActive) = false).
Proof.
  split; [reflexivity|]. split; [reflexivity|].
  exact (@flags_never_both bounceConfig (instance bounceConfig)
           (flick 10 50 ++ [Down (Fin 60) (mouseAt 3 4)]) eq_refl).
Defined.

(* ================================================================= *)
(** ** The wheel *)

(** C10. While paused, a wheel event still moves the target by
    [-deltaX / 3] and [-deltaY / 3] and invokes the update callback once;
    the instance stays paused, and what the pause gates is the pointer
    down, which changes nothing. *)
Theorem onWheel_paused (deltaX deltaY : num) (e : Engine) :
  e.(options).(paused) = true ->
  let e' := onWheel deltaX deltaY e in
  e'.(options).(targetX) = e.(options).(targetX) - deltaX / Fin 3
  /\ e'.(options).(targetY) = e.(options).(targetY) - deltaY / Fin 3
  /\ (exists snapshot,
         e'.(calls) = Update snapshot :: e.(calls)
         /\ snapshot.(targetX) = e'.(options).(targetX)
         /\ snapshot.(targetY) = e'.(options).(targetY))
  /\ e'.(options).(paused) = true
  /\ e'.(options).(decelerating) = false
  /\ (e.(wheelListening) = true -> step (Wheel deltaX deltaY) e = e')
  /\ (forall now ev, onDown now ev e = e).
Proof.
  intros Hp e'. subst e'.
  destruct e as [o s t src fr nh sl wl dl cs]. destruct o. simpl in *. subst.
  repeat split.
  - eexists. repeat split.
  - intros ->. reflexivity.
  - intros now ev. unfold onDown. simpl. now rewrite andb_false_r.
Qed.

Lemma onWheel_paused_witness :
  let e := pause (instance defaults) in
  e.(options).(paused) = true
  /\ (onWheel (Fin 30) (Fin (-6)) e).(options).(targetX) = Fin 0 - Fin 30 / Fin 3
  /\ (onWheel (Fin 30) (Fin (-6)) e).(options).(targetY)
     = Fin 0 - Fin (-6) / Fin 3
  /\ length ((onWheel (Fin 30) (Fin (-6)) e).(calls)) = 1%nat.
Proof.
  intro e.
  destruct (@onWheel_paused (Fin 30) (Fin (-6)) e eq_refl)
    as (Hx & Hy & _).
  exact (conj eq_refl (conj Hx (conj Hy eq_refl))).
Defined.

(* ================================================================= *)
(** ** Geometric decay and the end of the deceleration loop *)

Lemma decay_fin (f v : Q) (n : nat) :
  decay (Fin f) (Fin v) n = Fin (Qdecay f v n).
Proof.
  revert v. induction n as [|m IH]; intro v; [reflexivity|].
  simpl. apply IH.
Qed.

Lemma Qdecay_bound (f : Q) :
  (0 < f)%Q -> (f < 1)%Q ->
  forall n v,
    (Qabs (Qdecay f v n) * (1 + inject_Z (Z.of_nat n) * (1 - f)) <= Qabs v)%Q.
Proof.
  intros H0 H1. induction n as [|m IH]; intro v.
  - simpl. unfold inject_Z. simpl. lra.
  - cbn [Qdecay]. specialize (IH (v * f)%Q).
    rewrite Qabs_Qmult, (Qabs_pos f) in IH by lra.
    rewrite Nat2Z.inj_succ. unfold Z.succ. rewrite inject_Z_plus.
    pose proof (Qabs_nonneg (Qdecay f (v * f) m)) as HA.
    pose proof (Qabs_nonneg v) as HV.
    assert (Hm : (0 <= inject_Z (Z.of_nat m))%Q).
    { change 0%Q with (inject_Z 0). rewrite <- Zle_Qle. lia. }
    set (A := Qabs (Qdecay f (v * f) m)) in *.
    set (V := Qabs v) in *. set (k := inject_Z (Z.of_nat m)) in *.
    change (inject_Z 1) with 1%Q.
    assert (HAk : (0 <= A * k)%Q) by (apply Qmult_le_0_compat; assumption).
    assert (HAkd : (0 <= A * k * (1 - f))%Q)
      by (apply Qmult_le_0_compat; lra).
    assert (HAV : (A <= V * f)%Q) by lra.
    assert (HAd : (A * (1 - f) <= V * f * (1 - f))%Q)
      by (apply Qmult_le_compat_r; lra).
    assert (HVff : (0 <= V * ((1 - f) * (1 - f)))%Q)
      by (apply Qmult_le_0_compat; [lra|nra]).
    lra.
Qed.

(** Geometric decay: from some step on, every velocity that started
    within [M] is within the threshold. *)
Lemma Qdecay_below (f thr M : Q) :
  (0 < f)%Q -> (f < 1)%Q -> (0 < thr)%Q ->
  exists N : nat,
    forall n v, (N <= n)%nat -> (Qabs v <= M)%Q ->
                (Qabs (Qdecay f v n) <= thr)%Q.
Proof.
  intros H0 H1 Ht.
  destruct (Qarchimedean (M / (thr * (1 - f)))) as [p Hp].
  exists (Pos.to_nat p). intros n v Hn Hv.
  pose proof (Qdecay_bound H0 H1 n v) as Hb.
  pose proof (Qabs_nonneg (Qdecay f v n)) as HA.
  assert (Hk : (inject_Z (Z.pos p) <= inject_Z (Z.of_nat n))%Q).
  { rewrite <- Zle_Qle. lia. }
  change (Z.pos p # 1) with (inject_Z (Z.pos p)) in Hp.
  set (d := (thr * (1 - f))%Q) in *.
  assert (Hd : (0 < d)%Q) by (apply Qmult_lt_0_compat; lra).
  assert (HM : (M == M / d * d)%Q) by (field; lra).
  assert (HP : (M / d * d < inject_Z (Z.pos p) * d)%Q)
    by (apply Qmult_lt_compat_r; assumption).
  assert (HK : (inject_Z (Z.pos p) * d <= inject_Z (Z.of_nat n) * d)%Q)
    by (apply Qmult_le_compat_r; lra).
  set (A := Qabs (Qdecay f v n)) in *. set (k := inject_Z (Z.of_nat n)) in *.
  set (c := (1 + k * (1 - f))%Q) in *.
  assert (Hc : (0 < c)%Q).
  { assert (0 <= k * (1 - f))%Q; [|subst c; lra].
    apply Qmult_le_0_compat; [|lra].
    subst k. change 0%Q with (inject_Z 0). rewrite <- Zle_Qle. lia. }
  assert (Hlt : (A * c < thr * c)%Q).
  { assert (k * d == thr * (k * (1 - f)))%Q by (subst d; ring).
    subst c. lra. }
  apply Qnot_lt_le. intro Hgt.
  assert (thr * c <= A * c)%Q by (apply Qmult_le_compat_r; lra).
  lra.
Qed.

(** A frame of the running loop, in closed form. *)
Lemma runFrame_looping (e : Engine) (h : handle) :
  e.(options).(decelerating) = true ->
  e.(frames) = [(h, StepDecelAnim)] ->
  runFrame e
  = if stopCondition (e.(options))
    then set_options (set_decelerating false (integrate (e.(options))))
           (set_stepDecelRaf None (set_frames [] e))
    else mkEngine (adjust (integrate (e.(options)))) (Some (e.(nextHandle)))
           (e.(tickRaf)) (e.(sourceEl)) [(e.(nextHandle), StepDecelAnim)]
           (Pos.succ (e.(nextHandle))) (e.(sourceListening))
           (e.(wheelListening)) (e.(documentListening))
           (Update (adjust (integrate (e.(options)))) :: e.(calls)).
Proof.
  intros Hd Hf. unfold runFrame. rewrite Hf.
  rewrite stepDecelAnim_eq by (destruct e as [[] ]; exact Hd).
  destruct e as [[] ]; reflexivity.
Qed.

Lemma stopCondition_eq (e : Engine) :
  stopCondition (e.(options))
  = (abs (e.(options).(decVelX) * e.(options).(friction))
     <=? e.(options).(stopThreshold))
    && (abs (e.(options).(decVelY) * e.(options).(friction))
        <=? e.(options).(stopThreshold))
    && inBoundsNext e.
Proof.
  unfold stopCondition, inBoundsNext. destruct e as [[] ]. simpl. reflexivity.
Qed.

Lemma runFrames_succ (n : nat) (e : Engine) :
  runFrames (S n) e = runFrames n (runFrame e).
Proof. reflexivity. Qed.

(** Once both velocities decay below a positive threshold within [S n]
    steps, the loop has stopped by then unless the target left the
    bounds. *)
Lemma decel_stops_within (f thr : Q) (n : nat) :
  forall (e : Engine) (vx vy : Q),
    looping e ->
    e.(options).(friction) = Fin f ->
    e.(options).(stopThreshold) = Fin thr ->
    e.(options).(decVelX) = Fin vx ->
    e.(options).(decVelY) = Fin vy ->
    (Qabs (Qdecay f vx (S n)) <= thr)%Q ->
    (Qabs (Qdecay f vy (S n)) <= thr)%Q ->
    (exists j, (runFrames j e).(options).(decelerating) = false)
    \/ (exists k, (k <= n)%nat /\ inBoundsNext (runFrames k e) = false).
Proof.
  induction n as [|n IH]; intros e vx vy [Hd [h Hf]] Hfr Hthr Hvx Hvy Hx Hy.
  - destruct (inBoundsNext e) eqn:B; [|right; exists O; split; [lia|exact B]].
    left. exists 1%nat. simpl. rewrite (runFrame_looping e Hd Hf).
    rewrite stopCondition_eq, Hvx, Hvy, Hfr, Hthr, B. simpl in *.
    apply Qle_bool_iff in Hx, Hy. rewrite Hx, Hy. simpl.
    destruct e as [[] ]; reflexivity.
  - destruct (inBoundsNext e) eqn:B; [|right; exists O; split; [lia|exact B]].
    destruct (stopCondition (e.(options))) eqn:Hs.
    + left. exists 1%nat. simpl. rewrite (runFrame_looping e Hd Hf), Hs.
      destruct e as [[] ]; reflexivity.
    + pose proof (runFrame_looping e Hd Hf) as R. rewrite Hs in R.
      unfold inBoundsNext in B. apply andb_true_iff in B. destruct B as [Bx By].
      rewrite (adjust_in_bounds _ Bx By) in R.
      assert (L : looping (runFrame e)).
      { rewrite R. split; [|eexists; reflexivity].
        destruct e as [[] ]; exact Hd. }
      destruct (IH (runFrame e) (vx * f)%Q (vy * f)%Q L) as [[j Hj] | [k [Hk Hb]]].
      * rewrite R. destruct e as [[] ]; exact Hfr.
      * rewrite R. destruct e as [[] ]; exact Hthr.
      * rewrite R. destruct e as [[] ]; simpl in *. now rewrite Hvx, Hfr.
      * rewrite R. destruct e as [[] ]; simpl in *. now rewrite Hvy, Hfr.
      * exact Hx.
      * exact Hy.
      * left. exists (S j). exact Hj.
      * right. exists (S k). split; [lia|exact Hb].
Qed.

(** X25. In exact arithmetic, for a friction [0 < f < 1], a positive
    stop threshold and a finite initial velocity, the sequence
    [v := v * f] reaches [|v| <= stopThreshold] after finitely many steps;
    and a running deceleration loop with finite velocities reaches its
    stop condition after finitely many steps unless the target leaves the
    bounds on the way. *)
Theorem decel_terminates (f thr : Q) :
  (0 < f)%Q -> (f < 1)%Q -> (0 < thr)%Q ->
  (forall v0 : Q,
      exists n, (abs (decay (Fin f) (Fin v0) n) <=? Fin thr) = true)
  /\ (forall (e : Engine) (vx vy : Q),
         looping e ->
         e.(options).(friction) = Fin f ->
         e.(options).(stopThreshold) = Fin thr ->
         e.(options).(decVelX) = Fin vx ->
         e.(options).(decVelY) = Fin vy ->
         exists n,
           (runFrames n e).(options).(decelerating) = false
           \/ (exists k, (k < n)%nat /\ inBoundsNext (runFrames k e) = false)).
Proof.
  intros H0 H1 Ht. split.
  - intro v0.
    destruct (Qdecay_below (Qabs v0) H0 H1 Ht) as [N HN].
    exists N. rewrite decay_fin. simpl. apply Qle_bool_iff.
    apply HN; [lia|lra].
  - intros e vx vy L Hf Hthr Hvx Hvy.
    destruct (Qdecay_below (Qabs vx + Qabs vy)%Q H0 H1 Ht) as [N HN].
    pose proof (Qabs_nonneg vx) as Px. pose proof (Qabs_nonneg vy) as Py.
    destruct (@decel_stops_within f thr N e vx vy L Hf Hthr Hvx Hvy)
      as [[j Hj] | [k [Hk Hb]]].
    + apply HN; [lia|lra].
    + apply HN; [lia|lra].
    + exists j. left. exact Hj.
    + exists (S k). right. exists k. split; [lia|exact Hb].
Qed.

(** [decel_terminates] at the default friction and threshold: a release
    at velocity 3 has decayed below 0.3 after 28 steps, and the loop it
    starts has stopped by then. *)
Lemma decel_terminates_witness :
  (0 < 0.92)%Q /\ (0.92 < 1)%Q /\ (0 < 0.3)%Q
  /\ (abs (decay (Fin 0.92) (Fin 3) 28) <=? Fin 0.3) = true
  /\ (exists n, (abs (decay (Fin 0.92) (Fin 3) n) <=? Fin 0.3) = true)
  /\ (let e := run (flick 10 50) (instance defaults) in
      looping e
      /\ (runFrames 28 e).(options).(decelerating) = false
      /\ exists n,
          (runFrames n e).(options).(decelerating) = false
          \/ (exists k, (k < n)%nat /\ inBoundsNext (runFrames k e) = false)).
Proof.
  assert (H0 : (0 < 0.92)%Q) by reflexivity.
  assert (H1 : (0.92 < 1)%Q) by reflexivity.
  assert (Ht : (0 < 0.3)%Q) by reflexivity.
  destruct (@decel_terminates 0.92 0.3 H0 H1 Ht) as [Hv Hl].
  refine (conj H0 (conj H1 (conj Ht (conj _ (conj (Hv 3%Q) _))))).
  - vm_compute. reflexivity.
  - intro e.
    assert (L : looping e).
    { split; [reflexivity|]. eexists. vm_compute. reflexivity. }
    refine (conj L (conj _ _)).
    + vm_compute. reflexivity.
    + apply (Hl e (150 # 50)%Q 0%Q L); vm_compute; reflexivity.
Defined.

Lemma inf_mul_pos (f : Q) : (0 < f)%Q -> PInf * Fin f = PInf.
Proof.
  intro H. simpl. unfold scale_inf.
  replace (Qzero f) with false by (symmetry; qprop; lra).
  replace (Qltb 0 f) with true by (symmetry; qprop; lra).
  reflexivity.
Qed.

Lemma decay_inf (f : Q) (n : nat) : (0 < f)%Q -> decay (Fin f) PInf n = PInf.
Proof.
  intro H. induction n as [|n IH]; [reflexivity|].
  simpl decay. fold (PInf * Fin f). now rewrite (inf_mul_pos H).
Qed.

Lemma abs_le_negative (v : num) (thr : Q) :
  (thr < 0)%Q -> (abs v <=? Fin thr) = false.
Proof.
  intro H. destruct v as [q| | |]; try reflexivity.
  simpl. pose proof (Qabs_nonneg q). qprop. lra.
Qed.

Lemma unbounded_in_bounds (o : Options) :
  unbounded o -> overflowX o = Fin 0 /\ overflowY o = Fin 0.
Proof.
  intros (A & B & C & D). unfold overflowX, overflowY.
  now rewrite A, B, C, D.
Qed.

Lemma integrate_unbounded (o : Options) : unbounded o -> unbounded (integrate o).
Proof. destruct o. exact (fun H => H). Qed.

Lemma unbounded_adjust (o : Options) : unbounded o -> adjust o = o.
Proof.
  intro H. destruct (unbounded_in_bounds H) as [X Y].
  apply adjust_in_bounds; [rewrite X|rewrite Y]; reflexivity.
Qed.

(** A frame of the running loop that does not stop leaves it running. *)
Lemma runFrame_goes_on (e : Engine) :
  looping e -> stopCondition (e.(options)) = false ->
  looping (runFrame e)
  /\ (runFrame e).(options) = adjust (integrate (e.(options))).
Proof.
  intros [Hd [h Hf]] Hs. rewrite (runFrame_looping e Hd Hf), Hs.
  split; [|reflexivity]. split; [|eexists; reflexivity].
  cbn [options]. rewrite adjust_decelerating. destruct e as [[] ]; exact Hd.
Qed.

(** A property of the options that rules the stop condition out and that
    a step preserves keeps the loop running for ever. *)
Lemma loop_for_ever (P : Options -> Prop) :
  (forall o, P o -> stopCondition o = false /\ P (adjust (integrate o))) ->
  forall n e, looping e -> P (e.(options)) ->
              looping (runFrames n e) /\ P ((runFrames n e).(options)).
Proof.
  intros HP. induction n as [|n IH]; intros e L H; [now split|].
  rewrite runFrames_succ.
  destruct (HP _ H) as [Hs Hn].
  destruct (runFrame_goes_on L Hs) as [L' E].
  apply IH; [exact L'|]. rewrite E. exact Hn.
Qed.

Lemma infiniteVelocity_step (o : Options) :
  infiniteVelocity o ->
  stopCondition o = false /\ infiniteVelocity (adjust (integrate o)).
Proof.
  intros (Hv & (f & Hf & F0) & Ht & Hu).
  assert (Hi : (integrate o).(decVelX) = PInf).
  { destruct o; simpl in *. subst. apply (inf_mul_pos F0). }
  split.
  - unfold stopCondition. rewrite Hi.
    destruct (o.(stopThreshold)); try contradiction. reflexivity.
  - rewrite (unbounded_adjust (integrate_unbounded Hu)).
    refine (conj Hi (conj _ (conj _ (integrate_unbounded Hu)))).
    + exists f. destruct o; simpl in *. tauto.
    + destruct o; exact Ht.
Qed.

Lemma negativeThreshold_step (o : Options) :
  negativeThreshold o ->
  stopCondition o = false /\ negativeThreshold (adjust (integrate o)).
Proof.
  intros ((thr & Ht & T0) & Hu).
  split.
  - unfold stopCondition. rewrite Ht, (abs_le_negative _ T0). reflexivity.
  - rewrite (unbounded_adjust (integrate_unbounded Hu)).
    split; [exists thr|]; destruct o; simpl in *; tauto.
Qed.

Lemma unbounded_inBoundsNext (e : Engine) :
  unbounded (e.(options)) -> inBoundsNext e = true.
Proof.
  intro H. unfold inBoundsNext.
  destruct (unbounded_in_bounds (integrate_unbounded H)) as [X Y].
  now rewrite X, Y.
Qed.

(** C7. The deceleration loop does not always reach its stop condition,
    with a friction in (0, 1) and the target in bounds at every step.
    With the default configuration, a drag released at the time it
    started with the pointer moved has the velocity [Infinity]: the guard
    [|| 0] of [startDecelAnim] lets it through, and no number of
    frictions brings it under the threshold.  With [multiplier: -1] the
    release velocity is finite and the stop threshold, the default times
    the multiplier, is [-0.3], under which no absolute value goes.  In
    both runs no bound is set and the loop never stops. *)
Lemma decel_never_stops :
  (let e := run (flick 10 0) (instance defaults) in
   e.(options).(friction) = Fin 0.92
   /\ e.(options).(decVelX) = PInf
   /\ (forall n,
          (abs (decay (e.(options).(friction)) (e.(options).(decVelX)) n)
           <=? e.(options).(stopThreshold)) = false)
   /\ (forall n,
          (runFrames n e).(options).(decelerating) = true
          /\ inBoundsNext (runFrames n e) = true))
  /\ (let e := run (flick 10 50) (instance invertedConfig) in
      e.(options).(friction) = Fin 0.92
      /\ is_finite (e.(options).(decVelX))
      /\ (e.(options).(stopThreshold) <? Fin 0) = true
      /\ (forall n,
             (abs (decay (e.(options).(friction)) (e.(options).(decVelX)) n)
              <=? e.(options).(stopThreshold)) = false)
      /\ (forall n,
             (runFrames n e).(options).(decelerating) = true
             /\ inBoundsNext (runFrames n e) = true)).
Proof.
  split; intro e.
  - assert (L : looping e).
    { split; [reflexivity|]. eexists. vm_compute. reflexivity. }
    assert (P : infiniteVelocity (e.(options))).
    { refine (conj eq_refl (conj _ (conj _ _))).
      - exists 0.92%Q. split; reflexivity.
      - vm_compute. exact I.
      - repeat split. }
    refine (conj eq_refl (conj eq_refl (conj _ _))).
    + intro n.
      change (e.(options).(friction)) with (Fin 0.92).
      change (e.(options).(decVelX)) with PInf.
      rewrite decay_inf by reflexivity.
      vm_compute. reflexivity.
    + intro n.
      destruct (@loop_for_ever infiniteVelocity infiniteVelocity_step n e L P)
        as [[Hd _] (_ & _ & _ & Hu)].
      split; [exact Hd|apply unbounded_inBoundsNext, Hu].
  - assert (L : looping e).
    { split; [reflexivity|]. eexists. vm_compute. reflexivity. }
    assert (T : e.(options).(stopThreshold) = Fin (0.3 * -1)%Q) by reflexivity.
    assert (P : negativeThreshold (e.(options))).
    { split; [|repeat split].
      exists (0.3 * -1)%Q. split; [exact T|reflexivity]. }
    refine (conj eq_refl (conj _ (conj eq_refl (conj _ _)))).
    + vm_compute. exact I.
    + intro n. rewrite T. apply abs_le_negative. reflexivity.
    + intro n.
      destruct (@loop_for_ever negativeThreshold negativeThreshold_step n e L P) as [[Hd _] [_ Hu]].
      split; [exact Hd|apply unbounded_inBoundsNext, Hu].
Qed.

(* ================================================================= *)
(** ** The release velocity *)

(** The velocity [startDecelAnim] stores, from the oldest and the newest
    retained points. *)
Lemma startDecelAnim_velocity (e : Engine) (firstPoint : Point.t)
  (rest : list Point.t) :
  e.(options).(trackingPoints) = firstPoint :: rest ->
  let lastPoint := last (firstPoint :: rest) firstPoint in
  let D := ((lastPoint.(Point.time) - firstPoint.(Point.time)) / Fin 15)
           / e.(options).(multiplier) in
  (startDecelAnim e).(options).(decVelX)
  = ((lastPoint.(Point.x) - firstPoint.(Point.x)) / D) ||| Fin 0
  /\ (startDecelAnim e).(options).(decVelY)
     = ((lastPoint.(Point.y) - firstPoint.(Point.y)) / D) ||| Fin 0.
Proof.
  destruct e as [o s t src fr nh sl wl dl cs]. destruct o. simpl.
  intros ->. unfold startDecelAnim, checkBounds.
  cbn [options trackingPoints multiplier]. cbv zeta.
  match goal with
  | |- context [if ?c then _ else _] => destruct c
  end; split; reflexivity.
Qed.

(** With time elapsed between the two points and a finite non-zero
    multiplier the estimate is [(x1 - x0) / ((t1 - t0) / 15 / multiplier)]. *)
Lemma velocity_elapsed (x0 x1 t0 t1 m : Q) :
  (t0 < t1)%Q -> ~ (m == 0)%Q ->
  same (((Fin x1 - Fin x0) / (((Fin t1 - Fin t0) / Fin 15) / Fin m)) ||| Fin 0)
       (Fin ((x1 - x0) / ((t1 - t0) / 15 / m))%Q).
Proof.
  intros Ht Hm. simpl.
  replace (Qzero m) with false by (symmetry; qprop; exact Hm).
  simpl.
  assert (HD : ~ ((t1 + - t0) / 15 / m == 0)%Q).
  { intro H. apply Hm.
    assert (E : ((t1 + - t0) == (t1 + - t0) / 15 / m * (15 * m))%Q)
      by (field; exact Hm).
    rewrite H in E. exfalso. lra. }
  replace (Qzero ((t1 + - t0) / 15 / m)) with false by (symmetry; qprop; exact HD).
  unfold or_else. simpl.
  destruct (Qzero ((x1 + - x0) / ((t1 + - t0) / 15 / m))) eqn:Z; simpl.
  - qprop. unfold Qminus. rewrite Z. reflexivity.
  - reflexivity.
Qed.

(** With no time elapsed and the pointer where it was, the quotient is
    [NaN] and the estimate 0. *)
Lemma velocity_at_rest (x0 x1 t0 t1 m : Q) :
  (t0 == t1)%Q -> (x0 == x1)%Q -> ~ (m == 0)%Q ->
  ((Fin x1 - Fin x0) / (((Fin t1 - Fin t0) / Fin 15) / Fin m)) ||| Fin 0
  = Fin 0.
Proof.
  intros Ht Hx Hm. simpl.
  replace (Qzero m) with false by (symmetry; qprop; exact Hm).
  simpl.
  assert (HD : ((t1 + - t0) / 15 / m == 0)%Q).
  { assert (E : (t1 + - t0 == 0)%Q) by lra. rewrite E. field. exact Hm. }
  replace (Qzero ((t1 + - t0) / 15 / m)) with true by (symmetry; qprop; exact HD).
  replace (Qzero (x1 + - x0)) with true by (symmetry; qprop; lra).
  reflexivity.
Qed.

(** With no time elapsed and the pointer moved, the quotient is infinite
    and so is the estimate: [Infinity || 0] is [Infinity]. *)
Lemma velocity_no_time (x0 x1 t0 t1 m : Q) :
  (t0 == t1)%Q -> ~ (x0 == x1)%Q -> ~ (m == 0)%Q ->
  ((Fin x1 - Fin x0) / (((Fin t1 - Fin t0) / Fin 15) / Fin m)) ||| Fin 0
  = of_sign (Qltb 0 (x1 + - x0)).
Proof.
  intros Ht Hx Hm. simpl.
  replace (Qzero m) with false by (symmetry; qprop; exact Hm).
  simpl.
  assert (HD : ((t1 + - t0) / 15 / m == 0)%Q).
  { assert (E : (t1 + - t0 == 0)%Q) by lra. rewrite E. field. exact Hm. }
  replace (Qzero ((t1 + - t0) / 15 / m)) with true by (symmetry; qprop; exact HD).
  replace (Qzero (x1 + - x0)) with false by (symmetry; qprop; lra).
  destruct (Qltb 0 (x1 + - x0)); reflexivity.
Qed.

(** C2 at the failing input: press at [(0, 0)], drag to [(10, 0)] and
    release, all at time 0.  The oldest and the newest retained points
    are [(0, 0)] and [(10, 0)] with the same time, the stored velocity is
    [Infinity], the deceleration starts and its first step sends the
    target to [Infinity]. *)
Theorem release_velocity_infinite :
  let e := run [Down (Fin 0) (mouseAt 0 0); Move (Fin 0) (mouseAt 10 0); Frame]
             (instance defaults) in
  let e' := step (Up (Fin 0) (mouseAt 10 0)) e in
  hd_error (e.(options).(trackingPoints)) = Some (Point.mk (Fin 0) (Fin 0) (Fin 0))
  /\ e.(options).(pointerLastX) = Fin 10
  /\ last (e'.(options).(trackingPoints)) (Point.mk NaN NaN NaN)
     = Point.mk (Fin 10) (Fin 0) (Fin 0)
  /\ e'.(options).(decVelX) = PInf
  /\ e'.(options).(decVelY) = Fin 0
  /\ e'.(options).(decelerating) = true
  /\ (runFrame e').(options).(targetX) = PInf.
Proof. vm_compute. repeat split; reflexivity. Qed.

(* ================================================================= *)
(** ** Cancelling and destroying *)

Lemma filter_In_frames (h : handle) (fs : list (handle * Callback))
  (f : handle * Callback) :
  In f (filter (fun f => negb (Pos.eqb (fst f) h)) fs) ->
  In f fs /\ fst f <> h.
Proof.
  intro H. apply filter_In in H. destruct H as [H1 H2]. split; [exact H1|].
  apply negb_true_iff in H2. now apply Pos.eqb_neq.
Qed.

(** [cancel] empties both slots and takes the frames they held off the
    queue; when every pending frame was held by a slot, none is left. *)
Lemma cancel_unschedules (e : Engine) :
  (cancel e).(stepDecelRaf) = None
  /\ (cancel e).(tickRaf) = None
  /\ (forall f, In f ((cancel e).(frames)) ->
                In f (e.(frames))
                /\ Some (fst f) <> e.(stepDecelRaf)
                /\ Some (fst f) <> e.(tickRaf))
  /\ (framesTracked e = true -> (cancel e).(frames) = []).
Proof.
  destruct e as [o s t src fr nh sl wl dl cs].
  unfold cancel, removeEventListeners, cancelAnimationFrame, framesTracked.
  assert (G : forall f, In f
                (match t with
                 | Some h => filter (fun f => negb (Pos.eqb (fst f) h))
                 | None => fun l => l
                 end
                   (match s with
                    | Some h => filter (fun f => negb (Pos.eqb (fst f) h))
                    | None => fun l => l
                    end fr)) ->
              In f fr /\ Some (fst f) <> s /\ Some (fst f) <> t).
  { intros f H. destruct t as [ht|], s as [hs|]; cbv beta in H;
      repeat match goal with
             | H : In _ (filter _ _) |- _ =>
                 apply filter_In_frames in H; destruct H
             end; repeat split; try assumption; try discriminate;
      let E := fresh in intro E; injection E as E; contradiction. }
  destruct s as [hs|], t as [ht|]; simpl;
    (refine (conj eq_refl (conj eq_refl (conj (G) _))));
    intro Ht;
    match goal with
    | |- ?l = [] =>
        destruct l as [|f l'] eqn:E; [reflexivity|];
        assert (I : In f l) by (rewrite E; left; reflexivity);
        rewrite <- E in *; clear E
    end;
    exfalso;
    destruct (G f I) as (Hin & Hs & Htk);
    rewrite forallb_forall in Ht; specialize (Ht f Hin);
    unfold slotHolds in Ht; destruct f as [hf cb]; simpl in *;
    destruct cb; try discriminate;
    apply Pos.eqb_eq in Ht;
    subst; solve [exact (Hs eq_refl) | exact (Htk eq_refl)].
Qed.

(** C3 at the failing input: [destroy()] while a deceleration step is
    pending (after a flick) and while a drag update is pending (after a
    move).  The frame stays in the queue and its slot keeps the handle;
    when the frame of the deceleration runs, the update callback is
    invoked and the next step requested.  [cancel()] at the same states
    leaves no frame. *)
Theorem destroy_leaves_frames_pending :
  (let e := run (flick 10 50) (instance defaults) in
   e.(frames) = [(2%positive, StepDecelAnim)]
   /\ (destroy e).(frames) = [(2%positive, StepDecelAnim)]
   /\ (destroy e).(stepDecelRaf) = Some 2%positive
   /\ length ((runFrame (destroy e)).(calls)) = S (length ((destroy e).(calls)))
   /\ (runFrame (destroy e)).(frames) = [(3%positive, StepDecelAnim)]
   /\ (cancel e).(frames) = [])
  /\ (let e := run [Down (Fin 0) (mouseAt 0 0); Move (Fin 5) (mouseAt 10 0)]
                 (instance defaults) in
      e.(frames) = [(1%positive, UpdateAndRender)]
      /\ (destroy e).(frames) = [(1%positive, UpdateAndRender)]
      /\ (destroy e).(tickRaf) = Some 1%positive
      /\ length ((runFrame (destroy e)).(calls))
         = S (length ((destroy e).(calls)))
      /\ (cancel e).(frames) = []).
Proof. vm_compute. repeat split; reflexivity. Qed.

(** A frame [cancel()] cannot reach: a second release while the step of
    the first is still pending overwrites the slot, and [cancel()] takes
    only the newer frame off the queue. *)
Lemma cancel_leaves_orphan_frame :
  let e := run [SetValue (Some (Fin 150)) None;
                Down (Fin 0) (mouseAt 0 0); Up (Fin 0) (mouseAt 0 0);
                Down (Fin 1) (mouseAt 0 0); Up (Fin 1) (mouseAt 0 0)]
             (instance bounceConfig) in
  e.(frames) = [(1%positive, StepDecelAnim); (2%positive, StepDecelAnim)]
  /\ e.(stepDecelRaf) = Some 2%positive
  /\ (cancel e).(frames) = [(1%positive, StepDecelAnim)]
  /\ (runFrame (cancel e)).(calls) = (cancel e).(calls).
Proof. vm_compute. repeat split; reflexivity. Qed.

(* ================================================================= *)
(** ** The deceleration step at sample releases *)

Lemma checkBounds_overflow (e : Engine) (o : Options) :
  (fst (checkBounds false (set_options o e))).(Diff.x) = overflowX o
  /\ (fst (checkBounds false (set_options o e))).(Diff.y) = overflowY o.
Proof. rewrite checkBounds_false. destruct e. split; reflexivity. Qed.

(** [stepDecelAnim_phase] at the first step after a flick at velocity 3:
    the velocity becomes 2.76 and moves the target from 10 to 12.76; it
    is still above the threshold, so the step goes on, calls the update
    callback with the new target and requests the next step. *)
Lemma stepDecelAnim_phase_witness :
  let e := run (flick 10 50) (instance defaults) in
  let e' := stepDecelAnim e in
  e.(options).(decelerating) = true
  /\ e'.(options) = integrate (e.(options))
  /\ (e'.(options).(decVelX) === Fin 2.76) = true
  /\ (e'.(options).(targetX) === Fin 12.76) = true
  /\ e'.(calls) = Update (e'.(options)) :: e.(calls)
  /\ e'.(options).(decelerating) = true
  /\ e'.(stepDecelRaf) = Some (e.(nextHandle))
  /\ e'.(frames) = e.(frames) ++ [(e.(nextHandle), StepDecelAnim)].
Proof.
  intros e e'. subst e'.
  assert (Hd : e.(options).(decelerating) = true) by (vm_compute; reflexivity).
  destruct (stepDecelAnim_phase e Hd) as (_ & _ & Hgo & _).
  match type of Hgo with
  | ?A -> _ => assert (Hs : A) by (vm_compute; reflexivity)
  end.
  destruct (Hgo Hs) as (_ & _ & Hc & Hk & Hr & Hf & _).
  refine (conj Hd (conj _ (conj _ (conj _ (conj Hc (conj Hk (conj Hr Hf))))))).
  - vm_compute. reflexivity.
  - vm_compute. reflexivity.
  - vm_compute. reflexivity.
Defined.

(** [stepDecelAnim_bounce] at a release beyond the upper bound: the
    target is at 120 with [boundX = [0, 100]] when a drag of 10 is
    released at velocity 5; the overflow is negative, the velocity
    positive, and the step pulls the velocity back by [o * 0.04]. *)
Lemma stepDecelAnim_bounce_witness :
  let e := run (SetValue (Some (Fin 120)) None :: flick 10 30)
             (instance bounceConfig) in
  let o := overflowX (integrate (e.(options))) in
  let vel := (integrate (e.(options))).(decVelX) in
  e.(options).(decelerating) = true
  /\ e.(options).(bounce) = true
  /\ stopCondition (e.(options)) = false
  /\ (o <? Fin 0) = true
  /\ (Fin 0 <? vel) = true
  /\ (o !== Fin 0) = true
  /\ (o * vel <=? Fin 0) = true
  /\ (stepDecelAnim e).(options).(decVelX) = vel + o * Fin 0.04.
Proof.
  intros e o vel.
  assert (Hd : e.(options).(decelerating) = true) by (vm_compute; reflexivity).
  assert (Hb : e.(options).(bounce) = true) by (vm_compute; reflexivity).
  assert (Hs : stopCondition (e.(options)) = false)
    by (vm_compute; reflexivity).
  assert (Ho : (o <? Fin 0) = true) by (vm_compute; reflexivity).
  assert (Hv : (Fin 0 <? vel) = true) by (vm_compute; reflexivity).
  assert (Hne : (o !== Fin 0) = true) by (vm_compute; reflexivity).
  assert (Hle : (o * vel <=? Fin 0) = true) by (vm_compute; reflexivity).
  destruct (stepDecelAnim_bounce e Hd Hb Hs) as [HX _].
  destruct (HX o vel
              (eq_sym (proj1 (checkBounds_overflow e (integrate (e.(options))))))
              eq_refl Hne) as [H1 _].
  exact (conj Hd (conj Hb (conj Hs (conj Ho (conj Hv (conj Hne
           (conj Hle (H1 Hle)))))))).
Defined.

(* ================================================================= *)
(** ** The tracking points *)

Lemma dropExpired_suffix (now : num) (points : list Point.t) :
  exists dropped, points = dropped ++ dropExpired now points.
Proof.
  induction points as [|p rest [d IH]]; [exists []; reflexivity|].
  simpl. destruct (_ <=? _).
  - exists []. reflexivity.
  - exists (p :: d). simpl. now rewrite <- IH.
Qed.

Lemma dropExpired_head (now : num) (points : list Point.t) :
  dropExpired now points = []
  \/ exists p rest, dropExpired now points = p :: rest
                    /\ (now - p.(Point.time) <=? Fin 100) = true.
Proof.
  induction points as [|p rest IH]; [left; reflexivity|].
  simpl. destruct (_ <=? _) eqn:E; [|exact IH].
  right. exists p, rest. split; [reflexivity|exact E].
Qed.

Lemma sub_self_recent (now : num) :
  is_finite now -> (now - now <=? Fin 100) = true.
Proof.
  destruct now as [q| | |]; try contradiction. intros _. simpl. qprop. lra.
Qed.

Lemma addTrackingPoint_points (now x y : num) (e : Engine) :
  (addTrackingPoint now x y e).(options).(trackingPoints)
  = dropExpired now (e.(options).(trackingPoints)) ++ [Point.mk x y now].
Proof. destruct e as [[] ]. reflexivity. Qed.

(** X1. [addTrackingPoint] only shifts points off the front and pushes
    the new one at the back: what it keeps is a suffix of the old list,
    the new point is the last, and the oldest retained point is at most
    100 ms older than the clock. *)
Theorem addTrackingPoint_window (now x y : num) (e : Engine) :
  is_finite now ->
  let points := (addTrackingPoint now x y e).(options).(trackingPoints) in
  (exists dropped kept,
      e.(options).(trackingPoints) = dropped ++ kept
      /\ points = kept ++ [Point.mk x y now])
  /\ (forall d, last points d = Point.mk x y now)
  /\ (exists p rest,
         points = p :: rest /\ (now - p.(Point.time) <=? Fin 100) = true).
Proof.
  intros Hf points. subst points. rewrite addTrackingPoint_points.
  split; [|split].
  - destruct (dropExpired_suffix now (e.(options).(trackingPoints))) as [d Hd].
    exists d, (dropExpired now (e.(options).(trackingPoints))).
    split; [exact Hd|reflexivity].
  - intro d. apply last_last.
  - destruct (dropExpired_head now (e.(options).(trackingPoints)))
      as [-> | (p & rest & -> & H)].
    + exists (Point.mk x y now), []. split; [reflexivity|].
      simpl Point.time. now apply sub_self_recent.
    + exists p, (rest ++ [Point.mk x y now]). split; [reflexivity|exact H].
Qed.

Lemma addTrackingPoint_window_witness :
  let e := run [Down (Fin 0) (mouseAt 0 0); Move (Fin 60) (mouseAt 4 0)]
             (instance defaults) in
  is_finite (Fin 130)
  /\ e.(options).(trackingPoints)
     = [Point.mk (Fin 0) (Fin 0) (Fin 0); Point.mk (Fin 0) (Fin 0) (Fin 60)]
  /\ (addTrackingPoint (Fin 130) (Fin 4) (Fin 0) e).(options).(trackingPoints)
     = [Point.mk (Fin 0) (Fin 0) (Fin 60); Point.mk (Fin 4) (Fin 0) (Fin 130)]
  /\ (forall d,
         last ((addTrackingPoint (Fin 130) (Fin 4) (Fin 0) e)
               .(options).(trackingPoints)) d
         = Point.mk (Fin 4) (Fin 0) (Fin 130)).
Proof.
  intro e.
  destruct (@addTrackingPoint_window (Fin 130) (Fin 4) (Fin 0) e I)
    as (_ & Hl & _).
  refine (conj I (conj _ (conj _ Hl))); vm_compute; reflexivity.
Defined.

Lemma le_trans_recent (now a b : num) :
  is_finite now -> (a <=? b) = true -> (now - a <=? Fin 100) = true ->
  (now - b <=? Fin 100) = true.
Proof.
  destruct now as [n| | |]; try contradiction. intros _.
  destruct a as [p| | |], b as [q| | |]; simpl; try discriminate;
    try reflexivity.
  intros H1 H2. qprop. lra.
Qed.

Lemma dropExpired_recent (now : num) (points : list Point.t) :
  is_finite now -> sortedTimes points = true ->
  recent now (dropExpired now points) = true.
Proof.
  intros Hf. induction points as [|p rest IH]; [reflexivity|].
  intro Hs. simpl in Hs. apply andb_true_iff in Hs. destruct Hs as [Hp Hs].
  simpl. destruct (_ <=? _) eqn:E; [|exact (IH Hs)].
  unfold recent. simpl. rewrite E. simpl.
  apply forallb_forall. intros q Hq.
  rewrite forallb_forall in Hp.
  apply (@le_trans_recent now _ _ Hf (Hp q Hq) E).
Qed.

Lemma dropExpired_sorted (now : num) (points : list Point.t) :
  sortedTimes points = true -> sortedTimes (dropExpired now points) = true.
Proof.
  induction points as [|p rest IH]; [reflexivity|].
  intro Hs. simpl. destruct (_ <=? _); [exact Hs|].
  simpl in Hs. apply andb_true_iff in Hs. tauto.
Qed.

Lemma dropExpired_upTo (now : num) (points : list Point.t) :
  upTo now points = true -> upTo now (dropExpired now points) = true.
Proof.
  induction points as [|p rest IH]; [reflexivity|].
  intro Hs. simpl. destruct (_ <=? _); [exact Hs|].
  unfold upTo in Hs. simpl in Hs. apply andb_true_iff in Hs. tauto.
Qed.

Lemma sortedTimes_snoc (now : num) (points : list Point.t) (p : Point.t) :
  sortedTimes points = true -> upTo now points = true ->
  p.(Point.time) = now -> (now <=? now) = true ->
  sortedTimes (points ++ [p]) = true.
Proof.
  intros Hs Hu Hp Hn. induction points as [|q rest IH]; [reflexivity|].
  simpl in *. apply andb_true_iff in Hs. destruct Hs as [Hq Hs].
  unfold upTo in Hu. simpl in Hu. apply andb_true_iff in Hu.
  destruct Hu as [Hqn Hu].
  rewrite forallb_app, Hq, (IH Hs Hu). simpl. now rewrite Hp, Hqn.
Qed.

(** X2. With a clock that does not run backwards the tracking points
    stay in the order of their times, and after [addTrackingPoint] every
    retained point, not only the oldest, is at most 100 ms older than the
    newest. *)
Theorem addTrackingPoint_chronological (now x y : num) (e : Engine) :
  is_finite now ->
  sortedTimes (e.(options).(trackingPoints)) = true ->
  upTo now (e.(options).(trackingPoints)) = true ->
  let points := (addTrackingPoint now x y e).(options).(trackingPoints) in
  sortedTimes points = true
  /\ upTo now points = true
  /\ recent now points = true.
Proof.
  intros Hf Hs Hu points. subst points. rewrite addTrackingPoint_points.
  assert (Hn : (now <=? now) = true)
    by (destruct now as [q| | |]; try contradiction; simpl; qprop; lra).
  split; [|split].
  - apply (@sortedTimes_snoc now);
      auto using dropExpired_sorted, dropExpired_upTo.
  - unfold upTo. rewrite forallb_app.
    fold (upTo now (dropExpired now (e.(options).(trackingPoints)))).
    rewrite (@dropExpired_upTo now _ Hu). simpl. now rewrite Hn.
  - unfold recent. rewrite forallb_app.
    fold (recent now (dropExpired now (e.(options).(trackingPoints)))).
    rewrite (@dropExpired_recent now _ Hf Hs). simpl.
    now rewrite (@sub_self_recent now Hf).
Qed.

Lemma addTrackingPoint_chronological_witness :
  let e := run [Down (Fin 0) (mouseAt 0 0); Move (Fin 60) (mouseAt 4 0);
                Frame; Move (Fin 90) (mouseAt 7 0)]
             (instance defaults) in
  is_finite (Fin 130)
  /\ sortedTimes (e.(options).(trackingPoints)) = true
  /\ upTo (Fin 130) (e.(options).(trackingPoints)) = true
  /\ length (e.(options).(trackingPoints)) = 3%nat
  /\ recent (Fin 130)
       ((addTrackingPoint (Fin 130) (Fin 7) (Fin 0) e)
        .(options).(trackingPoints)) = true
  /\ length ((addTrackingPoint (Fin 130) (Fin 7) (Fin 0) e)
             .(options).(trackingPoints)) = 3%nat.
Proof.
  intro e.
  assert (Hs : sortedTimes (e.(options).(trackingPoints)) = true)
    by (vm_compute; reflexivity).
  assert (Hu : upTo (Fin 130) (e.(options).(trackingPoints)) = true)
    by (vm_compute; reflexivity).
  destruct (@addTrackingPoint_chronological (Fin 130) (Fin 7) (Fin 0) e I Hs Hu)
    as (_ & _ & Hr).
  refine (conj I (conj Hs (conj Hu (conj _ (conj Hr _))))); vm_compute;
    reflexivity.
Defined.

Lemma or_else_not_nan (a : num) : a ||| Fin 0 <> NaN.
Proof. unfold or_else. destruct a; simpl; try discriminate. destruct (negb _); discriminate. Qed.

Lemma stopTracking_options (now : num) (e : Engine) :
  (stopTracking now e).(options)
  = (startDecelAnim
       (addTrackingPoint now (e.(options).(pointerLastX))
          (e.(options).(pointerLastY))
          (with_options (set_pointerActive false) e))).(options).
Proof.
  unfold stopTracking, removeEventListeners.
  match goal with
  | |- options (set_documentListening false ?x) = _ =>
      change (options (set_documentListening false x)) with (options x)
  end.
  destruct e as [[] ]. reflexivity.
Qed.

(** X3. The velocity a release stores is never [NaN], whatever the
    state, the pointer positions and the clock: [stopTracking] always
    finds a tracking point, and [|| 0] replaces a [NaN] quotient. *)
Theorem stopTracking_velocity_not_nan (now : num) (e : Engine) :
  (stopTracking now e).(options).(decVelX) <> NaN
  /\ (stopTracking now e).(options).(decVelY) <> NaN.
Proof.
  rewrite stopTracking_options.
  set (e1 := addTrackingPoint _ _ _ _).
  destruct (e1.(options).(trackingPoints)) as [|p rest] eqn:E.
  - exfalso. subst e1. rewrite addTrackingPoint_points in E.
    destruct (dropExpired now _); discriminate.
  - destruct (@startDecelAnim_velocity e1 p rest E) as [-> ->].
    split; apply or_else_not_nan.
Qed.

(* ================================================================= *)
(** ** Press and release *)

Lemma sameId_refl (a : option Z) : sameId a a = true.
Proof. destruct a; simpl; [apply Z.eqb_refl|reflexivity]. Qed.

Lemma still_quotient (x D : num) : ((x - x) / D) ||| Fin 0 = Fin 0.
Proof.
  destruct x as [q| | |]; try (destruct D; reflexivity).
  assert (Z : Qzero (q + - q) = true) by (qprop; lra).
  destruct D as [d| | |]; simpl; unfold or_else; simpl.
  - destruct (Qzero d) eqn:Hd; rewrite ?Z; simpl; [reflexivity|].
    replace (Qzero ((q + - q) / d)) with true; [reflexivity|].
    symmetry. qprop. assert (E : (q + - q == 0)%Q) by lra. rewrite E.
    field. exact Hd.
  - reflexivity.
  - reflexivity.
  - reflexivity.
Qed.

Lemma abs_zero_gt : (abs (Fin 0) >? Fin 1) = false.
Proof. reflexivity. Qed.

(** Closed form of [startDecelAnim] on a non-empty tracking list. *)
Lemma startDecelAnim_eq (e : Engine) (firstPoint : Point.t)
  (rest : list Point.t) :
  e.(options).(trackingPoints) = firstPoint :: rest ->
  let lastPoint := last (firstPoint :: rest) firstPoint in
  let D := ((lastPoint.(Point.time) - firstPoint.(Point.time)) / Fin 15)
           / e.(options).(multiplier) in
  let vx := ((lastPoint.(Point.x) - firstPoint.(Point.x)) / D) ||| Fin 0 in
  let vy := ((lastPoint.(Point.y) - firstPoint.(Point.y)) / D) ||| Fin 0 in
  let o := set_decVelY vy (set_decVelX vx (e.(options))) in
  startDecelAnim e
  = if (abs vx >? Fin 1) || (abs vy >? Fin 1)
       || negb ((overflowX o === Fin 0) && (overflowY o === Fin 0))
    then mkEngine (set_decelerating true o) (Some (e.(nextHandle)))
           (e.(tickRaf)) (e.(sourceEl))
           (e.(frames) ++ [(e.(nextHandle), StepDecelAnim)])
           (Pos.succ (e.(nextHandle))) (e.(sourceListening))
           (e.(wheelListening)) (e.(documentListening)) (e.(calls))
    else set_options o e.
Proof.
  destruct e as [o s t src fr nh sl wl dl cs]. destruct o.
  cbn [options trackingPoints]. intros ->.
  unfold startDecelAnim, checkBounds, overflowX, overflowY.
  cbn -[or_else div sub abs gt seq axisDiff last].
  match goal with
  | |- (if ?c then _ else _) = _ => destruct c
  end; reflexivity.
Qed.

Lemma callHook_options (present : bool) (c : Call) (e : Engine) :
  (callHook present c e).(options) = e.(options).
Proof. destruct present, e; reflexivity. Qed.

(** The options after a pointer down that starts tracking. *)
Lemma onDown_options (now : num) (ev : Ev.Raw) (e : Engine) :
  e.(options).(pointerActive) = false ->
  e.(options).(paused) = false ->
  let event := normalizeEvent ev in
  (onDown now ev e).(options)
  = set_trackingPoints [Point.mk (event.(Ev.x)) (event.(Ev.y)) now]
      (set_pointerLastY (event.(Ev.y))
         (set_pointerLastX (event.(Ev.x))
            (set_pointerCurrentY (event.(Ev.y))
               (set_pointerCurrentX (event.(Ev.x))
                  (set_pointerId (event.(Ev.id))
                     (set_decelerating false
                        (set_pointerActive true (e.(options))))))))).
Proof.
  destruct e as [o s t src fr nh sl wl dl cs]. destruct o.
  cbn [options pointerActive paused]. intros -> ->.
  unfold onDown, callHook. cbn [options pointerActive paused negb andb onDownHook].
  destruct onDownHook0; vm_compute; reflexivity.
Qed.

(** The options after a release with one tracked point, the pointer
    still where that point is. *)
Lemma stopTracking_still (now t0 x y : num) (e : Engine) :
  e.(options).(trackingPoints) = [Point.mk x y t0] ->
  e.(options).(pointerLastX) = x ->
  e.(options).(pointerLastY) = y ->
  let o' := (stopTracking now e).(options) in
  o'.(decVelX) = Fin 0 /\ o'.(decVelY) = Fin 0
  /\ o'.(pointerActive) = false
  /\ o'.(targetX) = e.(options).(targetX)
  /\ o'.(targetY) = e.(options).(targetY)
  /\ o'.(decelerating)
     = (negb ((overflowX (e.(options)) === Fin 0)
              && (overflowY (e.(options)) === Fin 0))
        || e.(options).(decelerating)).
Proof.
  intros Hp Hx Hy o'. subst o'. rewrite stopTracking_options.
  destruct e as [o s t src fr nh sl wl dl cs]. destruct o.
  cbn [options trackingPoints pointerLastX pointerLastY] in Hp, Hx, Hy.
  subst.
  set (e1 := addTrackingPoint _ _ _ _).
  assert (E : e1.(options).(trackingPoints)
              = dropExpired now [Point.mk x y t0] ++ [Point.mk x y now])
    by reflexivity.
  assert (O : e1.(options)
              = set_trackingPoints (e1.(options).(trackingPoints))
                  (set_pointerActive false
                     (mkOptions bounce0 friction0 multiplier0 onDownHook0
                        onUpHook0 stopThreshold0 targetX0 targetY0 paused0
                        ticking0 decelerating0 pointerActive0
                        [Point.mk x y t0] pointerCurrentX0 pointerCurrentY0
                        x y boundXmin0 boundXmax0 boundYmin0 boundYmax0
                        pointerId0 decVelX0 decVelY0)))
    by reflexivity.
  simpl dropExpired in E.
  destruct (now - t0 <=? Fin 100);
    cbn [app] in E;
    rewrite (startDecelAnim_eq e1 E); cbv zeta;
    cbn [last Point.x Point.y]; rewrite !still_quotient, abs_zero_gt;
    cbn [orb]; rewrite O, E;
    unfold overflowX, overflowY;
    cbn -[or_else div sub abs gt seq axisDiff];
    destruct (negb _); repeat split.
Qed.

(** X4. A tap, a pointer down followed by the up of the same pointer
    with no move in between, stores the velocity 0 on both axes at any
    two clock values, leaves the target where it is, and starts the
    deceleration exactly when the target is out of bounds. *)
Theorem tap_starts_nothing (now0 now1 : num) (ev : Ev.Raw) (e : Engine) :
  e.(options).(pointerActive) = false ->
  e.(options).(paused) = false ->
  let e' := onUp now1 ev (onDown now0 ev e) in
  e'.(options).(decVelX) = Fin 0
  /\ e'.(options).(decVelY) = Fin 0
  /\ e'.(options).(pointerActive) = false
  /\ e'.(options).(targetX) = e.(options).(targetX)
  /\ e'.(options).(targetY) = e.(options).(targetY)
  /\ e'.(options).(decelerating)
     = negb ((overflowX (e.(options)) === Fin 0)
             && (overflowY (e.(options)) === Fin 0)).
Proof.
  intros Ha Hp e'. subst e'.
  pose proof (onDown_options now0 ev e Ha Hp) as Ho. cbv zeta in Ho.
  set (e1 := onDown now0 ev e) in *.
  unfold onUp. rewrite Ho.
  cbn [pointerActive pointerId set_trackingPoints set_pointerLastY
       set_pointerLastX set_pointerCurrentY set_pointerCurrentX set_pointerId
       set_decelerating set_pointerActive].
  rewrite sameId_refl. cbn [andb].
  set (e2 := callHook _ UpHook e1).
  assert (Ho2 : e2.(options) = e1.(options)) by apply callHook_options.
  destruct (@stopTracking_still now1 now0 (Ev.x (normalizeEvent ev))
              (Ev.y (normalizeEvent ev)) e2)
    as (Vx & Vy & Pa & Tx & Ty & Dc).
  - rewrite Ho2, Ho. reflexivity.
  - rewrite Ho2, Ho. reflexivity.
  - rewrite Ho2, Ho. reflexivity.
  - rewrite Ho2, Ho in Tx, Ty, Dc.
    refine (conj Vx (conj Vy (conj Pa (conj _ (conj _ _))))).
    + rewrite Tx. destruct e as [[] ]. reflexivity.
    + rewrite Ty. destruct e as [[] ]. reflexivity.
    + rewrite Dc. destruct e as [[] ]. cbn. apply orb_false_r.
Qed.

Lemma tap_starts_nothing_witness :
  let e := setValue (Some (Fin 150)) None (instance bounceConfig) in
  let e' := onUp (Fin 7) (mouseAt 3 4) (onDown (Fin 0) (mouseAt 3 4) e) in
  e.(options).(pointerActive) = false
  /\ e.(options).(paused) = false
  /\ e'.(options).(decVelX) = Fin 0
  /\ e'.(options).(targetX) = Fin 150
  /\ e'.(options).(decelerating) = true.
Proof.
  intros e e'.
  assert (Ha : e.(options).(pointerActive) = false) by reflexivity.
  assert (Hp : e.(options).(paused) = false) by reflexivity.
  destruct (@tap_starts_nothing (Fin 0) (Fin 7) (mouseAt 3 4) e Ha Hp)
    as (Vx & _ & _ & Tx & _ & Dc).
  refine (conj Ha (conj Hp (conj Vx (conj _ _)))).
  - refine (eq_trans Tx _). reflexivity.
  - refine (eq_trans Dc _). vm_compute. reflexivity.
Defined.

(* ================================================================= *)
(** ** One pointer at a time, pause and cancel *)

(** While a pointer is tracked, another pointer down is ignored, and so
    are the move and the up of a pointer whose id is not the tracked
    one. *)
Lemma other_pointer_ignored (now : num) (ev : Ev.Raw) (e : Engine) :
  e.(options).(pointerActive) = true ->
  onDown now ev e = e
  /\ (sameId ((normalizeEvent ev).(Ev.id)) (e.(options).(pointerId)) = false ->
      onMove now ev e = e /\ onUp now ev e = e).
Proof.
  intro Ha. unfold onDown, onMove, onUp. rewrite Ha. cbn [negb andb].
  split; [reflexivity|]. intros ->. split; reflexivity.
Qed.

Lemma other_pointer_ignored_witness :
  let e := onDown (Fin 0) (Ev.mkRaw true (Fin 1) (Fin 2) 7 None)
             (instance defaults) in
  let finger := Ev.mkRaw true (Fin 5) (Fin 5) 8 None in
  e.(options).(pointerActive) = true
  /\ e.(options).(pointerId) = Some 7%Z
  /\ onDown (Fin 1) finger e = e
  /\ onMove (Fin 1) finger e = e
  /\ onUp (Fin 1) finger e = e
  /\ onMove (Fin 1) (mouseAt 5 5) e = e.
Proof.
  intros e finger.
  assert (Ha : e.(options).(pointerActive) = true) by reflexivity.
  destruct (@other_pointer_ignored (Fin 1) finger e Ha) as [Hd Hm].
  destruct (Hm eq_refl) as [Hmove Hup].
  destruct (@other_pointer_ignored (Fin 1) (mouseAt 5 5) e Ha) as [_ Hm'].
  destruct (Hm' eq_refl) as [Hmouse _].
  exact (conj Ha (conj eq_refl (conj Hd (conj Hmove (conj Hup Hmouse))))).
Defined.

(** X6. After [pause()] a pointer down, move or up changes nothing,
    whatever the state was.  [pause()] itself touches only
    [pointerActive] and [paused]: pending frames, a running
    deceleration, the velocity and the target stay as they are.  After
    [resume()] a pointer down starts tracking again. *)
Theorem pause_gates_pointer (now : num) (ev : Ev.Raw) (e : Engine) :
  onDown now ev (pause e) = pause e
  /\ onMove now ev (pause e) = pause e
  /\ onUp now ev (pause e) = pause e
  /\ pause e
     = set_options (set_paused true (set_pointerActive false (e.(options)))) e
  /\ (onDown now ev (resume (pause e))).(options).(pointerActive) = true.
Proof.
  destruct e as [o s t src fr nh sl wl dl cs]. destruct o.
  unfold onDown, onMove, onUp, pause, resume, callHook.
  cbn [with_options set_options options set_paused set_pointerActive
       pointerActive paused negb andb onDownHook].
  refine (conj eq_refl (conj eq_refl (conj eq_refl (conj eq_refl _)))).
  destruct onDownHook0; reflexivity.
Qed.

Lemma cancel_fields (e : Engine) :
  (cancel e).(options)
  = set_decVelY (Fin 0)
      (set_decVelX (Fin 0)
         (set_ticking false
            (set_pointerActive false
               (set_decelerating false (e.(options))))))
  /\ (cancel e).(tickRaf) = None
  /\ (cancel e).(nextHandle) = e.(nextHandle).
Proof.
  destruct e as [o s t src fr nh sl wl dl cs]. destruct o.
  unfold cancel, removeEventListeners, cancelAnimationFrame.
  destruct s, t; vm_compute; repeat split; reflexivity.
Qed.

(** X7. [cancel()] leaves the instance idle: no phase flag, no velocity,
    both slots empty, the document listeners removed, while the target,
    the pause, the listeners on the source and the trace of callbacks
    are untouched; and calling it again changes nothing. *)
Theorem cancel_idle (e : Engine) :
  let c := cancel e in
  c.(options)
  = set_decVelY (Fin 0)
      (set_decVelX (Fin 0)
         (set_ticking false
            (set_pointerActive false
               (set_decelerating false (e.(options))))))
  /\ c.(stepDecelRaf) = None /\ c.(tickRaf) = None
  /\ c.(documentListening) = false
  /\ c.(sourceListening) = e.(sourceListening)
  /\ c.(wheelListening) = e.(wheelListening)
  /\ c.(calls) = e.(calls)
  /\ c.(nextHandle) = e.(nextHandle)
  /\ cancel c = c.
Proof.
  destruct e as [o s t src fr nh sl wl dl cs]. destruct o.
  unfold cancel, removeEventListeners, cancelAnimationFrame.
  destruct s, t; vm_compute; repeat split; reflexivity.
Qed.

(* ================================================================= *)
(** ** The drag-update slot *)

Lemma tickTracked_same (e e' : Engine) :
  sameSchedule e e' -> tickTracked e -> tickTracked e'.
Proof.
  intros (Hf & Hn & Ht & Hk) (T & B & D). unfold tickTracked.
  rewrite Hf, Hn, Ht, Hk. auto.
Qed.

Lemma NoDup_snoc_fresh (fs : list (handle * Callback)) (n : handle)
  (cb : Callback) :
  (forall f, In f fs -> (fst f < n)%positive) ->
  NoDup (map fst fs) -> NoDup (map fst (fs ++ [(n, cb)])).
Proof.
  intros B D. rewrite map_app. simpl.
  apply NoDup_app; [exact D|constructor; [intros []|constructor]|].
  intros h Hin [<-|[]]. apply in_map_iff in Hin.
  destruct Hin as (f & Hf & Hin). specialize (B f Hin). rewrite Hf in B.
  lia.
Qed.

Lemma tickTracked_pushedDecel (e e' : Engine) :
  pushedDecel e e' -> tickTracked e -> tickTracked e'.
Proof.
  intros (Hf & Hn & Ht & Hk) (T & B & D). unfold tickTracked.
  rewrite Hf, Hn, Ht, Hk. split; [|split].
  - intros h Hin. apply in_app_or in Hin. destruct Hin as [Hin|[Hin|[]]].
    + auto.
    + discriminate.
  - intros f Hin. apply in_app_or in Hin. destruct Hin as [Hin|[<-|[]]].
    + specialize (B f Hin). lia.
    + simpl. lia.
  - now apply NoDup_snoc_fresh.
Qed.

Lemma tickTracked_pushedTick (e e' : Engine) :
  pushedTick e e' -> tickTracked e -> tickTracked e'.
Proof.
  intros (Hk0 & Hf & Hn & Ht & Hk) (T & B & D). unfold tickTracked.
  rewrite Hf, Hn, Ht, Hk. split; [|split].
  - intros h Hin. apply in_app_or in Hin. destruct Hin as [Hin|[Hin|[]]].
    + destruct (T h Hin) as [_ Hc]. congruence.
    + injection Hin as <-. auto.
  - intros f Hin. apply in_app_or in Hin. destruct Hin as [Hin|[<-|[]]].
    + specialize (B f Hin). lia.
    + simpl. lia.
  - now apply NoDup_snoc_fresh.
Qed.

Lemma NoDup_map_filter (p : handle * Callback -> bool)
  (fs : list (handle * Callback)) :
  NoDup (map fst fs) -> NoDup (map fst (filter p fs)).
Proof.
  induction fs as [|f fs IH]; [intros; constructor|].
  simpl. intro D. inversion D as [|? ? Hn D']; subst.
  destruct (p f); [|auto]. simpl. constructor; [|auto].
  intro Hin. apply Hn. apply in_map_iff in Hin.
  destruct Hin as (g & Hg & Hin). apply filter_In in Hin.
  apply in_map_iff. exists g. tauto.
Qed.

(** The queue after [cancel]. *)
Lemma cancel_frames (e : Engine) :
  (cancel e).(frames)
  = match e.(tickRaf) with
    | Some h => filter (fun f => negb (Pos.eqb (fst f) h))
    | None => fun fs => fs
    end
      (match e.(stepDecelRaf) with
       | Some h => filter (fun f => negb (Pos.eqb (fst f) h))
       | None => fun fs => fs
       end (e.(frames))).
Proof.
  destruct e as [o s t src fr nh sl wl dl cs].
  unfold cancel, removeEventListeners, cancelAnimationFrame.
  destruct s, t; reflexivity.
Qed.

Lemma cancel_frames_sub (e : Engine) (f : handle * Callback) :
  In f ((cancel e).(frames)) ->
  In f (e.(frames)) /\ Some (fst f) <> e.(tickRaf).
Proof.
  intro H. destruct (cancel_unschedules e) as (_ & _ & Hc & _).
  destruct (Hc f H) as (H1 & _ & H3). auto.
Qed.

Lemma tickTracked_cancel (e : Engine) :
  tickTracked e -> tickTracked (cancel e).
Proof.
  intros (T & B & D). unfold tickTracked.
  destruct (cancel_fields e) as (_ & Ht & Hn).
  rewrite Ht, Hn. split; [|split].
  - intros h Hin. exfalso. apply cancel_frames_sub in Hin.
    destruct Hin as [Hin Hne]. destruct (T h Hin) as [E _].
    apply Hne. simpl. now rewrite E.
  - intros f Hin. apply cancel_frames_sub in Hin. apply B. tauto.
  - rewrite cancel_frames.
    destruct (e.(tickRaf)), (e.(stepDecelRaf));
      repeat apply NoDup_map_filter; exact D.
Qed.

Lemma cancel_no_tick (e : Engine) :
  tickTracked e -> filter isTick ((cancel e).(frames)) = [].
Proof.
  intro T. pose proof (tickTracked_cancel T) as (Tc & _ & _).
  destruct (cancel_fields e) as (_ & Ht & _).
  destruct (filter isTick _) as [|[h cb] l] eqn:F; [reflexivity|].
  exfalso.
  assert (Hin : In (h, cb) (filter isTick ((cancel e).(frames))))
    by (rewrite F; left; reflexivity).
  apply filter_In in Hin. destruct Hin as [Hin Hk].
  destruct cb; [|discriminate].
  destruct (Tc h Hin) as [E _]. rewrite Ht in E. discriminate.
Qed.

Lemma sameSchedule_refl (e : Engine) : sameSchedule e e.
Proof. repeat split. Qed.

Lemma sameSchedule_then (e e1 e2 : Engine) :
  sameSchedule e e1 ->
  sameSchedule e1 e2 \/ pushedDecel e1 e2 ->
  sameSchedule e e2 \/ pushedDecel e e2.
Proof.
  intros (Hf & Hn & Ht & Hk) [(Hf' & Hn' & Ht' & Hk')|(Hf' & Hn' & Ht' & Hk')];
    [left|right]; unfold sameSchedule, pushedDecel;
    rewrite Hf', Hn', Ht', Hk', ?Hf, ?Hn, ?Ht, ?Hk; repeat split.
Qed.

Ltac schedule e :=
  destruct e as [[] ];
  cbn -[or_else div sub mul add abs gt lt le seq sne axisDiff last
        dropExpired dragOutOfBoundsMultiplier];
  repeat (match goal with
          | |- context [if ?c then _ else _] => destruct c
          end;
          cbn -[or_else div sub mul add abs gt lt le seq sne axisDiff last
                dropExpired dragOutOfBoundsMultiplier]).

Lemma onDown_schedule (now : num) (ev : Ev.Raw) (e : Engine) :
  sameSchedule e (onDown now ev e).
Proof.
  unfold sameSchedule, onDown, callHook, addTrackingPoint. schedule e;
    repeat split.
Qed.

Lemma onWheel_schedule (deltaX deltaY : num) (e : Engine) :
  sameSchedule e (onWheel deltaX deltaY e).
Proof. unfold sameSchedule, onWheel. schedule e; repeat split. Qed.

Lemma setters_schedule (e : Engine) :
  sameSchedule e (pause e) /\ sameSchedule e (resume e)
  /\ sameSchedule e (destroy e)
  /\ (forall x y, sameSchedule e (setValue x y e))
  /\ (forall v, sameSchedule e (setMultiplier v e))
  /\ (forall a b, sameSchedule e (setBoundX a b e))
  /\ (forall a b, sameSchedule e (setBoundY a b e)).
Proof.
  unfold sameSchedule, pause, resume, destroy, setValue, setMultiplier,
    setBoundX, setBoundY.
  destruct e as [[] ]. cbn.
  refine (conj _ (conj _ (conj _ (conj _ (conj _ (conj _ _))))));
    try (repeat split; fail).
  - destruct sourceEl0; repeat split.
  - intros [x|] [y|]; repeat split.
Qed.

Lemma requestTick_schedule (e : Engine) :
  sameSchedule e (requestTick e) \/ pushedTick e (requestTick e).
Proof.
  unfold requestTick, requestAnimationFrame.
  destruct (e.(options).(ticking)) eqn:Hk; [left|right];
    destruct e as [[] ]; cbn in Hk; subst; repeat split.
Qed.

Lemma sameSchedule_then_tick (e e1 e2 : Engine) :
  sameSchedule e e1 ->
  sameSchedule e1 e2 \/ pushedTick e1 e2 ->
  sameSchedule e e2 \/ pushedTick e e2.
Proof.
  intros (Hf & Hn & Ht & Hk)
    [(Hf' & Hn' & Ht' & Hk')|(Hk0 & Hf' & Hn' & Ht' & Hk')];
    [left|right]; unfold sameSchedule, pushedTick;
    rewrite Hf', Hn', Ht', Hk', ?Hf, ?Hn, ?Ht, ?Hk; repeat split.
  now rewrite <- Hk.
Qed.

Lemma onMove_schedule (now : num) (ev : Ev.Raw) (e : Engine) :
  sameSchedule e (onMove now ev e) \/ pushedTick e (onMove now ev e).
Proof.
  unfold onMove. destruct (_ && _); [|left; apply sameSchedule_refl].
  match goal with
  | |- context [requestTick ?x] =>
      apply sameSchedule_then_tick with (e1 := x);
      [|apply requestTick_schedule]
  end.
  unfold addTrackingPoint.
  destruct (notNull _); destruct e as [[] ]; repeat split.
Qed.

Lemma startDecelAnim_schedule (e : Engine) :
  sameSchedule e (startDecelAnim e) \/ pushedDecel e (startDecelAnim e).
Proof.
  destruct (e.(options).(trackingPoints)) as [|p rest] eqn:E.
  - left. unfold startDecelAnim. rewrite E. apply sameSchedule_refl.
  - rewrite (startDecelAnim_eq e E). cbv zeta.
    destruct (_ || _ || _); [right|left]; destruct e as [[] ]; repeat split.
Qed.

Lemma stopTracking_schedule (now : num) (e : Engine) :
  sameSchedule e (stopTracking now e) \/ pushedDecel e (stopTracking now e).
Proof.
  unfold stopTracking, removeEventListeners.
  set (e1 := addTrackingPoint _ _ _ _).
  assert (H1 : sameSchedule e e1) by (destruct e as [[] ]; repeat split).
  destruct (sameSchedule_then H1 (startDecelAnim_schedule e1))
    as [(A & B & C & D)|(A & B & C & D)]; [left|right];
    destruct (startDecelAnim e1); repeat split; assumption.
Qed.

Lemma onUp_schedule (now : num) (ev : Ev.Raw) (e : Engine) :
  sameSchedule e (onUp now ev e) \/ pushedDecel e (onUp now ev e).
Proof.
  unfold onUp. destruct (_ && _); [|left; apply sameSchedule_refl].
  apply sameSchedule_then with (e1 := callHook (e.(options).(onUpHook)) UpHook e).
  - unfold callHook. destruct (e.(options).(onUpHook)); destruct e; repeat split.
  - apply stopTracking_schedule.
Qed.

Lemma stepDecelAnim_schedule (e : Engine) :
  sameSchedule e (stepDecelAnim e) \/ pushedDecel e (stepDecelAnim e).
Proof.
  destruct (e.(options).(decelerating)) eqn:Hd.
  - rewrite (stepDecelAnim_eq e Hd).
    destruct (stopCondition (e.(options))); [left|right].
    + destruct e as [[] ]; repeat split.
    + repeat split. cbn [options]. unfold adjust.
      destruct e as [[] ]; cbn -[bounceVel axisDiff sne gt].
      repeat match goal with
             | |- context [if ?c then _ else _] => destruct c
             end; reflexivity.
  - left. rewrite (stepDecelAnim_idle e Hd). destruct e; repeat split.
Qed.

Lemma updateAndRender_schedule (e : Engine) :
  (updateAndRender e).(frames) = e.(frames)
  /\ (updateAndRender e).(nextHandle) = e.(nextHandle)
  /\ (updateAndRender e).(tickRaf) = None
  /\ (updateAndRender e).(options).(ticking) = false.
Proof.
  unfold updateAndRender, checkBounds. schedule e; repeat split.
Qed.

Lemma tickTracked_tail (e : Engine) (f : handle * Callback)
  (rest : list (handle * Callback)) :
  tickTracked e -> e.(frames) = f :: rest ->
  tickTracked (set_frames rest e) /\ ~ In (fst f) (map fst rest).
Proof.
  intros (T & B & D) Hf. rewrite Hf in T, B, D.
  simpl in D. inversion D as [|? ? Hn D']; subst.
  split; [|exact Hn]. unfold tickTracked.
  destruct e as [o s t src fr nh sl wl dl cs]. cbn in *.
  split; [|split]; auto.
Qed.

Lemma runFrame_tickTracked (e : Engine) :
  tickTracked e -> tickTracked (runFrame e).
Proof.
  intro H. unfold runFrame.
  destruct (e.(frames)) as [|[h cb] rest] eqn:Hf; [exact H|].
  destruct (tickTracked_tail H Hf) as [H0 Hn].
  destruct cb.
  - destruct (updateAndRender_schedule (set_frames rest e))
      as (Ff & Fn & Ft & Fk).
    destruct H as (T & _ & _). destruct H0 as (T0 & B0 & D0).
    unfold tickTracked. rewrite Ff, Fn, Ft, Fk. split; [|split]; auto.
    intros h' Hin. exfalso. apply Hn. simpl.
    assert (E1 : e.(tickRaf) = Some h)
      by (apply T; rewrite Hf; left; reflexivity).
    assert (E2 : e.(tickRaf) = Some h').
    { apply T. rewrite Hf. right. destruct e; exact Hin. }
    rewrite E1 in E2. injection E2 as ->.
    apply in_map_iff. exists (h', UpdateAndRender). split; [reflexivity|].
    destruct e; exact Hin.
  - destruct (stepDecelAnim_schedule (set_frames rest e)) as [S|S].
    + exact (tickTracked_same S H0).
    + exact (tickTracked_pushedDecel S H0).
Qed.

Lemma step_tickTracked (i : Input) (e : Engine) :
  tickTracked e -> tickTracked (step i e).
Proof.
  intro H. destruct (setters_schedule e) as (Sp & Sr & Sd & Sv & Sm & Sx & Sy).
  destruct i; simpl.
  - destruct (e.(sourceListening)); [|exact H].
    exact (tickTracked_same (onDown_schedule now ev e) H).
  - destruct (e.(documentListening)); [|exact H].
    destruct (onMove_schedule now ev e) as [S|S].
    + exact (tickTracked_same S H).
    + exact (tickTracked_pushedTick S H).
  - destruct (e.(documentListening)); [|exact H].
    destruct (onUp_schedule now ev e) as [S|S].
    + exact (tickTracked_same S H).
    + exact (tickTracked_pushedDecel S H).
  - destruct (e.(documentListening)); [|exact H].
    destruct (stopTracking_schedule now e) as [S|S].
    + exact (tickTracked_same S H).
    + exact (tickTracked_pushedDecel S H).
  - destruct (e.(wheelListening)); [|exact H].
    exact (tickTracked_same (onWheel_schedule deltaX deltaY e) H).
  - now apply runFrame_tickTracked.
  - exact (tickTracked_same Sp H).
  - exact (tickTracked_same Sr H).
  - now apply tickTracked_cancel.
  - exact (tickTracked_same Sd H).
  - exact (tickTracked_same (Sv x y) H).
  - exact (tickTracked_same (Sm val) H).
  - exact (tickTracked_same (Sx min max) H).
  - exact (tickTracked_same (Sy min max) H).
Qed.

Lemma run_tickTracked (inputs : list Input) (e : Engine) :
  tickTracked e -> tickTracked (run inputs e).
Proof.
  revert e. induction inputs as [|i inputs IH]; intros e H; [exact H|].
  simpl. apply IH, step_tickTracked, H.
Qed.

Lemma construct_frames (cfg : Config.t) (e : Engine) :
  construct cfg = Some e -> e.(frames) = [].
Proof.
  unfold construct. destruct cfg as [src upd m f b bx by_ iv od ou]. simpl.
  destruct src; [|discriminate]. destruct upd; [|discriminate]. simpl.
  intro H. injection H as <-.
  destruct iv as [[tx ty]|], bx as [[? ?]|], by_ as [[? ?]|]; simpl;
    repeat match goal with
           | |- context [if ?c then _ else _] => destruct c; simpl
           end; reflexivity.
Qed.

Lemma construct_tickTracked (cfg : Config.t) (e : Engine) :
  construct cfg = Some e -> tickTracked e.
Proof.
  intro H. unfold tickTracked. rewrite (construct_frames cfg H).
  split; [|split]; [intros ? []|intros ? []|constructor].
Qed.

Lemma one_tick (slot : option handle) (fs : list (handle * Callback)) :
  (forall h, In (h, UpdateAndRender) fs -> slot = Some h) ->
  NoDup (map fst fs) ->
  (length (filter isTick fs) <= 1)%nat.
Proof.
  induction fs as [|[h cb] fs IH]; intros T D; [simpl; lia|].
  simpl in D. inversion D as [|? ? Hn D']; subst.
  assert (T' : forall h', In (h', UpdateAndRender) fs -> slot = Some h')
    by (intros h' Hin; apply T; right; exact Hin).
  specialize (IH T' D').
  destruct cb; [|exact IH].
  change (S (length (filter isTick fs)) <= 1)%nat.
  assert (E : filter isTick fs = []).
  { destruct (filter isTick fs) as [|[h' cb'] l] eqn:F; [reflexivity|].
    exfalso.
    assert (Hin : In (h', cb') (filter isTick fs)) by (rewrite F; left; reflexivity).
    apply filter_In in Hin. destruct Hin as [Hin Hk].
    destruct cb'; [|discriminate].
    assert (E1 : slot = Some h) by (apply T; left; reflexivity).
    assert (E2 : slot = Some h') by (apply T'; exact Hin).
    rewrite E1 in E2. injection E2 as ->.
    apply Hn. apply in_map_iff. exists (h', UpdateAndRender). tauto. }
  rewrite E. simpl. lia.
Qed.

(** X8. In every state an instance can reach, at most one drag update
    is pending, it is the frame whose handle [tickRaf] holds and
    [ticking] is set while it waits; [cancel()] leaves no drag update
    pending. *)
Theorem tick_slot_tracked (cfg : Config.t) (e : Engine)
  (inputs : list Input) :
  construct cfg = Some e ->
  let s := run inputs e in
  (forall h, In (h, UpdateAndRender) (s.(frames)) ->
             s.(tickRaf) = Some h /\ s.(options).(ticking) = true)
  /\ (length (filter isTick (s.(frames))) <= 1)%nat
  /\ filter isTick ((cancel s).(frames)) = [].
Proof.
  intros H s.
  assert (T : tickTracked s) by (apply run_tickTracked, (construct_tickTracked cfg), H).
  split; [exact (proj1 T)|split].
  - apply (@one_tick (s.(tickRaf))); [|exact (proj2 (proj2 T))].
    intros h Hin. apply (proj1 T), Hin.
  - exact (cancel_no_tick T).
Qed.

Lemma tick_slot_tracked_witness :
  construct defaults = Some (instance defaults)
  /\ (let s := run [Down (Fin 0) (mouseAt 0 0); Move (Fin 5) (mouseAt 4 0);
                    Move (Fin 9) (mouseAt 8 0); Move (Fin 12) (mouseAt 9 0)]
                 (instance defaults) in
      s.(frames) = [(1%positive, UpdateAndRender)]
      /\ (length (filter isTick (s.(frames))) <= 1)%nat
      /\ filter isTick ((cancel s).(frames)) = []).
Proof.
  split; [reflexivity|]. intro s.
  destruct (@tick_slot_tracked defaults (instance defaults)
              [Down (Fin 0) (mouseAt 0 0); Move (Fin 5) (mouseAt 4 0);
               Move (Fin 9) (mouseAt 8 0); Move (Fin 12) (mouseAt 9 0)]
              eq_refl) as (_ & H1 & H2).
  exact (conj eq_refl (conj H1 H2)).
Defined.

(* ================================================================= *)
(** ** Frames that find the deceleration off *)

Lemma runFrame_quiet (e : Engine) :
  quiet e ->
  quiet (runFrame e)
  /\ (runFrame e).(options) = e.(options)
  /\ (runFrame e).(calls) = e.(calls)
  /\ (runFrame e).(frames) = tl (e.(frames)).
Proof.
  intros [Hd Hf]. unfold runFrame.
  destruct (e.(frames)) as [|[h cb] rest] eqn:E.
  - repeat split; [exact Hd|now rewrite E|now rewrite E].
  - simpl in Hf. apply andb_true_iff in Hf. destruct Hf as [Hc Hf].
    destruct cb; [discriminate|].
    rewrite stepDecelAnim_idle by (destruct e as [[] ]; exact Hd).
    destruct e as [[] ]. repeat split; assumption.
Qed.

Lemma runFrames_quiet (n : nat) (e : Engine) :
  quiet e ->
  (runFrames n e).(options) = e.(options)
  /\ (runFrames n e).(calls) = e.(calls)
  /\ (runFrames n e).(frames) = skipn n (e.(frames)).
Proof.
  revert e. induction n as [|n IH]; intros e Q; [repeat split|].
  rewrite runFrames_succ.
  destruct (runFrame_quiet Q) as (Q' & Ho & Hc & Hf).
  destruct (IH _ Q') as (Ho' & Hc' & Hf').
  rewrite Ho', Hc', Hf', Ho, Hc, Hf.
  repeat split. destruct (e.(frames)); [now rewrite skipn_nil|reflexivity].
Qed.

(** X9. After [cancel()], in any state an instance can reach, the frames
    that are still pending do nothing: however many of them run, the
    update callback is not invoked again and the options, with the
    velocity at 0, stay as [cancel()] left them. *)
Theorem cancel_silences_frames (cfg : Config.t) (e : Engine)
  (inputs : list Input) (n : nat) :
  construct cfg = Some e ->
  let c := cancel (run inputs e) in
  (runFrames n c).(calls) = c.(calls)
  /\ (runFrames n c).(options) = c.(options)
  /\ c.(options).(decVelX) = Fin 0 /\ c.(options).(decVelY) = Fin 0
  /\ c.(options).(decelerating) = false.
Proof.
  intros H c.
  assert (T : tickTracked (run inputs e))
    by (apply run_tickTracked, (construct_tickTracked cfg), H).
  pose proof (cancel_no_tick T) as Hk. fold c in Hk.
  destruct (cancel_fields (run inputs e)) as (Ho & _). fold c in Ho.
  assert (Q : quiet c).
  { split; [rewrite Ho; reflexivity|].
    apply forallb_forall. intros f Hin.
    destruct (isTick f) eqn:K; [|reflexivity]. exfalso.
    assert (Hin' : In f (filter isTick (c.(frames))))
      by (apply filter_In; tauto).
    rewrite Hk in Hin'. exact Hin'. }
  destruct (runFrames_quiet n Q) as (Ro & Rc & _).
  refine (conj Rc (conj Ro _)). rewrite Ho. repeat split.
Qed.

Lemma cancel_silences_frames_witness :
  construct bounceConfig = Some (instance bounceConfig)
  /\ (let s := run [SetValue (Some (Fin 150)) None;
                    Down (Fin 0) (mouseAt 0 0); Up (Fin 0) (mouseAt 0 0);
                    Down (Fin 1) (mouseAt 0 0); Up (Fin 1) (mouseAt 0 0)]
                 (instance bounceConfig) in
      (cancel s).(frames) = [(1%positive, StepDecelAnim)]
      /\ (runFrames 1 (cancel s)).(calls) = (cancel s).(calls)
      /\ (runFrames 1 (cancel s)).(options) = (cancel s).(options)).
Proof.
  split; [reflexivity|]. intro s.
  destruct (@cancel_silences_frames bounceConfig (instance bounceConfig)
              [SetValue (Some (Fin 150)) None;
               Down (Fin 0) (mouseAt 0 0); Up (Fin 0) (mouseAt 0 0);
               Down (Fin 1) (mouseAt 0 0); Up (Fin 1) (mouseAt 0 0)]
              1 eq_refl) as (Hc & Ho & _).
  refine (conj _ (conj Hc Ho)). vm_compute. reflexivity.
Defined.

(** X10. A wheel event ends a running deceleration: it leaves
    [decelerating] false, so the steps still pending invoke no callback
    and change nothing more; the target stays where the wheel put it. *)
Theorem onWheel_ends_deceleration (deltaX deltaY : num) (e : Engine)
  (n : nat) :
  forallb (fun f => negb (isTick f)) (e.(frames)) = true ->
  let w := onWheel deltaX deltaY e in
  w.(options).(decelerating) = false
  /\ (runFrames n w).(options) = w.(options)
  /\ (runFrames n w).(calls) = w.(calls)
  /\ (runFrames n w).(frames) = skipn n (e.(frames)).
Proof.
  intros Hf w.
  assert (Q : quiet w).
  { split; destruct e as [[] ]; [reflexivity|exact Hf]. }
  destruct (runFrames_quiet n Q) as (Ro & Rc & Rf).
  refine (conj (proj1 Q) (conj Ro (conj Rc _))).
  rewrite Rf. destruct e as [[] ]. reflexivity.
Qed.

Lemma onWheel_ends_deceleration_witness :
  let e := run (flick 10 50) (instance defaults) in
  let w := onWheel (Fin 3) (Fin 0) e in
  forallb (fun f => negb (isTick f)) (e.(frames)) = true
  /\ e.(options).(decelerating) = true
  /\ e.(frames) = [(2%positive, StepDecelAnim)]
  /\ w.(options).(decelerating) = false
  /\ (runFrames 1 w).(options) = w.(options)
  /\ (runFrames 1 w).(frames) = [].
Proof.
  intros e w.
  assert (Hf : forallb (fun f => negb (isTick f)) (e.(frames)) = true)
    by (vm_compute; reflexivity).
  destruct (@onWheel_ends_deceleration (Fin 3) (Fin 0) e 1 Hf)
    as (Hd & Ho & _ & Hfr).
  refine (conj Hf (conj _ (conj _ (conj Hd (conj Ho _))))).
  - vm_compute. reflexivity.
  - vm_compute. reflexivity.
  - refine (eq_trans Hfr _). vm_compute. reflexivity.
Defined.

(** X11. A pointer down that starts tracking preempts a running
    deceleration: [decelerating] is cleared, the steps still pending
    invoke no callback and change nothing, and the velocity keeps the
    value it had when the pointer came down. *)
Theorem onDown_preempts_deceleration (now : num) (ev : Ev.Raw) (e : Engine)
  (n : nat) :
  e.(options).(pointerActive) = false ->
  e.(options).(paused) = false ->
  forallb (fun f => negb (isTick f)) (e.(frames)) = true ->
  let d := onDown now ev e in
  d.(options).(pointerActive) = true
  /\ d.(options).(decelerating) = false
  /\ d.(options).(targetX) = e.(options).(targetX)
  /\ d.(options).(targetY) = e.(options).(targetY)
  /\ (runFrames n d).(options) = d.(options)
  /\ (runFrames n d).(calls) = d.(calls)
  /\ (runFrames n d).(frames) = skipn n (e.(frames)).
Proof.
  intros Ha Hp Hf d.
  pose proof (onDown_options now ev e Ha Hp) as Ho. cbv zeta in Ho.
  fold d in Ho.
  destruct (onDown_schedule now ev e) as (Ff & _). fold d in Ff.
  assert (Q : quiet d).
  { split; [rewrite Ho; reflexivity|rewrite Ff; exact Hf]. }
  destruct (runFrames_quiet n Q) as (Ro & Rc & Rf).
  rewrite Ff in Rf.
  refine (conj _ (conj (proj1 Q) (conj _ (conj _ (conj Ro (conj Rc Rf))))));
    rewrite Ho; destruct e as [[] ]; reflexivity.
Qed.

Lemma onDown_preempts_deceleration_witness :
  let e := run (flick 10 50) (instance defaults) in
  let d := onDown (Fin 60) (mouseAt 1 1) e in
  e.(options).(pointerActive) = false
  /\ e.(options).(paused) = false
  /\ forallb (fun f => negb (isTick f)) (e.(frames)) = true
  /\ e.(options).(decelerating) = true
  /\ d.(options).(decelerating) = false
  /\ (runFrames 1 d).(options) = d.(options)
  /\ (runFrames 1 d).(frames) = [].
Proof.
  intros e d.
  assert (Ha : e.(options).(pointerActive) = false) by (vm_compute; reflexivity).
  assert (Hp : e.(options).(paused) = false) by (vm_compute; reflexivity).
  assert (Hf : forallb (fun f => negb (isTick f)) (e.(frames)) = true)
    by (vm_compute; reflexivity).
  destruct (@onDown_preempts_deceleration (Fin 60) (mouseAt 1 1) e 1 Ha Hp Hf)
    as (_ & Hd & _ & _ & Ho & _ & Hfr).
  refine (conj Ha (conj Hp (conj Hf (conj _ (conj Hd (conj Ho _)))))).
  - vm_compute. reflexivity.
  - refine (eq_trans Hfr _). vm_compute. reflexivity.
Defined.

(* ================================================================= *)
(** ** What no input changes *)

Lemma adjust_fixed (o : Options) :
  fixedOf (adjust o) = fixedOf o /\ scaleOf (adjust o) = scaleOf o.
Proof.
  unfold adjust. destruct o; cbn -[bounceVel axisDiff sne gt].
  repeat match goal with
         | |- context [if ?c then _ else _] => destruct c
         end; split; reflexivity.
Qed.

Lemma integrate_fixed (o : Options) :
  fixedOf (integrate o) = fixedOf o /\ scaleOf (integrate o) = scaleOf o.
Proof. destruct o; split; reflexivity. Qed.

Lemma stepDecelAnim_fixed (e : Engine) :
  fixedOf ((stepDecelAnim e).(options)) = fixedOf (e.(options))
  /\ scaleOf ((stepDecelAnim e).(options)) = scaleOf (e.(options)).
Proof.
  destruct (e.(options).(decelerating)) eqn:Hd.
  - rewrite (stepDecelAnim_eq e Hd).
    destruct (integrate_fixed (e.(options))) as [I1 I2].
    destruct (adjust_fixed (integrate (e.(options)))) as [A1 A2].
    destruct (stopCondition (e.(options))); cbn [options].
    + rewrite <- I1, <- I2. destruct (integrate (e.(options))), e.
      split; reflexivity.
    + rewrite A1, A2, I1, I2. split; reflexivity.
  - rewrite (stepDecelAnim_idle e Hd). destruct e; split; reflexivity.
Qed.

Lemma startDecelAnim_fixed (e : Engine) :
  fixedOf ((startDecelAnim e).(options)) = fixedOf (e.(options))
  /\ scaleOf ((startDecelAnim e).(options)) = scaleOf (e.(options)).
Proof.
  destruct (e.(options).(trackingPoints)) as [|p rest] eqn:E.
  - unfold startDecelAnim. rewrite E. split; reflexivity.
  - rewrite (startDecelAnim_eq e E). cbv zeta.
    destruct (_ || _ || _); destruct e as [[] ]; split; reflexivity.
Qed.

Lemma stopTracking_fixed (now : num) (e : Engine) :
  fixedOf ((stopTracking now e).(options)) = fixedOf (e.(options))
  /\ scaleOf ((stopTracking now e).(options)) = scaleOf (e.(options)).
Proof.
  rewrite stopTracking_options.
  set (e1 := addTrackingPoint _ _ _ _).
  destruct (startDecelAnim_fixed e1) as [-> ->].
  destruct e as [[] ]. split; reflexivity.
Qed.

Lemma onUp_fixed (now : num) (ev : Ev.Raw) (e : Engine) :
  fixedOf ((onUp now ev e).(options)) = fixedOf (e.(options))
  /\ scaleOf ((onUp now ev e).(options)) = scaleOf (e.(options)).
Proof.
  unfold onUp. destruct (_ && _); [|split; reflexivity].
  destruct (stopTracking_fixed now (callHook (e.(options).(onUpHook)) UpHook e))
    as [-> ->].
  rewrite callHook_options. split; reflexivity.
Qed.

Lemma updateAndRender_fixed (e : Engine) :
  fixedOf ((updateAndRender e).(options)) = fixedOf (e.(options))
  /\ scaleOf ((updateAndRender e).(options)) = scaleOf (e.(options)).
Proof.
  unfold updateAndRender, checkBounds. schedule e; split; reflexivity.
Qed.

Lemma onMove_fixed (now : num) (ev : Ev.Raw) (e : Engine) :
  fixedOf ((onMove now ev e).(options)) = fixedOf (e.(options))
  /\ scaleOf ((onMove now ev e).(options)) = scaleOf (e.(options)).
Proof.
  unfold onMove, requestTick, requestAnimationFrame, addTrackingPoint.
  schedule e; split; reflexivity.
Qed.

Lemma onDown_fixed (now : num) (ev : Ev.Raw) (e : Engine) :
  fixedOf ((onDown now ev e).(options)) = fixedOf (e.(options))
  /\ scaleOf ((onDown now ev e).(options)) = scaleOf (e.(options)).
Proof.
  unfold onDown, callHook, addTrackingPoint. schedule e; split; reflexivity.
Qed.

Lemma runFrame_fixed (e : Engine) :
  fixedOf ((runFrame e).(options)) = fixedOf (e.(options))
  /\ scaleOf ((runFrame e).(options)) = scaleOf (e.(options)).
Proof.
  unfold runFrame. destruct (e.(frames)) as [|[h cb] rest]; [split; reflexivity|].
  destruct cb.
  - destruct (updateAndRender_fixed (set_frames rest e)) as [-> ->].
    destruct e; split; reflexivity.
  - destruct (stepDecelAnim_fixed (set_frames rest e)) as [-> ->].
    destruct e; split; reflexivity.
Qed.

(** Every input but [setMultiplier] keeps the six fields. *)
Lemma step_fixed (i : Input) (e : Engine) :
  fixedOf ((step i e).(options)) = fixedOf (e.(options))
  /\ ((forall v, i <> SetMultiplier v) ->
      scaleOf ((step i e).(options)) = scaleOf (e.(options))).
Proof.
  destruct i; simpl.
  - destruct (e.(sourceListening)); [|tauto].
    destruct (onDown_fixed now ev e); tauto.
  - destruct (e.(documentListening)); [|tauto].
    destruct (onMove_fixed now ev e); tauto.
  - destruct (e.(documentListening)); [|tauto].
    destruct (onUp_fixed now ev e); tauto.
  - destruct (e.(documentListening)); [|tauto].
    destruct (stopTracking_fixed now e); tauto.
  - destruct (e.(wheelListening)); [|tauto].
    destruct e as [[] ]; split; reflexivity.
  - destruct (runFrame_fixed e); tauto.
  - destruct e as [[] ]; split; reflexivity.
  - destruct e as [[] ]; split; reflexivity.
  - destruct (cancel_fields e) as (-> & _). destruct e as [[] ]; split; reflexivity.
  - unfold destroy. destruct e as [[] ]; cbn. destruct sourceEl0; split; reflexivity.
  - destruct e as [[] ], x, y; split; reflexivity.
  - split; [destruct e as [[] ]; reflexivity|]. intro H. now destruct (H val).
  - destruct e as [[] ]; split; reflexivity.
  - destruct e as [[] ]; split; reflexivity.
Qed.

(** X12. No event and no public operation changes [bounce], [friction]
    or the hooks: whatever the inputs, they keep the values they had. *)
Theorem options_fixed (inputs : list Input) (e : Engine) :
  let s := run inputs e in
  s.(options).(bounce) = e.(options).(bounce)
  /\ s.(options).(friction) = e.(options).(friction)
  /\ s.(options).(onDownHook) = e.(options).(onDownHook)
  /\ s.(options).(onUpHook) = e.(options).(onUpHook).
Proof.
  assert (H : fixedOf ((run inputs e).(options)) = fixedOf (e.(options))).
  { revert e. induction inputs as [|i inputs IH]; intro e; [reflexivity|].
    simpl. rewrite IH. apply step_fixed. }
  intro s. subst s. unfold fixedOf in H. injection H as H1 H2 H3 H4. auto.
Qed.

Lemma step_threshold (i : Input) (e : Engine) :
  e.(options).(stopThreshold)
  = STOP_THRESHOLD_DEFAULT * e.(options).(multiplier) ->
  (step i e).(options).(stopThreshold)
  = STOP_THRESHOLD_DEFAULT * (step i e).(options).(multiplier).
Proof.
  intro H.
  assert (D : (exists v, i = SetMultiplier v) \/ forall v, i <> SetMultiplier v).
  { destruct i; try (right; discriminate). left. eexists. reflexivity. }
  destruct D as [[v ->]|D].
  - destruct e as [[] ]. reflexivity.
  - destruct (step_fixed i e) as [_ S]. specialize (S D).
    unfold scaleOf in S. injection S as -> ->. exact H.
Qed.

(** X13. From construction on, [stopThreshold] is 0.3 times the current
    [multiplier], after every input: [setMultiplier] is the only
    operation that touches either, and it sets both. *)
Theorem threshold_follows_multiplier (cfg : Config.t) (e : Engine)
  (inputs : list Input) :
  construct cfg = Some e ->
  (run inputs e).(options).(stopThreshold)
  = Fin 0.3 * (run inputs e).(options).(multiplier).
Proof.
  intro H.
  assert (H0 : e.(options).(stopThreshold)
               = STOP_THRESHOLD_DEFAULT * e.(options).(multiplier)).
  { revert H. unfold construct.
    destruct cfg as [src upd m f b bx by_ iv od ou]. simpl.
    destruct src; [|discriminate]. destruct upd; [|discriminate]. simpl.
    intro H. injection H as <-.
    destruct iv as [[tx ty]|], bx as [[? ?]|], by_ as [[? ?]|]; simpl;
      repeat match goal with
             | |- context [if ?c then _ else _] => destruct c; simpl
             end; reflexivity. }
  clear H. revert e H0.
  induction inputs as [|i inputs IH]; intros e H0; [exact H0|].
  simpl. apply IH, step_threshold, H0.
Qed.

Lemma threshold_follows_multiplier_witness :
  construct defaults = Some (instance defaults)
  /\ (let s := run (SetMultiplier (Fin 2) :: flick 10 50) (instance defaults) in
      s.(options).(multiplier) = Fin 2
      /\ s.(options).(stopThreshold) = Fin 0.3 * s.(options).(multiplier)).
Proof.
  split; [reflexivity|]. intro s.
  exact (conj eq_refl
           (@threshold_follows_multiplier defaults (instance defaults)
              (SetMultiplier (Fin 2) :: flick 10 50) eq_refl)).
Defined.

(* ================================================================= *)
(** ** The drag mapping *)

Lemma Qsquare_nonneg (a : Q) : (0 <= a * a)%Q.
Proof.
  destruct (Qlt_le_dec a 0).
  - setoid_replace (a * a)%Q with ((- a) * (- a))%Q by ring.
    apply Qmult_le_0_compat; lra.
  - apply Qmult_le_0_compat; lra.
Qed.

(** X14. The resistance [dragOutOfBoundsMultiplier] is never below
    0.5495, its value at -10; it stays at most 1 for an overflow between
    -310 and 290 and exceeds 1 from 291 on, where a drag update moves the
    target against the pointer. *)
Theorem dragOutOfBoundsMultiplier_range (q : Q) :
  (Fin 0.5495 <=? dragOutOfBoundsMultiplier (Fin q)) = true
  /\ same (dragOutOfBoundsMultiplier (Fin (-10))) (Fin 0.5495)
  /\ ((-310 <= q)%Q -> (q <= 290)%Q ->
      (dragOutOfBoundsMultiplier (Fin q) <=? Fin 1) = true)
  /\ ((291 <= q)%Q -> (Fin 1 <? dragOutOfBoundsMultiplier (Fin q)) = true).
Proof.
  rewrite dragOutOfBoundsMultiplier_fin. simpl.
  refine (conj _ (conj _ (conj _ _))).
  - qprop. pose proof (Qsquare_nonneg (q + 10)). lra.
  - reflexivity.
  - intros H1 H2. qprop.
    assert (0 <= (q + 310) * (290 - q))%Q by (apply Qmult_le_0_compat; lra).
    lra.
  - intro H. qprop.
    assert (0 <= (q - 291) * (q + 311))%Q by (apply Qmult_le_0_compat; lra).
    lra.
Qed.

(** X15. A drag update in bounce mode adds the pointer change times the
    multiplier to the target; on an axis where the result overflows by
    [d] it takes back the change times [dragOutOfBoundsMultiplier(d)]
    times the multiplier.  The update callback is invoked once, with the
    new target and before [pointerLast] advances and [ticking] is
    cleared. *)
Theorem updateAndRender_bounce (e : Engine) :
  e.(options).(bounce) = true ->
  let o := e.(options) in
  let m := o.(multiplier) in
  let cx := o.(pointerCurrentX) - o.(pointerLastX) in
  let cy := o.(pointerCurrentY) - o.(pointerLastY) in
  let tx := o.(targetX) + cx * m in
  let ty := o.(targetY) + cy * m in
  let dx := axisDiff (o.(boundXmin)) (o.(boundXmax)) tx in
  let dy := axisDiff (o.(boundYmin)) (o.(boundYmax)) ty in
  let tx' := if dx !== Fin 0
             then tx - cx * dragOutOfBoundsMultiplier dx * m else tx in
  let ty' := if dy !== Fin 0
             then ty - cy * dragOutOfBoundsMultiplier dy * m else ty in
  let e' := updateAndRender e in
  e'.(options)
  = set_ticking false
      (set_pointerLastY (o.(pointerCurrentY))
         (set_pointerLastX (o.(pointerCurrentX))
            (set_targetY ty' (set_targetX tx' o))))
  /\ e'.(calls) = Update (set_targetY ty' (set_targetX tx' o)) :: e.(calls)
  /\ e'.(tickRaf) = None
  /\ e'.(frames) = e.(frames).
Proof.
  destruct e as [o s t src fr nh sl wl dl cs]. destruct o.
  cbn [options bounce]. intros ->.
  unfold updateAndRender, checkBounds.
  cbn -[or_else div sub mul add abs gt lt le seq sne axisDiff
        dragOutOfBoundsMultiplier].
  repeat match goal with
         | |- context [if ?c then _ else _] => destruct c
         end; repeat split.
Qed.

Lemma updateAndRender_bounce_witness :
  let e := run [SetValue (Some (Fin 95)) None; Down (Fin 0) (mouseAt 0 0);
                Move (Fin 5) (mouseAt 10 0)] (instance bounceConfig) in
  e.(options).(bounce) = true
  /\ (updateAndRender e).(options).(targetX)
     = Fin 95 + (Fin 10 - Fin 0) * Fin 1
       - (Fin 10 - Fin 0) * dragOutOfBoundsMultiplier (Fin 100 - Fin 105)
         * Fin 1
  /\ same ((updateAndRender e).(options).(targetX)) (Fin 99.50375)
  /\ (updateAndRender e).(tickRaf) = None.
Proof.
  intro e.
  assert (Hb : e.(options).(bounce) = true) by (vm_compute; reflexivity).
  destruct (updateAndRender_bounce e Hb) as (Ho & _ & Ht & _).
  refine (conj Hb (conj _ (conj _ Ht))).
  - rewrite Ho. vm_compute. reflexivity.
  - rewrite Ho. vm_compute. reflexivity.
Defined.

(* ================================================================= *)
(** ** Clamping twice *)

Lemma axisDiff_clamped (min max : option num) (target : num) :
  ordered min max = true ->
  axisDiff min max (clamped min max (axisDiff min max target) target)
  = Fin 0.
Proof.
  intro Ho. unfold clamped.
  destruct (axisDiff_cases min max target)
    as [(lo & E & L & Hd & P) | [(hi & E & G & Hd & N) | Z]].
  - unfold sne. rewrite (gt_not_zero _ P), P. subst min.
    cbn [negb value_of]. unfold axisDiff. cbn [notNull value_of andb].
    assert (Hl : (lo <? lo) = false).
    { destruct lo as [q| | |]; simpl; try reflexivity. qprop. lra. }
    rewrite Hl. destruct max as [hi|]; cbn [notNull value_of andb];
      [|reflexivity].
    replace (lo >? hi) with false; [reflexivity|].
    symmetry. unfold ordered in Ho. unfold gt.
    destruct lo as [a| | |], hi as [b| | |]; simpl in *; try discriminate;
      try reflexivity. qprop. lra.
  - unfold sne. rewrite (lt_not_zero _ N), (lt_not_gt _ N). subst max.
    cbn [negb value_of]. unfold axisDiff.
    assert (Hh : (hi >? hi) = false).
    { unfold gt. destruct hi as [q| | |]; simpl; try reflexivity. qprop. lra. }
    destruct min as [lo|]; cbn [notNull value_of andb].
    + replace (hi <? lo) with false; [now rewrite Hh|].
      symmetry. unfold ordered in Ho.
      destruct lo as [a| | |], hi as [b| | |]; simpl in *; try discriminate;
        try reflexivity. qprop. lra.
    + now rewrite Hh.
  - rewrite Z. unfold sne. rewrite zero_seq. cbn [negb]. exact Z.
Qed.

(** X16. With bounds that form an interval on each axis, the hard clamp
    is idempotent: after [checkBounds(true)] a second [checkBounds(true)]
    reports no overflow, [inBounds] true, and changes nothing. *)
Theorem checkBounds_restrict_twice (e : Engine) :
  ordered (e.(options).(boundXmin)) (e.(options).(boundXmax)) = true ->
  ordered (e.(options).(boundYmin)) (e.(options).(boundYmax)) = true ->
  let e1 := snd (checkBounds true e) in
  checkBounds true e1 = (Diff.mk (Fin 0) (Fin 0) true, e1).
Proof.
  intros Hx Hy e1. subst e1. rewrite (checkBounds_result true e).
  cbn [snd]. rewrite checkBounds_result.
  destruct e as [o s t src fr nh sl wl dl cs]. destruct o.
  cbn [options with_options set_options set_targetX set_targetY boundXmin
       boundXmax boundYmin boundYmax targetX targetY andb] in *.
  pose proof (@axisDiff_clamped _ _ targetX0 Hx) as Zx.
  pose proof (@axisDiff_clamped _ _ targetY0 Hy) as Zy.
  unfold clamped in Zx, Zy. rewrite Zx, Zy.
  reflexivity.
Qed.

Lemma checkBounds_restrict_twice_witness :
  let e := setValue (Some (Fin 150)) (Some (Fin (-3))) (instance clampConfig) in
  ordered (e.(options).(boundXmin)) (e.(options).(boundXmax)) = true
  /\ ordered (e.(options).(boundYmin)) (e.(options).(boundYmax)) = true
  /\ (snd (checkBounds true e)).(options).(targetX) = Fin 100
  /\ checkBounds true (snd (checkBounds true e))
     = (Diff.mk (Fin 0) (Fin 0) true, snd (checkBounds true e)).
Proof.
  intro e.
  assert (Hx : ordered (e.(options).(boundXmin)) (e.(options).(boundXmax)) = true)
    by reflexivity.
  assert (Hy : ordered (e.(options).(boundYmin)) (e.(options).(boundYmax)) = true)
    by reflexivity.
  exact (conj Hx (conj Hy (conj eq_refl (checkBounds_restrict_twice e Hx Hy)))).
Defined.

(* ================================================================= *)
(** ** Construction and destruction *)

(** X17. The constructor throws exactly when the source element or the
    update callback is missing.  Otherwise the instance starts idle, with
    no frame pending and the listeners on the source and for the wheel
    attached; and when [initialValues] is given the update callback is
    invoked once, before the bounds are stored: the options it receives
    have the initial target and no bound. *)
Theorem construct_result (cfg : Config.t) :
  (construct cfg = None
   <-> cfg.(Config.source) = false \/ cfg.(Config.update) = false)
  /\ (forall e, construct cfg = Some e ->
        e.(frames) = [] /\ e.(stepDecelRaf) = None /\ e.(tickRaf) = None
        /\ e.(options).(pointerActive) = false
        /\ e.(options).(decelerating) = false
        /\ e.(options).(paused) = false
        /\ e.(options).(ticking) = false
        /\ e.(sourceListening) = true /\ e.(wheelListening) = true
        /\ e.(documentListening) = false
        /\ e.(calls)
           = match cfg.(Config.initialValues) with
             | Some _ =>
                 [Update (set_boundYmax None
                            (set_boundYmin None
                               (set_boundXmax None
                                  (set_boundXmin None (e.(options))))))]
             | None => []
             end).
Proof.
  unfold construct. destruct cfg as [src upd m f b bx by_ iv od ou].
  cbn [Config.source Config.update Config.multiplier Config.friction
       Config.bounce Config.boundX Config.boundY Config.initialValues
       Config.onDown Config.onUp].
  destruct src, upd; cbn [negb];
    try (split; [split; [auto|intros _; reflexivity]|discriminate]).
  split; [split; [discriminate|intros [H|H]; discriminate]|].
  intros e H. injection H as <-.
  destruct iv as [[tx ty]|], bx as [[? ?]|], by_ as [[? ?]|];
    cbn -[mul truthyArg];
    repeat match goal with
           | |- context [if ?c then _ else _] => destruct c
           end; cbn -[mul]; repeat split.
Qed.

(** X18. [destroy()] on a live instance stops the pointer down and the
    wheel from reaching it, and touches nothing else: the options, the
    pending frames and the listeners on the document stay, so a drag or
    a deceleration in progress goes on. *)
Theorem destroy_detaches (e : Engine) :
  e.(sourceEl) = true ->
  let d := destroy e in
  (forall now ev, step (Down now ev) d = d)
  /\ (forall deltaX deltaY, step (Wheel deltaX deltaY) d = d)
  /\ d.(options) = e.(options)
  /\ d.(frames) = e.(frames)
  /\ d.(stepDecelRaf) = e.(stepDecelRaf) /\ d.(tickRaf) = e.(tickRaf)
  /\ d.(documentListening) = e.(documentListening)
  /\ d.(sourceEl) = false.
Proof.
  destruct e as [o s t src fr nh sl wl dl cs]. cbn [sourceEl]. intros ->.
  repeat split.
Qed.

Lemma destroy_detaches_witness :
  let e := run [Down (Fin 0) (mouseAt 0 0); Move (Fin 5) (mouseAt 10 0)]
             (instance defaults) in
  e.(sourceEl) = true
  /\ step (Down (Fin 9) (mouseAt 1 1)) (destroy e) = destroy e
  /\ step (Wheel (Fin 3) (Fin 3)) (destroy e) = destroy e
  /\ (destroy e).(documentListening) = true
  /\ (step Frame (step (Move (Fin 9) (mouseAt 20 0)) (destroy e)))
     .(options).(targetX) = Fin 20.
Proof.
  intro e.
  assert (Hs : e.(sourceEl) = true) by reflexivity.
  destruct (destroy_detaches e Hs) as (Hd & Hw & _).
  refine (conj Hs (conj (Hd _ _) (conj (Hw _ _) (conj _ _))));
    vm_compute; reflexivity.
Defined.

(* ================================================================= *)
(** ** The deceleration in clamp mode *)

Lemma add_zero_lt (t c : num) (z : Q) :
  (z == 0)%Q -> ((t + Fin z) <? c) = (t <? c) /\ (c <? (t + Fin z)) = (c <? t).
Proof.
  intro Hz. destruct t as [a| | |]; try (split; reflexivity).
  destruct c as [b| | |]; try (split; reflexivity).
  simpl. unfold Qltb.
  assert (E : (a + z == a)%Q) by lra.
  rewrite (Qleb_comp _ _ (Qeq_refl b) _ _ E).
  rewrite (Qleb_comp _ _ E _ _ (Qeq_refl b)). split; reflexivity.
Qed.

Lemma axisDiff_zero_iff (min max : option num) (t : num) :
  axisDiff min max t = Fin 0
  <-> (notNull min && (t <? value_of min)) = false
      /\ (notNull max && (t >? value_of max)) = false.
Proof.
  unfold axisDiff. split.
  - destruct (notNull min && (t <? value_of min)) eqn:C1.
    + intro H. apply andb_true_iff in C1. destruct C1 as [_ L].
      apply lt_sub_pos in L. rewrite H in L. discriminate.
    + destruct (notNull max && (t >? value_of max)) eqn:C2; [|auto].
      intro H. apply andb_true_iff in C2. destruct C2 as [_ G].
      apply lt_sub_neg in G. rewrite H in G. discriminate.
  - intros [-> ->]. reflexivity.
Qed.

Lemma axisDiff_add_zero (min max : option num) (t : num) (z : Q) :
  (z == 0)%Q -> axisDiff min max t = Fin 0 ->
  axisDiff min max (t + Fin z) = Fin 0.
Proof.
  intros Hz H. apply axisDiff_zero_iff in H. apply axisDiff_zero_iff.
  unfold gt in *.
  now rewrite (proj1 (add_zero_lt t (value_of min) Hz)),
    (proj2 (add_zero_lt t (value_of max) Hz)).
Qed.

(** A settled axis stays settled through the integration of a step. *)
Lemma settled_integrate (min max : option num) (t v : num) (f : Q) :
  settled min max t v -> settled min max (t + v * Fin f) (v * Fin f).
Proof.
  intros [(q & -> & Hq) Hd].
  assert (Hz : (q * f == 0)%Q) by (rewrite Hq; ring).
  split; [exists (q * f)%Q; split; [reflexivity|exact Hz]|].
  simpl mul. now apply axisDiff_add_zero.
Qed.

(** An axis that overflows is settled by the clamp. *)
Lemma clamped_settled (min max : option num) (t : num) :
  ordered min max = true ->
  settled min max (clamped min max (axisDiff min max t) t) (Fin 0).
Proof.
  intro Ho. split; [exists 0%Q; split; reflexivity|].
  now apply axisDiff_clamped.
Qed.

(** The velocity and the target of the X axis after a step in clamp
    mode that goes on; likewise for Y. *)
Lemma adjust_clamp (o : Options) :
  o.(bounce) = false ->
  let dx := overflowX o in
  let dy := overflowY o in
  let o' := adjust o in
  o'.(targetX) = clamped (o.(boundXmin)) (o.(boundXmax)) dx (o.(targetX))
  /\ o'.(targetY) = clamped (o.(boundYmin)) (o.(boundYmax)) dy (o.(targetY))
  /\ o'.(decVelX) = (if dx !== Fin 0 then Fin 0 else o.(decVelX))
  /\ o'.(decVelY) = (if dy !== Fin 0 then Fin 0 else o.(decVelY))
  /\ o'.(boundXmin) = o.(boundXmin) /\ o'.(boundXmax) = o.(boundXmax)
  /\ o'.(boundYmin) = o.(boundYmin) /\ o'.(boundYmax) = o.(boundYmax)
  /\ o'.(bounce) = false /\ o'.(friction) = o.(friction)
  /\ o'.(stopThreshold) = o.(stopThreshold).
Proof.
  destruct o. cbn [bounce]. intros ->.
  unfold adjust, overflowX, overflowY, clamped.
  cbn -[axisDiff sne gt value_of].
  destruct (_ !== _), (_ !== _); repeat split.
Qed.

Lemma integrate_clamp (o : Options) (f vx vy : Q) :
  o.(friction) = Fin f -> o.(decVelX) = Fin vx -> o.(decVelY) = Fin vy ->
  let o1 := integrate o in
  o1.(decVelX) = Fin (vx * f) /\ o1.(decVelY) = Fin (vy * f)
  /\ o1.(targetX) = o.(targetX) + o.(decVelX) * Fin f
  /\ o1.(targetY) = o.(targetY) + o.(decVelY) * Fin f
  /\ o1.(boundXmin) = o.(boundXmin) /\ o1.(boundXmax) = o.(boundXmax)
  /\ o1.(boundYmin) = o.(boundYmin) /\ o1.(boundYmax) = o.(boundYmax)
  /\ o1.(bounce) = o.(bounce) /\ o1.(friction) = o.(friction)
  /\ o1.(stopThreshold) = o.(stopThreshold).
Proof.
  destruct o. cbn [friction decVelX decVelY]. intros -> -> ->.
  repeat split.
Qed.

(** A step of the clamp loop that goes on: the loop is still a clamp
    loop, each velocity was multiplied by the friction or put to 0, a
    settled axis stays settled and an axis that overflowed is settled. *)
Lemma clampLoop_step (f thr vx vy : Q) (e : Engine) :
  clampLoop f thr vx vy e ->
  stopCondition (e.(options)) = false ->
  exists vx' vy',
    clampLoop f thr vx' vy' (runFrame e)
    /\ (vx' = (vx * f)%Q \/ vx' = 0%Q)
    /\ (vy' = (vy * f)%Q \/ vy' = 0%Q)
    /\ (settledX (e.(options)) -> settledX ((runFrame e).(options)))
    /\ (settledY (e.(options)) -> settledY ((runFrame e).(options)))
    /\ (inBoundsNext e = false ->
        settledX ((runFrame e).(options))
        \/ settledY ((runFrame e).(options)))
    /\ (settledX (e.(options)) -> inBoundsNext e = false ->
        settledY ((runFrame e).(options)))
    /\ (settledY (e.(options)) -> inBoundsNext e = false ->
        settledX ((runFrame e).(options))).
Proof.
  intros (L & Hb & Hf & Ht & Hvx & Hvy & Ox & Oy) Hs.
  destruct (runFrame_goes_on L Hs) as [L' Ho].
  destruct (integrate_clamp (e.(options)) Hf Hvx Hvy)
    as (I1 & I2 & I3 & I4 & I5 & I6 & I7 & I8 & I9 & I10 & I11).
  set (o1 := integrate (e.(options))) in *.
  assert (Hb1 : o1.(bounce) = false) by congruence.
  destruct (adjust_clamp o1 Hb1)
    as (A1 & A2 & A3 & A4 & A5 & A6 & A7 & A8 & A9 & A10 & A11).
  assert (Ox1 : ordered (o1.(boundXmin)) (o1.(boundXmax)) = true)
    by (rewrite I5, I6; exact Ox).
  assert (Oy1 : ordered (o1.(boundYmin)) (o1.(boundYmax)) = true)
    by (rewrite I7, I8; exact Oy).
  (* what happens to each axis *)
  assert (SX : overflowX o1 = Fin 0 \/ (overflowX o1 !== Fin 0) = true).
  { unfold overflowX.
    destruct (axisDiff_cases (o1.(boundXmin)) (o1.(boundXmax)) (o1.(targetX)))
      as [(lo & _ & _ & _ & P) | [(hi & _ & _ & _ & N) | Z]].
    - right. unfold sne. now rewrite (gt_not_zero _ P).
    - right. unfold sne. now rewrite (lt_not_zero _ N).
    - left. exact Z. }
  assert (SY : overflowY o1 = Fin 0 \/ (overflowY o1 !== Fin 0) = true).
  { unfold overflowY.
    destruct (axisDiff_cases (o1.(boundYmin)) (o1.(boundYmax)) (o1.(targetY)))
      as [(lo & _ & _ & _ & P) | [(hi & _ & _ & _ & N) | Z]].
    - right. unfold sne. now rewrite (gt_not_zero _ P).
    - right. unfold sne. now rewrite (lt_not_zero _ N).
    - left. exact Z. }
  assert (KX : settledX (e.(options)) ->
               overflowX o1 = Fin 0 /\ settledX ((runFrame e).(options))).
  { intro S. pose proof (settled_integrate f S) as S1.
    rewrite <- I3 in S1. rewrite Hvx in S1. simpl mul in S1. rewrite <- I1 in S1.
    rewrite <- I5, <- I6 in S1.
    assert (Z : overflowX o1 = Fin 0) by exact (proj2 S1).
    split; [exact Z|].
    unfold settledX. rewrite Ho, A1, A3, A5, A6, Z.
    unfold clamped, sne. rewrite zero_seq. exact S1. }
  assert (KY : settledY (e.(options)) ->
               overflowY o1 = Fin 0 /\ settledY ((runFrame e).(options))).
  { intro S. pose proof (settled_integrate f S) as S1.
    rewrite <- I4 in S1. rewrite Hvy in S1. simpl mul in S1. rewrite <- I2 in S1.
    rewrite <- I7, <- I8 in S1.
    assert (Z : overflowY o1 = Fin 0) by exact (proj2 S1).
    split; [exact Z|].
    unfold settledY. rewrite Ho, A2, A4, A7, A8, Z.
    unfold clamped, sne. rewrite zero_seq. exact S1. }
  assert (CX : (overflowX o1 !== Fin 0) = true ->
               settledX ((runFrame e).(options))).
  { intro N. unfold settledX. rewrite Ho, A1, A3, A5, A6, N.
    apply clamped_settled, Ox1. }
  assert (CY : (overflowY o1 !== Fin 0) = true ->
               settledY ((runFrame e).(options))).
  { intro N. unfold settledY. rewrite Ho, A2, A4, A7, A8, N.
    apply clamped_settled, Oy1. }
  assert (NB : inBoundsNext e = false ->
               (overflowX o1 !== Fin 0) = true
               \/ (overflowY o1 !== Fin 0) = true).
  { unfold inBoundsNext. fold o1. intro H.
    destruct SX as [Zx|Nx]; [|auto]. destruct SY as [Zy|Ny]; [|auto].
    rewrite Zx, Zy in H. discriminate. }
  exists (if overflowX o1 !== Fin 0 then 0%Q else (vx * f)%Q),
         (if overflowY o1 !== Fin 0 then 0%Q else (vy * f)%Q).
  refine (conj _ (conj _ (conj _ (conj (fun S => proj2 (KX S))
            (conj (fun S => proj2 (KY S)) (conj _ (conj _ _))))))).
  - refine (conj L' _). rewrite Ho, A3, A4, A5, A6, A7, A8, A9, A10, A11.
    rewrite I1, I2, I5, I6, I7, I8, I10, I11.
    repeat split; try assumption;
      [destruct (overflowX o1 !== Fin 0)|destruct (overflowY o1 !== Fin 0)];
      reflexivity.
  - destruct (overflowX o1 !== Fin 0); auto.
  - destruct (overflowY o1 !== Fin 0); auto.
  - intro H. destruct (NB H); auto.
  - intros S H. destruct (KX S) as [Z _]. destruct (NB H) as [N|N]; [|auto].
    unfold sne in N. rewrite Z in N. discriminate.
  - intros S H. destruct (KY S) as [Z _]. destruct (NB H) as [N|N]; [auto|].
    unfold sne in N. rewrite Z in N. discriminate.
Qed.

Lemma Qdecay_zero (f v : Q) (n : nat) : (v == 0)%Q -> (Qdecay f v n == 0)%Q.
Proof.
  revert v. induction n as [|n IH]; intros v H; [exact H|].
  simpl. apply IH. rewrite H. ring.
Qed.

(** With both velocities within the threshold after friction, the stop
    condition asks only for the target to be in bounds. *)
Lemma slow_stopCondition (f thr vx vy : Q) (e : Engine) :
  clampLoop f thr vx vy e ->
  (Qabs (vx * f) <= thr)%Q -> (Qabs (vy * f) <= thr)%Q ->
  stopCondition (e.(options)) = inBoundsNext e.
Proof.
  intros (_ & _ & Hf & Ht & Hvx & Hvy & _) Hx Hy.
  rewrite stopCondition_eq, Hf, Ht, Hvx, Hvy. cbn [mul abs le].
  apply Qle_bool_iff in Hx, Hy. now rewrite Hx, Hy.
Qed.

Lemma clampLoop_stop (f thr vx vy : Q) (e : Engine) :
  clampLoop f thr vx vy e -> stopCondition (e.(options)) = true ->
  (runFrames 1 e).(options).(decelerating) = false.
Proof.
  intros ([Hd [h Hf]] & _) Hs. simpl.
  rewrite (runFrame_looping e Hd Hf), Hs. destruct e as [[] ]; reflexivity.
Qed.

Lemma slower (f thr v v' : Q) :
  (0 < f)%Q -> (f < 1)%Q -> (Qabs (v * f) <= thr)%Q ->
  v' = (v * f)%Q \/ v' = 0%Q -> (Qabs (v' * f) <= thr)%Q.
Proof.
  intros H0 H1 H [->| ->].
  - rewrite Qabs_Qmult, (Qabs_pos f) by lra.
    pose proof (Qabs_nonneg (v * f)).
    assert (0 <= Qabs (v * f) * (1 - f))%Q
      by (apply Qmult_le_0_compat; lra).
    lra.
  - pose proof (Qabs_nonneg (v * f)).
    setoid_replace (0 * f)%Q with 0%Q by ring. simpl. lra.
Qed.

Lemma settled_inBoundsNext (f thr vx vy : Q) (e : Engine) :
  clampLoop f thr vx vy e ->
  settledX (e.(options)) -> settledY (e.(options)) -> inBoundsNext e = true.
Proof.
  intros (_ & _ & Hf & _ & Hvx & Hvy & _) Sx Sy.
  destruct (integrate_clamp (e.(options)) Hf Hvx Hvy)
    as (I1 & I2 & I3 & I4 & I5 & I6 & I7 & I8 & _).
  pose proof (settled_integrate f Sx) as [_ Zx].
  pose proof (settled_integrate f Sy) as [_ Zy].
  unfold inBoundsNext, overflowX, overflowY.
  now rewrite I3, I4, I5, I6, I7, I8, Zx, Zy.
Qed.

(** Once the velocities are within the threshold the clamp loop stops
    within three steps. *)
Lemma clamp_slow_stops (f thr vx vy : Q) (e : Engine) :
  (0 < f)%Q -> (f < 1)%Q ->
  clampLoop f thr vx vy e ->
  (Qabs (vx * f) <= thr)%Q -> (Qabs (vy * f) <= thr)%Q ->
  exists n, (runFrames n e).(options).(decelerating) = false.
Proof.
  intros H0 H1 C Hx Hy.
  pose proof (slow_stopCondition C Hx Hy) as S0.
  destruct (inBoundsNext e) eqn:B0.
  { exists 1%nat. exact (clampLoop_stop C S0). }
  destruct (clampLoop_step C S0)
    as (vx1 & vy1 & C1 & Vx1 & Vy1 & _ & _ & Some1 & _).
  pose proof (slower H0 H1 Hx Vx1) as Hx1.
  pose proof (slower H0 H1 Hy Vy1) as Hy1.
  pose proof (slow_stopCondition C1 Hx1 Hy1) as S1.
  destruct (inBoundsNext (runFrame e)) eqn:B1.
  { exists 2%nat. exact (clampLoop_stop C1 S1). }
  destruct (clampLoop_step C1 S1)
    as (vx2 & vy2 & C2 & Vx2 & Vy2 & Kx & Ky & _ & XY & YX).
  pose proof (slower H0 H1 Hx1 Vx2) as Hx2.
  pose proof (slower H0 H1 Hy1 Vy2) as Hy2.
  pose proof (slow_stopCondition C2 Hx2 Hy2) as S2.
  assert (B2 : inBoundsNext (runFrame (runFrame e)) = true).
  { destruct (Some1 B0) as [Sx|Sy].
    - exact (settled_inBoundsNext C2 (Kx Sx) (XY Sx B1)).
    - exact (settled_inBoundsNext C2 (YX Sy B1) (Ky Sy)). }
  rewrite B2 in S2.
  exists 3%nat. exact (clampLoop_stop C2 S2).
Qed.

(** Until the velocities are within the threshold the clamp loop stays a
    clamp loop, or stops. *)
Lemma clamp_reaches_slow (f thr : Q) (n : nat) :
  forall (e : Engine) (vx vy : Q),
    clampLoop f thr vx vy e ->
    (Qabs (Qdecay f vx (S n)) <= thr)%Q ->
    (Qabs (Qdecay f vy (S n)) <= thr)%Q ->
    (exists j, (runFrames j e).(options).(decelerating) = false)
    \/ (exists vx' vy',
           clampLoop f thr vx' vy' (runFrames n e)
           /\ (Qabs (vx' * f) <= thr)%Q /\ (Qabs (vy' * f) <= thr)%Q).
Proof.
  induction n as [|n IH]; intros e vx vy C Hx Hy.
  - right. exists vx, vy. auto.
  - destruct (stopCondition (e.(options))) eqn:Hs.
    { left. exists 1%nat. exact (clampLoop_stop C Hs). }
    destruct (clampLoop_step C Hs) as (vx1 & vy1 & C1 & Vx1 & Vy1 & _).
    assert (T0 : (0 <= thr)%Q).
    { pose proof (Qabs_nonneg (Qdecay f vx (S (S n)))). lra. }
    assert (Hx1 : (Qabs (Qdecay f vx1 (S n)) <= thr)%Q).
    { destruct Vx1 as [->| ->]; [exact Hx|].
      rewrite (Qdecay_zero f (S n) (Qeq_refl 0)). exact T0. }
    assert (Hy1 : (Qabs (Qdecay f vy1 (S n)) <= thr)%Q).
    { destruct Vy1 as [->| ->]; [exact Hy|].
      rewrite (Qdecay_zero f (S n) (Qeq_refl 0)). exact T0. }
    destruct (IH _ _ _ C1 Hx1 Hy1) as [[j Hj]|R].
    + left. exists (S j). exact Hj.
    + right. exact R.
Qed.

(** X19. In clamp mode the deceleration always ends.  With bounce
    disabled, a friction [0 < f < 1], a positive stop threshold, finite
    velocities and bounds that form an interval on each axis, a running
    deceleration loop reaches its stop condition after finitely many
    steps, wherever the target is and whether or not it hits a bound on
    the way. *)
Theorem clamp_decel_terminates (f thr vx vy : Q) (e : Engine) :
  (0 < f)%Q -> (f < 1)%Q -> (0 < thr)%Q ->
  looping e ->
  e.(options).(bounce) = false ->
  e.(options).(friction) = Fin f ->
  e.(options).(stopThreshold) = Fin thr ->
  e.(options).(decVelX) = Fin vx ->
  e.(options).(decVelY) = Fin vy ->
  ordered (e.(options).(boundXmin)) (e.(options).(boundXmax)) = true ->
  ordered (e.(options).(boundYmin)) (e.(options).(boundYmax)) = true ->
  exists n, (runFrames n e).(options).(decelerating) = false.
Proof.
  intros H0 H1 Ht L Hb Hf Hthr Hvx Hvy Ox Oy.
  assert (C : clampLoop f thr vx vy e) by (repeat split; assumption || apply L).
  destruct (Qdecay_below (Qabs vx + Qabs vy)%Q H0 H1 Ht) as [N HN].
  pose proof (Qabs_nonneg vx) as Px. pose proof (Qabs_nonneg vy) as Py.
  destruct (@clamp_reaches_slow f thr N e vx vy C) as [[j Hj]|R].
  - apply HN; [lia|lra].
  - apply HN; [lia|lra].
  - exists j. exact Hj.
  - destruct R as (vx' & vy' & C' & Hx' & Hy').
    destruct (clamp_slow_stops H0 H1 C' Hx' Hy') as [n Hn].
    exists (n + N)%nat.
    assert (E : forall a b s, runFrames (a + b) s = runFrames a (runFrames b s)).
    { intros a b. revert a. induction b as [|b IHb]; intros a s.
      - now rewrite Nat.add_0_r.
      - rewrite Nat.add_succ_r. simpl. rewrite <- IHb. reflexivity. }
    rewrite E. exact Hn.
Qed.

(** [clamp_decel_terminates] at a release at velocity 150 towards the
    upper bound: the first step overshoots and is clamped to 100, the
    second finds the axis at rest and stops. *)
Lemma clamp_decel_terminates_witness :
  let e := run (flick 10 1) (instance clampConfig) in
  (0 < 0.92)%Q /\ (0.92 < 1)%Q /\ (0 < 0.3)%Q
  /\ looping e
  /\ e.(options).(bounce) = false
  /\ e.(options).(friction) = Fin 0.92
  /\ e.(options).(stopThreshold) = Fin 0.3
  /\ e.(options).(decVelX) = Fin 150
  /\ e.(options).(decVelY) = Fin 0
  /\ ordered (e.(options).(boundXmin)) (e.(options).(boundXmax)) = true
  /\ ordered (e.(options).(boundYmin)) (e.(options).(boundYmax)) = true
  /\ (runFrames 1 e).(options).(targetX) = Fin 100
  /\ (runFrames 2 e).(options).(decelerating) = false
  /\ exists n, (runFrames n e).(options).(decelerating) = false.
Proof.
  intro e.
  assert (H0 : (0 < 0.92)%Q) by reflexivity.
  assert (H1 : (0.92 < 1)%Q) by reflexivity.
  assert (Ht : (0 < 0.3)%Q) by reflexivity.
  assert (L : looping e).
  { split; [vm_compute; reflexivity|]. eexists. vm_compute. reflexivity. }
  assert (Hb : e.(options).(bounce) = false) by (vm_compute; reflexivity).
  assert (Hf : e.(options).(friction) = Fin 0.92) by (vm_compute; reflexivity).
  assert (Hthr : e.(options).(stopThreshold) = Fin 0.3)
    by (vm_compute; reflexivity).
  assert (Hvx : e.(options).(decVelX) = Fin 150) by (vm_compute; reflexivity).
  assert (Hvy : e.(options).(decVelY) = Fin 0) by (vm_compute; reflexivity).
  assert (Ox : ordered (e.(options).(boundXmin)) (e.(options).(boundXmax)) = true)
    by (vm_compute; reflexivity).
  assert (Oy : ordered (e.(options).(boundYmin)) (e.(options).(boundYmax)) = true)
    by (vm_compute; reflexivity).
  pose proof (@clamp_decel_terminates 0.92 0.3 150 0 e H0 H1 Ht L Hb Hf Hthr
                Hvx Hvy Ox Oy) as Hn.
  refine (conj H0 (conj H1 (conj Ht (conj L (conj Hb (conj Hf (conj Hthr
            (conj Hvx (conj Hvy (conj Ox (conj Oy (conj _ (conj _ Hn)))))))))))));
    vm_compute; reflexivity.
Defined.

(* ================================================================= *)
(** ** The target follows the pointer *)

Lemma isFin_eq (a : num) : isFin a = true -> exists q, a = Fin q.
Proof. destruct a; try discriminate. eauto. Qed.

(** A drag update with no bound set, in either mode. *)
Lemma updateAndRender_unbounded (e : Engine) :
  unbounded (e.(options)) ->
  let o := e.(options) in
  (updateAndRender e).(options)
  = set_ticking false
      (set_pointerLastY (o.(pointerCurrentY))
         (set_pointerLastX (o.(pointerCurrentX))
            (set_targetY
               (o.(targetY)
                + (o.(pointerCurrentY) - o.(pointerLastY)) * o.(multiplier))
               (set_targetX
                  (o.(targetX)
                   + (o.(pointerCurrentX) - o.(pointerLastX))
                     * o.(multiplier)) o))))
  /\ (updateAndRender e).(frames) = e.(frames).
Proof.
  destruct e as [o s t src fr nh sl wl dl cs]. destruct o.
  unfold unbounded. cbn [options boundXmin boundXmax boundYmin boundYmax].
  intros (-> & -> & -> & ->).
  unfold updateAndRender, checkBounds.
  cbn -[or_else div sub mul add abs gt lt le seq sne
        dragOutOfBoundsMultiplier].
  destruct bounce0; split; reflexivity.
Qed.

Lemma onMove_dragState (m kx ky : Q) (now : num) (ev : Ev.Raw) (e : Engine) :
  dragInput (Move now ev) = true ->
  dragState m kx ky e -> dragState m kx ky (onMove now ev e).
Proof.
  intros Hi (Hf & Hu & Hm & Hcx & Hcy & HX & HY).
  simpl in Hi. apply andb_true_iff in Hi. destruct Hi as [Hi Hd].
  apply andb_true_iff in Hi. destruct Hi as [Fx Fy].
  apply negb_true_iff in Hd.
  unfold onMove.
  destruct (_ && _);
    [|exact (conj Hf (conj Hu (conj Hm (conj Hcx (conj Hcy (conj HX HY))))))].
  rewrite Hd.
  assert (Nx : (normalizeEvent ev).(Ev.x) = ev.(Ev.clientX))
    by (unfold normalizeEvent; destruct (Ev.isTouch ev); reflexivity).
  assert (Ny : (normalizeEvent ev).(Ev.y) = ev.(Ev.clientY))
    by (unfold normalizeEvent; destruct (Ev.isTouch ev); reflexivity).
  rewrite Nx, Ny.
  unfold requestTick, requestAnimationFrame, addTrackingPoint.
  destruct e as [o s t src fr nh sl wl dl cs]. destruct o.
  unfold dragState, unbounded in *.
  cbn -[dropExpired] in *.
  destruct ticking0; cbn -[dropExpired];
    rewrite ?forallb_app, ?Hf; repeat split; try assumption; tauto.
Qed.

Lemma runFrame_dragState (m kx ky : Q) (e : Engine) :
  dragState m kx ky e -> dragState m kx ky (runFrame e).
Proof.
  intros (Hf & Hu & Hm & Hcx & Hcy & (tx & lx & Htx & Hlx & Kx)
          & (ty & ly & Hty & Hly & Ky)).
  unfold runFrame.
  destruct (e.(frames)) as [|[h cb] rest] eqn:E.
  { refine (conj _ (conj Hu (conj Hm (conj Hcx (conj Hcy (conj _ _)))))).
    - now rewrite E.
    - exists tx, lx. auto.
    - exists ty, ly. auto. }
  simpl in Hf. apply andb_true_iff in Hf. destruct Hf as [Hc Hf].
  destruct cb; [|discriminate].
  destruct (isFin_eq _ Hcx) as [cx Ecx]. destruct (isFin_eq _ Hcy) as [cy Ecy].
  assert (Hu0 : unbounded ((set_frames rest e).(options)))
    by (destruct e; exact Hu).
  destruct (updateAndRender_unbounded (set_frames rest e) Hu0) as [Ho Hfr].
  assert (O0 : (set_frames rest e).(options) = e.(options))
    by (destruct e; reflexivity).
  rewrite O0 in Ho. cbv zeta in Ho.
  rewrite Htx, Hlx, Hty, Hly, Ecx, Ecy, Hm in Ho. cbn [sub add mul neg] in Ho.
  unfold dragState. rewrite Hfr, Ho.
  destruct e as [o s t src fr nh sl wl dl cs]. destruct o.
  unfold unbounded in *. cbn in *.
  refine (conj Hf (conj Hu (conj Hm (conj _ (conj _ (conj _ _)))))).
  - now rewrite Ecx.
  - now rewrite Ecy.
  - eexists _, _. split; [reflexivity|]. split; [reflexivity|]. lra.
  - eexists _, _. split; [reflexivity|]. split; [reflexivity|]. lra.
Qed.

Lemma run_dragState (m kx ky : Q) (inputs : list Input) (e : Engine) :
  forallb dragInput inputs = true ->
  dragState m kx ky e -> dragState m kx ky (run inputs e).
Proof.
  revert e. induction inputs as [|i inputs IH]; intros e Hi H; [exact H|].
  simpl in Hi. apply andb_true_iff in Hi. destruct Hi as [Hi His].
  simpl. apply IH; [exact His|].
  destruct i; try discriminate; simpl.
  - destruct (e.(documentListening)); [|exact H].
    now apply onMove_dragState.
  - now apply runFrame_dragState.
Qed.

(** X20. During a drag with no bound set the target follows the pointer:
    however the moves and the animation frames interleave, the target
    has moved by the multiplier times the distance between the pointer
    positions last rendered, exactly, on both axes and in both modes. *)
Theorem drag_follows_pointer (inputs : list Input) (e : Engine)
  (m tx ty lx ly : Q) :
  forallb dragInput inputs = true ->
  forallb isTick (e.(frames)) = true ->
  unbounded (e.(options)) ->
  e.(options).(multiplier) = Fin m ->
  isFin (e.(options).(pointerCurrentX)) = true ->
  isFin (e.(options).(pointerCurrentY)) = true ->
  e.(options).(targetX) = Fin tx -> e.(options).(pointerLastX) = Fin lx ->
  e.(options).(targetY) = Fin ty -> e.(options).(pointerLastY) = Fin ly ->
  let s := run inputs e in
  exists tx' lx' ty' ly',
    s.(options).(targetX) = Fin tx' /\ s.(options).(pointerLastX) = Fin lx'
    /\ s.(options).(targetY) = Fin ty' /\ s.(options).(pointerLastY) = Fin ly'
    /\ (tx' == tx + (lx' - lx) * m)%Q
    /\ (ty' == ty + (ly' - ly) * m)%Q.
Proof.
  intros Hi Hf Hu Hm Hcx Hcy Htx Hlx Hty Hly s.
  assert (D : dragState m (tx - lx * m) (ty - ly * m) e).
  { refine (conj Hf (conj Hu (conj Hm (conj Hcx (conj Hcy (conj _ _)))))).
    - exists tx, lx. split; [exact Htx|]. split; [exact Hlx|reflexivity].
    - exists ty, ly. split; [exact Hty|]. split; [exact Hly|reflexivity]. }
  destruct (run_dragState inputs Hi D)
    as (_ & _ & _ & _ & _ & (tx' & lx' & Htx' & Hlx' & Kx)
        & (ty' & ly' & Hty' & Hly' & Ky)).
  exists tx', lx', ty', ly'. repeat split; try assumption; lra.
Qed.

Lemma drag_follows_pointer_witness :
  let e := onDown (Fin 0) (mouseAt 1 1)
             (setMultiplier (Fin 2) (instance defaults)) in
  let inputs := [Move (Fin 5) (mouseAt 3 1); Move (Fin 6) (mouseAt 7 2);
                 Frame; Move (Fin 9) (mouseAt 4 5); Frame] in
  forallb dragInput inputs = true
  /\ forallb isTick (e.(frames)) = true
  /\ unbounded (e.(options))
  /\ e.(options).(multiplier) = Fin 2
  /\ e.(options).(targetX) = Fin 0 /\ e.(options).(pointerLastX) = Fin 1
  /\ e.(options).(targetY) = Fin 0 /\ e.(options).(pointerLastY) = Fin 1
  /\ same ((run inputs e).(options).(targetX)) (Fin 6)
  /\ same ((run inputs e).(options).(targetY)) (Fin 8)
  /\ (run inputs e).(options).(pointerLastX) = Fin 4
  /\ exists tx' lx' ty' ly',
      (run inputs e).(options).(targetX) = Fin tx'
      /\ (run inputs e).(options).(pointerLastX) = Fin lx'
      /\ (run inputs e).(options).(targetY) = Fin ty'
      /\ (run inputs e).(options).(pointerLastY) = Fin ly'
      /\ (tx' == 0 + (lx' - 1) * 2)%Q
      /\ (ty' == 0 + (ly' - 1) * 2)%Q.
Proof.
  intros e inputs.
  assert (Hi : forallb dragInput inputs = true) by reflexivity.
  assert (Hf : forallb isTick (e.(frames)) = true) by reflexivity.
  assert (Hu : unbounded (e.(options))) by (repeat split).
  assert (Hm : e.(options).(multiplier) = Fin 2) by reflexivity.
  assert (Htx : e.(options).(targetX) = Fin 0) by reflexivity.
  assert (Hlx : e.(options).(pointerLastX) = Fin 1) by reflexivity.
  assert (Hty : e.(options).(targetY) = Fin 0) by reflexivity.
  assert (Hly : e.(options).(pointerLastY) = Fin 1) by reflexivity.
  pose proof (@drag_follows_pointer inputs e 2 0 0 1 1 Hi Hf Hu Hm eq_refl
                eq_refl Htx Hlx Hty Hly) as H.
  refine (conj Hi (conj Hf (conj Hu (conj Hm (conj Htx (conj Hlx (conj Hty
            (conj Hly (conj _ (conj _ (conj _ H)))))))))));
    vm_compute; reflexivity.
Defined.

(* ================================================================= *)
(** ** The release *)

(** X21. [stopTracking] stores the velocity, leaves the target alone,
    ends the tracking and removes the document listeners.  It starts the
    deceleration, requesting one step, exactly when a stored velocity
    exceeds 1 in absolute value or the target is out of bounds;
    otherwise nothing is requested and [decelerating] keeps its value. *)
Theorem stopTracking_start (now : num) (e : Engine) :
  let e' := stopTracking now e in
  let start :=
    (abs (e'.(options).(decVelX)) >? Fin 1)
    || (abs (e'.(options).(decVelY)) >? Fin 1)
    || negb ((overflowX (e.(options)) === Fin 0)
             && (overflowY (e.(options)) === Fin 0)) in
  e'.(options).(pointerActive) = false
  /\ e'.(documentListening) = false
  /\ e'.(options).(targetX) = e.(options).(targetX)
  /\ e'.(options).(targetY) = e.(options).(targetY)
  /\ (start = true ->
      e'.(options).(decelerating) = true
      /\ e'.(stepDecelRaf) = Some (e.(nextHandle))
      /\ e'.(frames) = e.(frames) ++ [(e.(nextHandle), StepDecelAnim)])
  /\ (start = false ->
      e'.(options).(decelerating) = e.(options).(decelerating)
      /\ e'.(stepDecelRaf) = e.(stepDecelRaf)
      /\ e'.(frames) = e.(frames)).
Proof.
  intros e' start. subst e' start.
  unfold stopTracking, removeEventListeners.
  set (e1 := addTrackingPoint _ _ _ _).
  destruct (e1.(options).(trackingPoints)) as [|p rest] eqn:E.
  { exfalso. subst e1. rewrite addTrackingPoint_points in E.
    destruct (dropExpired now _); discriminate. }
  rewrite (startDecelAnim_eq e1 E). cbv zeta.
  set (vx := _ ||| Fin 0). set (vy := _ ||| Fin 0).
  assert (O1 : overflowX (set_decVelY vy (set_decVelX vx (e1.(options))))
               = overflowX (e.(options))
               /\ overflowY (set_decVelY vy (set_decVelX vx (e1.(options))))
                  = overflowY (e.(options))).
  { subst e1. destruct e as [[] ]. split; reflexivity. }
  destruct O1 as [-> ->].
  assert (P1 : e1.(options).(pointerActive) = false
               /\ e1.(options).(targetX) = e.(options).(targetX)
               /\ e1.(options).(targetY) = e.(options).(targetY)
               /\ e1.(options).(decelerating) = e.(options).(decelerating)
               /\ e1.(stepDecelRaf) = e.(stepDecelRaf)
               /\ e1.(frames) = e.(frames)
               /\ e1.(nextHandle) = e.(nextHandle)).
  { subst e1. destruct e as [[] ]. repeat split. }
  destruct P1 as (Pa & Ptx & Pty & Pd & Ps & Pf & Pn).
  rewrite <- Ptx, <- Pty, <- Pd, <- Ps, <- Pf, <- Pn.
  clearbody e1 vx vy. clear E.
  destruct e1 as [o1 s1 t1 src1 fr1 nh1 sl1 wl1 dl1 cs1]. destruct o1.
  cbn [options pointerActive] in Pa. subst.
  cbn [options set_decVelX set_decVelY set_decelerating set_options
       set_documentListening decVelX decVelY pointerActive targetX targetY
       decelerating stepDecelRaf frames nextHandle documentListening].
  destruct ((abs vx >? Fin 1) || (abs vy >? Fin 1) || negb _) eqn:C;
    cbn [options set_decVelX set_decVelY set_decelerating set_options
         set_documentListening decVelX decVelY pointerActive targetX targetY
         decelerating stepDecelRaf frames nextHandle documentListening];
    rewrite C;
    refine (conj eq_refl (conj eq_refl (conj eq_refl (conj eq_refl
              (conj _ _)))));
    intro K; try discriminate K; repeat split.
Qed.

Lemma dropExpired_all (now : num) (points : list Point.t) :
  forallb (fun p => negb ((now - p.(Point.time)) <=? Fin 100)) points = true ->
  dropExpired now points = [].
Proof.
  induction points as [|p rest IH]; [reflexivity|].
  simpl. intro H. apply andb_true_iff in H. destruct H as [Hp Hr].
  apply negb_true_iff in Hp. rewrite Hp. exact (IH Hr).
Qed.

(** X22. A release more than 100 ms after the last tracked point has no
    inertia: every point is evicted, the oldest and the newest retained
    point are one, the velocity is 0 on both axes, and the deceleration
    starts only if the target is out of bounds. *)
Theorem release_after_rest (now : num) (e : Engine) :
  forallb (fun p => negb ((now - p.(Point.time)) <=? Fin 100))
    (e.(options).(trackingPoints)) = true ->
  let e' := stopTracking now e in
  e'.(options).(trackingPoints)
  = [Point.mk (e.(options).(pointerLastX)) (e.(options).(pointerLastY)) now]
  /\ e'.(options).(decVelX) = Fin 0
  /\ e'.(options).(decVelY) = Fin 0
  /\ (((overflowX (e.(options)) === Fin 0)
       && (overflowY (e.(options)) === Fin 0)) = true ->
      e'.(frames) = e.(frames)
      /\ e'.(options).(decelerating) = e.(options).(decelerating)).
Proof.
  intros H e'. subst e'.
  unfold stopTracking, removeEventListeners.
  set (e1 := addTrackingPoint _ _ _ _).
  assert (E : e1.(options).(trackingPoints)
              = [Point.mk (e.(options).(pointerLastX))
                   (e.(options).(pointerLastY)) now]).
  { subst e1. rewrite addTrackingPoint_points.
    destruct e as [[] ]. cbn [options with_options set_options
      set_pointerActive trackingPoints pointerLastX pointerLastY] in *.
    now rewrite (dropExpired_all _ _ H). }
  assert (P1 : overflowX (e1.(options)) = overflowX (e.(options))
               /\ overflowY (e1.(options)) = overflowY (e.(options))
               /\ e1.(options).(decelerating) = e.(options).(decelerating)
               /\ e1.(frames) = e.(frames)).
  { subst e1. destruct e as [[] ]. repeat split. }
  destruct P1 as (Px & Py & Pd & Pf).
  rewrite (startDecelAnim_eq e1 E). cbv zeta. cbn [last Point.x Point.y].
  rewrite !still_quotient, abs_zero_gt. cbn [orb].
  rewrite <- Px, <- Py, <- Pd, <- Pf.
  clearbody e1.
  destruct e1 as [o1 s1 t1 src1 fr1 nh1 sl1 wl1 dl1 cs1]. destruct o1.
  cbn [options trackingPoints] in E. subst.
  unfold overflowX, overflowY.
  cbn -[seq axisDiff].
  destruct ((_ === _) && (_ === _)); cbn;
    refine (conj eq_refl (conj eq_refl (conj eq_refl _)));
    intro K; try discriminate K; split; reflexivity.
Qed.

Lemma release_after_rest_witness :
  let e := run [Down (Fin 0) (mouseAt 0 0); Move (Fin 10) (mouseAt 50 0);
                Frame] (instance defaults) in
  forallb (fun p => negb ((Fin 200 - p.(Point.time)) <=? Fin 100))
    (e.(options).(trackingPoints)) = true
  /\ e.(options).(targetX) = Fin 50
  /\ (stopTracking (Fin 200) e).(options).(decVelX) = Fin 0
  /\ (stopTracking (Fin 200) e).(options).(decelerating) = false
  /\ (stopTracking (Fin 200) e).(frames) = [].
Proof.
  intro e.
  assert (H : forallb (fun p => negb ((Fin 200 - p.(Point.time)) <=? Fin 100))
                (e.(options).(trackingPoints)) = true)
    by (vm_compute; reflexivity).
  destruct (@release_after_rest (Fin 200) e H) as (_ & Vx & _ & Hin).
  destruct (Hin eq_refl) as [Hf Hd].
  refine (conj H (conj _ (conj Vx (conj _ _)))).
  - vm_compute. reflexivity.
  - refine (eq_trans Hd _). vm_compute. reflexivity.
  - refine (eq_trans Hf _). vm_compute. reflexivity.
Defined.

(** X23. With time elapsed between the oldest and the newest retained
    point, finite positions and a finite non-zero multiplier, the
    velocity [startDecelAnim] stores on each axis is the distance between
    the two points divided by [(t1 - t0) / 15 / multiplier]. *)
Theorem release_velocity_elapsed (e : Engine) (rest : list Point.t)
  (x0 y0 t0 x1 y1 t1 m : Q) :
  e.(options).(trackingPoints) = Point.mk (Fin x0) (Fin y0) (Fin t0) :: rest ->
  last (e.(options).(trackingPoints)) (Point.mk NaN NaN NaN)
  = Point.mk (Fin x1) (Fin y1) (Fin t1) ->
  (t0 < t1)%Q ->
  e.(options).(multiplier) = Fin m -> ~ (m == 0)%Q ->
  same ((startDecelAnim e).(options).(decVelX))
       (Fin ((x1 - x0) / ((t1 - t0) / 15 / m))%Q)
  /\ same ((startDecelAnim e).(options).(decVelY))
          (Fin ((y1 - y0) / ((t1 - t0) / 15 / m))%Q).
Proof.
  intros E L Ht Hm Hm0.
  destruct (@startDecelAnim_velocity e _ _ E) as [Vx Vy]. cbv zeta in Vx, Vy.
  rewrite E in L.
  assert (L' : last (Point.mk (Fin x0) (Fin y0) (Fin t0) :: rest)
                 (Point.mk (Fin x0) (Fin y0) (Fin t0))
               = Point.mk (Fin x1) (Fin y1) (Fin t1)).
  { rewrite <- L. clear. generalize (Point.mk (Fin x0) (Fin y0) (Fin t0)).
    intro p. generalize p at 1 3. induction rest as [|q r IH]; intro p0.
    - reflexivity.
    - simpl. destruct r; [reflexivity|]. apply (IH q). }
  rewrite L', Hm in Vx, Vy. cbn [Point.x Point.y Point.time] in Vx, Vy.
  rewrite Vx, Vy.
  split; apply velocity_elapsed; assumption.
Qed.

Lemma release_velocity_elapsed_witness :
  let e := with_options (set_pointerActive false)
             (addTrackingPoint (Fin 50) (Fin 10) (Fin 4)
                (run [Down (Fin 0) (mouseAt 0 0); Move (Fin 0) (mouseAt 10 4);
                      Frame] (instance defaults))) in
  hd_error (e.(options).(trackingPoints))
  = Some (Point.mk (Fin 0) (Fin 0) (Fin 0))
  /\ last (e.(options).(trackingPoints)) (Point.mk NaN NaN NaN)
     = Point.mk (Fin 10) (Fin 4) (Fin 50)
  /\ (0 < 50)%Q /\ e.(options).(multiplier) = Fin 1 /\ ~ (1 == 0)%Q
  /\ same ((startDecelAnim e).(options).(decVelX)) (Fin 3)
  /\ same ((startDecelAnim e).(options).(decVelX))
          (Fin ((10 - 0) / ((50 - 0) / 15 / 1))%Q).
Proof.
  intro e.
  assert (E : e.(options).(trackingPoints)
              = Point.mk (Fin 0) (Fin 0) (Fin 0)
                :: [Point.mk (Fin 0) (Fin 0) (Fin 0);
                    Point.mk (Fin 10) (Fin 4) (Fin 50)])
    by (vm_compute; reflexivity).
  assert (L : last (e.(options).(trackingPoints)) (Point.mk NaN NaN NaN)
              = Point.mk (Fin 10) (Fin 4) (Fin 50))
    by (vm_compute; reflexivity).
  assert (Ht : (0 < 50)%Q) by reflexivity.
  assert (Hm : e.(options).(multiplier) = Fin 1) by (vm_compute; reflexivity).
  assert (Hm0 : ~ (1 == 0)%Q) by discriminate.
  destruct (@release_velocity_elapsed e _ 0 0 0 10 4 50 1 E L Ht Hm Hm0)
    as [Vx _].
  refine (conj _ (conj L (conj Ht (conj Hm (conj Hm0 (conj _ Vx))))));
    vm_compute; reflexivity.
Defined.

(* ================================================================= *)
(** ** A move event with a deltaX *)

Lemma add_nan (a : num) : a + NaN = NaN /\ NaN + a = NaN.
Proof. destruct a; split; reflexivity. Qed.

Lemma axisDiff_nan (min max : option num) : axisDiff min max NaN = Fin 0.
Proof.
  unfold axisDiff, gt.
  destruct min as [[]|], max as [[]|]; reflexivity.
Qed.

(** A drag update from a [NaN] pointer position. *)
Lemma updateAndRender_nan (e : Engine) :
  e.(options).(pointerCurrentX) = NaN ->
  e.(options).(pointerCurrentY) = NaN ->
  (updateAndRender e).(options).(targetX) = NaN
  /\ (updateAndRender e).(options).(targetY) = NaN.
Proof.
  destruct e as [o s t src fr nh sl wl dl cs]. destruct o.
  cbn [options pointerCurrentX pointerCurrentY]. intros -> ->.
  assert (N : forall a b c : num, a + (NaN - b) * c = NaN)
    by (intros [] [] []; reflexivity).
  unfold updateAndRender, checkBounds.
  cbn -[or_else div sub mul add abs gt lt le seq sne axisDiff
        dragOutOfBoundsMultiplier].
  rewrite !N, !axisDiff_nan.
  assert (Z0 : (0 !== 0) = false) by reflexivity.
  destruct bounce0; rewrite ?Z0;
    cbn -[or_else div sub mul add abs gt lt le seq sne axisDiff
          dragOutOfBoundsMultiplier];
    rewrite ?N, ?axisDiff_nan, ?Z0;
    cbn -[or_else div sub mul add abs gt lt le seq sne axisDiff
          dragOutOfBoundsMultiplier];
    rewrite ?N; split; reflexivity.
Qed.

(** X24. [onMove] reads [deltaX] and [deltaY] off the normalized event,
    which has neither.  So a tracked move event that carries a [deltaX]
    sets the current pointer position to [NaN] on both axes, and the
    drag update that follows makes the target [NaN] on both axes, in
    either mode and whatever the bounds. *)
Theorem onMove_deltaX_poisons (now : num) (ev : Ev.Raw) (e : Engine) :
  e.(options).(pointerActive) = true ->
  sameId ((normalizeEvent ev).(Ev.id)) (e.(options).(pointerId)) = true ->
  notNull (ev.(Ev.deltaX)) = true ->
  let e1 := onMove now ev e in
  e1.(options).(pointerCurrentX) = NaN
  /\ e1.(options).(pointerCurrentY) = NaN
  /\ (updateAndRender e1).(options).(targetX) = NaN
  /\ (updateAndRender e1).(options).(targetY) = NaN.
Proof.
  intros Ha Hi Hd e1.
  assert (P : e1.(options).(pointerCurrentX) = NaN
              /\ e1.(options).(pointerCurrentY) = NaN).
  { subst e1. unfold onMove. rewrite Ha, Hi, Hd. cbn [andb].
    unfold requestTick, requestAnimationFrame, addTrackingPoint, undefined.
    rewrite (proj1 (add_nan (Ev.x (normalizeEvent ev)))),
      (proj1 (add_nan (Ev.y (normalizeEvent ev)))).
    destruct e as [[] ]. cbn -[dropExpired].
    destruct ticking0; split; reflexivity. }
  destruct P as [Px Py]. refine (conj Px (conj Py _)).
  exact (updateAndRender_nan e1 Px Py).
Qed.

Lemma onMove_deltaX_poisons_witness :
  let e := onDown (Fin 0) (mouseAt 0 0) (instance clampConfig) in
  let ev := Ev.mkRaw false (Fin 3) (Fin 4) 0 (Some (Fin 1)) in
  e.(options).(pointerActive) = true
  /\ sameId ((normalizeEvent ev).(Ev.id)) (e.(options).(pointerId)) = true
  /\ notNull (ev.(Ev.deltaX)) = true
  /\ (updateAndRender (onMove (Fin 5) ev e)).(options).(targetX) = NaN
  /\ (run [Move (Fin 5) ev; Frame] e).(options).(targetX) = NaN.
Proof.
  intros e ev.
  destruct (@onMove_deltaX_poisons (Fin 5) ev e eq_refl eq_refl eq_refl)
    as (_ & _ & Tx & _).
  refine (conj eq_refl (conj eq_refl (conj eq_refl (conj Tx _)))).
  vm_compute. reflexivity.
Defined.

(* ================================================================= *)
(** ** The pointer that started the drag *)


